(** * tgEmailResend: the mailbox connection manager

    A shallow embedding of the Go package [internal/email] (IMAP client,
    notification loop, server resolver, connection manager) and the
    properties of it that the specification states.

    Conventions of the embedding.
    - A [uint32] is a [Z]; the only arithmetic the code does on one
      ([sinceUID+1]) has its wrap-around written out ([Go.uint32]).
    - A Go [error] is an [option string]: [None] is [nil], [Some msg] an
      error with that message; [fmt.Errorf("...: %w", err)] prefixes it.
    - The process state is the record [Sys]: the heap of [Client] objects
      (a [*Client] is an index into it), the transport connections, the
      cancellation contexts, the goroutines spawned so far, the logical
      clock and the single [Manager].  Code that mutates this state is
      written in the state monad [M] with [let*].
    - Everything outside the process (the IMAP servers, DNS, the TCP stack)
      is the oracle [Net], a field of [Sys]: a theorem quantified over
      [Sys] is quantified over every behaviour of the network.
    - What the process does that others can observe is appended to
      [trace]: lock operations on [Manager.mu] and [Client.mu], network
      operations, goroutine spawns, handler invocations, waits.
    - Calls to the logger are not modelled. *)

From Stdlib Require Import ZArith String Ascii List Bool Lia Sorted
  DecimalString.
From stdpp Require Import base option list gmap strings.

Open Scope Z_scope.

(** ** Go: the parts of the language and of its library the code uses *)

Module Go.

Definition error : Type := option string.

(** [fmt.Errorf(prefix + "%w", err)] for a non-nil [err]. *)
Definition Errorf (prefix : string) (err : string) : error :=
  Some (prefix +:+ err).

Definition MaxUint32 : Z := 4294967295.

(** Conversion of an integer to [uint32]: reduction modulo 2^32. *)
Definition uint32 (z : Z) : Z := z mod 2 ^ 32.

(** [time.Duration] counts nanoseconds. *)
Definition Duration : Type := Z.
Definition Second : Duration := 1000000000.
Definition Minute : Duration := 60 * Second.

(** [strings.HasPrefix(s, prefix)] *)
Definition HasPrefix (s prefix : string) : bool := String.prefix prefix s.

(** [strings.HasSuffix(s, suffix)] *)
Definition HasSuffix (s suffix : string) : bool :=
  let n := String.length s in
  let k := String.length suffix in
  (k <=? n)%nat && String.eqb (String.substring (n - k) k s) suffix.

(** [strings.TrimSuffix(s, suffix)] *)
Definition TrimSuffix (s suffix : string) : string :=
  if HasSuffix s suffix
  then String.substring 0 (String.length s - String.length suffix) s
  else s.

(** [strings.Split(s, sep)] for a separator of one byte: the pieces of
    [s] between the occurrences of [sep], one more than there are
    occurrences. *)
Fixpoint Split (s : string) (sep : ascii) : list string :=
  match s with
  | EmptyString => [EmptyString]
  | String c rest =>
      if Ascii.eqb c sep then EmptyString :: Split rest sep
      else match Split rest sep with
           | [] => [String c EmptyString]
           | piece :: pieces => String c piece :: pieces
           end
  end.

(** [strings.SplitN(s, sep, 2)] for a separator of one byte: [s] cut at
    the first occurrence of [sep], or [s] alone when there is none. *)
Fixpoint SplitN2 (s : string) (sep : ascii) : list string :=
  match s with
  | EmptyString => [EmptyString]
  | String c rest =>
      if Ascii.eqb c sep then [EmptyString; rest]
      else match SplitN2 rest sep with
           | piece :: pieces => String c piece :: pieces
           | [] => [String c EmptyString]
           end
  end.

(** [strings.ToLower] restricted to ASCII: the letters [A]..[Z] are
    mapped to [a]..[z], every other byte is kept. *)
Definition lowerByte (c : ascii) : ascii :=
  let n := nat_of_ascii c in
  if ((65 <=? n) && (n <=? 90))%nat then ascii_of_nat (n + 32) else c.

Fixpoint ToLowerASCII (s : string) : string :=
  match s with
  | EmptyString => EmptyString
  | String c rest => String (lowerByte c) (ToLowerASCII rest)
  end.

End Go.

(** ** go-imap v1.2.1 and go-message: what the client library hands to the code

    The library is not part of the repository.  Its data is modelled as the
    code sees it: a fetched message with the results the parsing calls will
    give, a sequence set as the library represents it, and a mailbox that
    answers [UID FETCH] as RFC 3501 prescribes. *)

Module imap.

(** [imap.Address]; [Address()] joins mailbox and host. *)
Record Address := {
  PersonalName : string;
  MailboxName : string;
  HostName : string
}.

Definition Address_Address (a : Address) : string :=
  MailboxName a +:+ "@" +:+ HostName a.

(** [imap.Envelope], the fields the code reads; [Date] is in seconds
    since the epoch. *)
Record Envelope := {
  Date : Z;
  Subject : string;
  From : list Address;
  MessageId : string
}.

(** One step of [mail.Reader.NextPart]: the part's header kind and what
    [io.ReadAll(part.Body)] returns ([None]: a read error). *)
Inductive PartHeader :=
| InlineHeader (contentType : string)
| AttachmentHeader.

Record Part := {
  Header : PartHeader;
  Body : option string
}.

(** How the sequence of parts ends: [io.EOF] or another error. *)
Inductive PartsEnd := EOF | PartError.

(** [mail.CreateReader(bodyReader)]: an error, or a reader that yields
    parts and then ends. *)
Inductive BodyLiteral :=
| CreateReaderError
| Reader (parts : list Part) (ending : PartsEnd).

(** [imap.Message]: [Envelope] may be nil, [GetBody(section)] may be nil. *)
Record Message := {
  Uid : Z;
  Envelope_ : option Envelope;
  GetBody : option BodyLiteral
}.

(** [imap.Seq]: a range [Start:Stop]; zero stands for ["*"]. *)
Record Seq := { Start : Z; Stop : Z }.

Definition SeqSet : Type := list Seq.

(** [SeqSet.AddRange] on the set built so far.  The library swaps the
    bounds when [Stop < Start] (and [Stop] is not ["*"]) or [Start] is
    ["*"].  (Merging of overlapping ranges is left out: the code only
    adds to a fresh set.) *)
Definition AddRange (s : SeqSet) (start stop : Z) : SeqSet :=
  if ((stop <? start) && negb (stop =? 0)) || (start =? 0)
  then s ++ [{| Start := stop; Stop := start |}]
  else s ++ [{| Start := start; Stop := stop |}].

(** [SeqSet.AddNum] *)
Definition AddNum (s : SeqSet) (num : Z) : SeqSet :=
  s ++ [{| Start := num; Stop := num |}].

(** A mailbox on the server: its messages in sequence-number order. *)
Definition Mailbox : Type := list Message.

Definition maxUid (mb : Mailbox) : Z :=
  fold_right (fun m acc => Z.max (Uid m) acc) 0 mb.

(** RFC 3501: ["*"] is the largest identifier in use; a range contains
    everything between its two bounds, in either order. *)
Definition resolve (mb : Mailbox) (n : Z) : Z :=
  if n =? 0 then maxUid mb else n.

Definition Seq_selects (mb : Mailbox) (q : Seq) (uid : Z) : bool :=
  let a := resolve mb (Start q) in
  let b := resolve mb (Stop q) in
  (Z.min a b <=? uid) && (uid <=? Z.max a b).

Definition selects (mb : Mailbox) (set : SeqSet) (uid : Z) : bool :=
  existsb (fun q => Seq_selects mb q uid) set.

(** The answer of the server to [UID FETCH set]: the selected messages,
    in mailbox order. *)
Definition UidFetch (mb : Mailbox) (set : SeqSet) : list Message :=
  List.filter (fun m => selects mb set (Uid m)) mb.

End imap.

(** ** pkg/models and internal/config *)

Module models.

(** [EmailAccount]; times are seconds since the epoch. *)
Record EmailAccount := {
  ID : Z;
  Email : string;
  Password : string;
  IMAPServer : string;
  ChatID : Z;
  TopicID : Z;
  IsActive : bool;
  LastUID : Z;
  CreatedAt : Z;
  UpdatedAt : Z;
  CreatedBy : Z
}.

End models.

Module config.

Record Config := {
  IMAPIdleTimeout : Go.Duration;
  IMAPDialTimeout : Go.Duration
}.

(** The [envDefault] values: 25m and 30s. *)
Definition Default : Config :=
  {| IMAPIdleTimeout := 25 * Go.Minute; IMAPDialTimeout := 30 * Go.Second |}.

End config.

(** ** internal/email: data *)

Module email.

Import Go.

(** *** The client's types ([RawEmail], [Address], [ClientConfig], [Client]) *)

Record Address := { Name : string; Address_ : string }.

(** The zero value [&Address{}]. *)
Definition emptyAddress : Address :=
  {| Name := EmptyString; Address_ := EmptyString |}.

Record RawEmail := {
  UID : Z;
  MessageID : string;
  From : option Address;
  Subject : string;
  Date : Z;
  BodyHTML : string;
  BodyText : string
}.

Record ClientConfig := {
  Email : string;
  Password : string;
  Server : string;
  IdleTimeout : Duration;
  DialTimeout : Duration
}.

(** [Client]: [client] is the handle of the IMAP connection ([None]:
    nil), [stopCh] tells whether the channel has been closed. *)
Record Client := {
  config : ClientConfig;
  client : option nat;
  connected : bool;
  stopCh : bool;
  stopped : bool
}.

(** *** The manager's types *)

(** [clientWrapper]: [wrapper_client] is the [*Client], [ctx] the
    context whose cancel function is [cancel]. *)
Record clientWrapper := {
  wrapper_client : nat;
  account : models.EmailAccount;
  ctx : nat
}.

(** [Manager].  A handler is known by the invocations it receives,
    which go to the trace: the field only says whether it is set. *)
Record Manager := {
  clients : gmap Z clientWrapper;
  manager_config : config.Config;
  onMessage : bool;
  onError : bool;
  decryptFunc : option (string -> string)
}.

(** *** The process state *)

(** Goroutines the code starts and does not wait for. *)
Inductive Task :=
| runClient_task (wrapper : clientWrapper)
| teardown_task (conn : nat).

Inductive Event :=
| MuLock | MuUnlock | MuRLock | MuRUnlock
| ClientLock (c : nat) | ClientUnlock (c : nat)
| NetDial (server : string)
| NetGreeting (conn : nat)
| NetLogin (conn : nat)
| NetSelect (conn : nat)
| NetUidFetch (conn : nat) (set : imap.SeqSet)
| NetUidStore (conn : nat) (set : imap.SeqSet) (flag : string)
| NetExpunge (conn : nat)
| NetLogout (conn : nat)
| NetClose (conn : nat)
| NetTerminate (conn : nat)
| GoSpawn (t : Task)
| CtxCancel (ctx : nat)
| CloseStopCh (c : nat)
| OnMessage (accountID : Z) (msg : RawEmail)
| OnError (accountID : Z) (err : string)
| Sleep (d : Duration)
| Waited (d : Duration).

(** The world outside the process.  Servers are addressed by
    [host:port] and user; [logout_in_time conn] tells whether a
    [LOGOUT] on that connection is answered within the grace period. *)
Record Net := {
  dial : string -> error;
  greeting : string -> error;
  login : string -> string -> string -> error;
  select_inbox : string -> string -> error;
  uid_fetch : string -> string -> imap.SeqSet -> list imap.Message * error;
  uid_store : string -> string -> imap.SeqSet -> string -> error;
  expunge : string -> string -> error;
  logout_in_time : nat -> bool
}.

(** A transport connection: where it goes and whether it is open. *)
Record Transport := { peer : string; open : bool }.

Record Sys := {
  net : Net;
  heap : list Client;
  conns : list Transport;
  ctxs : list bool;
  spawned : list Task;
  trace : list Event;
  clock : Z;
  manager : Manager
}.

Definition with_heap (f : list Client -> list Client) (s : Sys) : Sys :=
  {| net := net s; heap := f (heap s); conns := conns s; ctxs := ctxs s;
     spawned := spawned s; trace := trace s; clock := clock s;
     manager := manager s |}.

Definition with_conns (f : list Transport -> list Transport) (s : Sys) : Sys :=
  {| net := net s; heap := heap s; conns := f (conns s); ctxs := ctxs s;
     spawned := spawned s; trace := trace s; clock := clock s;
     manager := manager s |}.

Definition with_ctxs (f : list bool -> list bool) (s : Sys) : Sys :=
  {| net := net s; heap := heap s; conns := conns s; ctxs := f (ctxs s);
     spawned := spawned s; trace := trace s; clock := clock s;
     manager := manager s |}.

Definition with_spawned (f : list Task -> list Task) (s : Sys) : Sys :=
  {| net := net s; heap := heap s; conns := conns s; ctxs := ctxs s;
     spawned := f (spawned s); trace := trace s; clock := clock s;
     manager := manager s |}.

Definition with_trace (f : list Event -> list Event) (s : Sys) : Sys :=
  {| net := net s; heap := heap s; conns := conns s; ctxs := ctxs s;
     spawned := spawned s; trace := f (trace s); clock := clock s;
     manager := manager s |}.

Definition with_clock (f : Z -> Z) (s : Sys) : Sys :=
  {| net := net s; heap := heap s; conns := conns s; ctxs := ctxs s;
     spawned := spawned s; trace := trace s; clock := f (clock s);
     manager := manager s |}.

Definition with_manager (f : Manager -> Manager) (s : Sys) : Sys :=
  {| net := net s; heap := heap s; conns := conns s; ctxs := ctxs s;
     spawned := spawned s; trace := trace s; clock := clock s;
     manager := f (manager s) |}.

Definition with_net (n : Net) (s : Sys) : Sys :=
  {| net := n; heap := heap s; conns := conns s; ctxs := ctxs s;
     spawned := spawned s; trace := trace s; clock := clock s;
     manager := manager s |}.

Definition with_clients (f : gmap Z clientWrapper -> gmap Z clientWrapper)
    (m : Manager) : Manager :=
  {| clients := f (clients m); manager_config := manager_config m;
     onMessage := onMessage m; onError := onError m;
     decryptFunc := decryptFunc m |}.

(** *** The state monad *)

Definition M (A : Type) : Type := Sys -> A * Sys.

Definition ret {A} (a : A) : M A := fun s => (a, s).

Definition bind {A B} (m : M A) (k : A -> M B) : M B :=
  fun s => let (a, s') := m s in k a s'.

Notation "'let*' x ':=' c 'in' k" := (bind c (fun x => k))
  (at level 10, x pattern, c at level 100, k at level 200).

Definition gets {A} (f : Sys -> A) : M A := fun s => (f s, s).

Definition modify (f : Sys -> Sys) : M unit := fun s => (tt, f s).

Definition emit (e : Event) : M unit :=
  modify (with_trace (fun t => t ++ [e])).

(** [go f()]: the goroutine is recorded, it runs later. *)
Definition go (t : Task) : M unit :=
  let* _ := emit (GoSpawn t) in
  modify (with_spawned (fun l => l ++ [t])).

(** [time.Sleep(d)] *)
Definition time_Sleep (d : Duration) : M unit :=
  let* _ := emit (Sleep d) in
  modify (with_clock (fun t => t + d)).

(** *** The heap of clients *)

Definition zeroClient : Client :=
  {| config := {| Email := EmptyString; Password := EmptyString;
                  Server := EmptyString; IdleTimeout := 0;
                  DialTimeout := 0 |};
     client := None; connected := false; stopCh := false; stopped := false |}.

Definition deref (s : Sys) (c : nat) : Client :=
  default zeroClient (heap s !! c).

Definition getClient (c : nat) : M Client := gets (fun s => deref s c).

Definition setClient (c : nat) (f : Client -> Client) : M unit :=
  modify (with_heap (fun h => alter f c h)).

(** [c.mu.Lock(); defer c.mu.Unlock()] around a method body. *)
Definition locked {A} (c : nat) (body : M A) : M A :=
  let* _ := emit (ClientLock c) in
  let* r := body in
  let* _ := emit (ClientUnlock c) in
  ret r.

(** *** The network primitives (standard library and go-imap client) *)

Definition close_transport (conn : nat) : M unit :=
  modify (with_conns
    (alter (fun t => {| peer := peer t; open := false |}) conn)).

(** [tls.DialWithDialer]: an error, or a new open connection. *)
Definition tls_DialWithDialer (timeout : Duration) (server : string)
    : M (nat + string) :=
  let* _ := emit (NetDial server) in
  let* n := gets net in
  match dial n server with
  | Some err => ret (inr err)
  | None =>
      let* conn := gets (fun s => length (conns s)) in
      let* _ := modify (with_conns
                  (fun l => l ++ [{| peer := server; open := true |}])) in
      ret (inl conn)
  end.

(** [client.New(conn)]: reads the greeting. *)
Definition client_New (conn : nat) (server : string) : M error :=
  let* _ := emit (NetGreeting conn) in
  let* n := gets net in
  ret (greeting n server).

Definition conn_Close (conn : nat) : M unit :=
  let* _ := emit (NetClose conn) in
  close_transport conn.

Definition client_Login (conn : nat) (server user password : string)
    : M error :=
  let* _ := emit (NetLogin conn) in
  let* n := gets net in
  ret (login n server user password).

(** [Logout] gracefully closes the connection. *)
Definition client_Logout (conn : nat) : M unit :=
  let* _ := emit (NetLogout conn) in
  close_transport conn.

(** [Terminate] closes it without the exchange. *)
Definition client_Terminate (conn : nat) : M unit :=
  let* _ := emit (NetTerminate conn) in
  close_transport conn.

Definition client_Select (conn : nat) (server user : string) : M error :=
  let* _ := emit (NetSelect conn) in
  let* n := gets net in
  ret (select_inbox n server user).

(** [UidFetch(seqSet, items, messages)]: the messages sent on the
    channel before it is closed, and the result sent on [done]. *)
Definition client_UidFetch (conn : nat) (server user : string)
    (set : imap.SeqSet) : M (list imap.Message * error) :=
  let* _ := emit (NetUidFetch conn set) in
  let* n := gets net in
  ret (uid_fetch n server user set).

Definition client_UidStore (conn : nat) (server user : string)
    (set : imap.SeqSet) (flag : string) : M error :=
  let* _ := emit (NetUidStore conn set flag) in
  let* n := gets net in
  ret (uid_store n server user set flag).

Definition client_Expunge (conn : nat) (server user : string) : M error :=
  let* _ := emit (NetExpunge conn) in
  let* n := gets net in
  ret (expunge n server user).

(** ** internal/email: the IMAP client of one account *)

(** [NewClient]: allocates the object and returns the pointer. *)
Definition NewClient (cfg : ClientConfig) : M nat :=
  let* c := gets (fun s => length (heap s)) in
  let* _ := modify (with_heap (fun h => h ++
              [{| config := cfg; client := None; connected := false;
                  stopCh := false; stopped := false |}])) in
  ret c.

Definition set_connection (conn : option nat) (up : bool) (cl : Client)
    : Client :=
  {| config := config cl; client := conn; connected := up;
     stopCh := stopCh cl; stopped := stopped cl |}.

(** [Client.Connect] *)
Definition Connect (c : nat) : M error :=
  locked c (
    let* cl := getClient c in
    if connected cl then ret None
    else
      let timeout :=
        if DialTimeout (config cl) =? 0 then 30 * Second
        else DialTimeout (config cl) in
      let* r := tls_DialWithDialer timeout (Server (config cl)) in
      match r with
      | inr err => ret (Errorf "failed to connect: " err)
      | inl conn =>
          let* g := client_New conn (Server (config cl)) in
          match g with
          | Some err =>
              let* _ := conn_Close conn in
              ret (Errorf "failed to create IMAP client: " err)
          | None =>
              let* l := client_Login conn (Server (config cl))
                          (Email (config cl)) (Password (config cl)) in
              match l with
              | Some err =>
                  let* _ := client_Logout conn in
                  ret (Errorf "failed to login: " err)
              | None =>
                  let* _ := setClient c (set_connection (Some conn) true) in
                  ret None
              end
          end
      end).

(** The guard [!c.connected || c.client == nil] of every operation:
    the connection to use, if there is one. *)
Definition usable (cl : Client) : option nat :=
  if connected cl then client cl else None.

(** [Client.SelectINBOX]; the mailbox status it returns is never used. *)
Definition SelectINBOX (c : nat) : M error :=
  locked c (
    let* cl := getClient c in
    match usable cl with
    | None => ret (Some "not connected")
    | Some conn =>
        let* r := client_Select conn (Server (config cl))
                    (Email (config cl)) in
        match r with
        | Some err => ret (Errorf "failed to select INBOX: " err)
        | None => ret None
        end
    end).

(** *** Parsing one fetched message *)

Definition set_body (html : bool) (body : string) (e : RawEmail) : RawEmail :=
  {| UID := UID e; MessageID := MessageID e; From := From e;
     Subject := Subject e; Date := Date e;
     BodyHTML := if html then body else BodyHTML e;
     BodyText := if html then BodyText e else body |}.

(** One turn of the loop over the parts: only an inline part whose
    body could be read and whose content type starts with [text/html]
    or [text/plain] changes the result. *)
Definition readPart (e : RawEmail) (part : imap.Part) : RawEmail :=
  match imap.Header part with
  | imap.InlineHeader ct =>
      match imap.Body part with
      | None => e
      | Some body =>
          if HasPrefix ct "text/html" then set_body true body e
          else if HasPrefix ct "text/plain" then set_body false body e
          else e
      end
  | imap.AttachmentHeader => e
  end.

(** [Client.parseMessage].  A reader that cannot be created, or a part
    that cannot be read, is logged and ends the reading of the body;
    neither is returned as an error. *)
Definition parseMessage (msg : imap.Message) : RawEmail * error :=
  let email :=
    match imap.Envelope_ msg with
    | Some env =>
        {| UID := imap.Uid msg;
           MessageID := imap.MessageId env;
           From := match imap.From env with
                   | from :: _ =>
                       Some {| Name := imap.PersonalName from;
                               Address_ := imap.Address_Address from |}
                   | [] => None
                   end;
           Subject := imap.Subject env;
           Date := imap.Date env;
           BodyHTML := EmptyString; BodyText := EmptyString |}
    | None =>
        {| UID := imap.Uid msg; MessageID := EmptyString; From := None;
           Subject := EmptyString; Date := 0; BodyHTML := EmptyString;
           BodyText := EmptyString |}
    end in
  let email :=
    match imap.GetBody msg with
    | Some (imap.Reader parts _) => fold_left readPart parts email
    | Some imap.CreateReaderError => email
    | None => email
    end in
  let email :=
    match From email with
    | None =>
        {| UID := UID email; MessageID := MessageID email;
           From := Some emptyAddress; Subject := Subject email;
           Date := Date email; BodyHTML := BodyHTML email;
           BodyText := BodyText email |}
    | Some _ => email
    end in
  (email, None).

(** The loop [for msg := range messages] of [FetchNewMessages], for any
    parsing function: a message whose parse returns an error is
    skipped, the others are appended in the order of arrival. *)
Fixpoint collect (parse : imap.Message -> RawEmail * error)
    (messages : list imap.Message) : list RawEmail :=
  match messages with
  | [] => []
  | msg :: rest =>
      match parse msg with
      | (_, Some _) => collect parse rest
      | (email, None) => email :: collect parse rest
      end
  end.

(** [Client.FetchNewMessages].  The goroutine that runs [UidFetch] and
    the two channels are sequentialised: the messages are consumed
    until the channel is closed, then [done] is read. *)
Definition FetchNewMessages (c : nat) (sinceUID : Z)
    : M (list RawEmail * error) :=
  locked c (
    let* cl := getClient c in
    match usable cl with
    | None => ret ([], Some "not connected")
    | Some conn =>
        let seqSet := imap.AddRange [] (uint32 (sinceUID + 1)) 0 in
        let* (messages, done) :=
          client_UidFetch conn (Server (config cl)) (Email (config cl))
            seqSet in
        let emails := collect parseMessage messages in
        match done with
        | Some err => ret (emails, Errorf "failed to fetch: " err)
        | None => ret (emails, None)
        end
    end).

(** [Client.MarkAsRead] *)
Definition Client_MarkAsRead (c : nat) (uid : Z) : M error :=
  locked c (
    let* cl := getClient c in
    match usable cl with
    | None => ret (Some "not connected")
    | Some conn =>
        let seqSet := imap.AddNum [] uid in
        let* r := client_UidStore conn (Server (config cl))
                    (Email (config cl)) seqSet "\Seen" in
        match r with
        | Some err => ret (Errorf "failed to mark as read: " err)
        | None => ret None
        end
    end).

(** [Client.DeleteMessage] *)
Definition Client_DeleteMessage (c : nat) (uid : Z) : M error :=
  locked c (
    let* cl := getClient c in
    match usable cl with
    | None => ret (Some "not connected")
    | Some conn =>
        let seqSet := imap.AddNum [] uid in
        let* r := client_UidStore conn (Server (config cl))
                    (Email (config cl)) seqSet "\Deleted" in
        match r with
        | Some err => ret (Errorf "failed to mark as deleted: " err)
        | None =>
            let* x := client_Expunge conn (Server (config cl))
                        (Email (config cl)) in
            match x with
            | Some err => ret (Errorf "failed to expunge: " err)
            | None => ret None
            end
        end
    end).

(** [Client.handleDisconnect] *)
Definition handleDisconnect (c : nat) : M unit :=
  locked c (
    let* cl := getClient c in
    let* _ := setClient c (set_connection (client cl) false) in
    match client cl with
    | Some conn =>
        let* _ := client_Logout conn in
        setClient c (set_connection None false)
    | None => ret tt
    end).

Definition set_stopped (cl : Client) : Client :=
  {| config := config cl; client := None; connected := false;
     stopCh := stopCh cl; stopped := true |}.

Definition close_stopCh (cl : Client) : Client :=
  {| config := config cl; client := client cl; connected := connected cl;
     stopCh := true; stopped := stopped cl |}.

(** [Client.Stop].  The connection is not closed here: a goroutine is
    started that will log out, or terminate the connection when the
    logout takes more than two seconds. *)
Definition Stop (c : nat) : M unit :=
  let* _ := emit (ClientLock c) in
  let* cl := getClient c in
  if stopped cl then
    emit (ClientUnlock c)
  else
    let imapClient := client cl in
    let* _ := setClient c set_stopped in
    let* _ := emit (ClientUnlock c) in
    let* _ := emit (CloseStopCh c) in
    let* _ := setClient c close_stopCh in
    match imapClient with
    | Some conn => go (teardown_task conn)
    | None => ret tt
    end.

(** The goroutine of [Stop]: [Logout] if it completes within the grace
    period, [Terminate] otherwise. *)
Definition teardown (conn : nat) : M unit :=
  let* n := gets net in
  if logout_in_time n conn then client_Logout conn
  else
    let* _ := emit (Waited (2 * Second)) in
    client_Terminate conn.

(** [Client.IsConnected] *)
Definition IsConnected (c : nat) : M bool :=
  locked c (
    let* cl := getClient c in
    ret (connected cl)).

(** ** internal/email: the wait for a notification (idle.go) *)

(** A channel that another goroutine may close: the time, counted from
    the start of the wait, after which it is closed ([None]: not while
    the wait lasts). *)
Definition Closing : Type := option Duration.

(** [IdleClient.pollFallback]: a [select] on [stop] and on a ticker of
    period [timeout]; the result is the error returned and the time the
    call took.  Both cases return nil. *)
Definition pollFallback (stop : Closing) (timeout : Duration)
    : error * Duration :=
  match stop with
  | Some t => if t <? timeout then (None, t) else (None, timeout)
  | None => (None, timeout)
  end.

(** [IdleClient.IdleWithFallback]: the [timeout] it is given is not
    used. *)
Definition IdleWithFallback (stop : Closing) (timeout : Duration)
    : error * Duration :=
  pollFallback stop (15 * Second).

(** What other goroutines do while [StartIDLE] waits: when the context
    is cancelled and when the stop channel is closed. *)
Record Interruption := { ctxDone : Closing; stopClosed : Closing }.

Definition undisturbed : Interruption :=
  {| ctxDone := None; stopClosed := None |}.

(** What ends the wait. *)
Inductive Wake :=
| CtxDone
| StopClosed
| IdleDone (err : error).

(** The wait of [StartIDLE]: [IdleWithFallback] runs in a goroutine and
    sends its result on [idleDone]; the [select] takes whichever of
    [ctx.Done()], [c.stopCh] and [idleDone] is ready first (the earlier
    case of the source when two are ready together).  [stopIdle] is
    closed only once the [select] has chosen, so the goroutine sees it
    open for as long as the wait lasts.  The result is what ended the
    wait and how long it took. *)
Definition awaitIdle (timeout : Duration) (during : Interruption)
    : Wake * Duration :=
  let (err, idleAt) := IdleWithFallback None timeout in
  let idle := (IdleDone err, idleAt) in
  match ctxDone during, stopClosed during with
  | Some a, Some b =>
      if (a <=? b) && (a <=? idleAt) then (CtxDone, a)
      else if b <=? idleAt then (StopClosed, b) else idle
  | Some a, None => if a <=? idleAt then (CtxDone, a) else idle
  | None, Some b => if b <=? idleAt then (StopClosed, b) else idle
  | None, None => idle
  end.

(** How one turn of the loop of [StartIDLE] ends: with [continue] or the
    end of the body, with a [return], or with the run-time error that
    stops the process. *)
Inductive Flow :=
| Next
| Return (err : error)
| Fatal (msg : string).

(** One turn of the loop of [Client.StartIDLE].  [onNewMail] is a
    closure over a variable of the caller; the variable is passed
    through as [captured].  When the client was found disconnected and
    [Connect] and [SelectINBOX] both succeed, control reaches the second
    [c.mu.Unlock()] with the mutex already unlocked. *)
Definition StartIDLE_turn {St} (c : nat) (ctx : nat)
    (onNewMail : St -> M St) (captured : St) (during : Interruption)
    : M (Flow * St) :=
  let* cancelled := gets (fun s => default false (ctxs s !! ctx)) in
  let* cl := getClient c in
  if cancelled then ret (Return (Some "context canceled"%string), captured)
  else if stopCh cl then ret (Return None, captured)
  else
    let* _ := emit (ClientLock c) in
    let* cl := getClient c in
    let* _ := emit (ClientUnlock c) in
    match usable cl with
    | None =>
        let* err := Connect c in
        match err with
        | Some _ =>
            let* _ := time_Sleep (10 * Second) in
            ret (Next, captured)
        | None =>
            let* err := SelectINBOX c in
            match err with
            | Some _ =>
                let* _ := time_Sleep (10 * Second) in
                ret (Next, captured)
            | None =>
                ret (Fatal "sync: unlock of unlocked mutex", captured)
            end
        end
    | Some _ =>
        let* _ := emit (ClientLock c) in
        let* cl := getClient c in
        let* _ := emit (ClientUnlock c) in
        match client cl with
        | None => ret (Next, captured)
        | Some _ =>
            let (wake, elapsed) :=
              awaitIdle (IdleTimeout (config cl)) during in
            let* _ := emit (Waited elapsed) in
            let* _ := modify (with_clock (fun t => t + elapsed)) in
            match wake with
            | CtxDone => ret (Return (Some "context canceled"%string), captured)
            | StopClosed => ret (Return None, captured)
            | IdleDone (Some _) =>
                let* _ := handleDisconnect c in
                let* _ := time_Sleep (5 * Second) in
                ret (Next, captured)
            | IdleDone None =>
                let* captured' := onNewMail captured in
                ret (Next, captured')
            end
        end
    end.

(** [Client.StartIDLE]: the loop, for as many turns as [during] has
    entries; each entry says what interrupts that turn's wait. *)
Fixpoint StartIDLE {St} (c : nat) (ctx : nat) (onNewMail : St -> M St)
    (captured : St) (during : list Interruption) : M (Flow * St) :=
  match during with
  | [] => ret (Next, captured)
  | d :: rest =>
      let* (flow, captured') := StartIDLE_turn c ctx onNewMail captured d in
      match flow with
      | Next => StartIDLE c ctx onNewMail captured' rest
      | _ => ret (flow, captured')
      end
  end.

(** ** internal/email: the manager *)

(** [NewManager] *)
Definition NewManager (cfg : config.Config) : Manager :=
  {| clients := ∅; manager_config := cfg; onMessage := false;
     onError := false; decryptFunc := None |}.

(** [SetMessageHandler], [SetErrorHandler], [SetDecryptFunc] *)
Definition SetMessageHandler (m : Manager) : Manager :=
  {| clients := clients m; manager_config := manager_config m;
     onMessage := true; onError := onError m;
     decryptFunc := decryptFunc m |}.

Definition SetErrorHandler (m : Manager) : Manager :=
  {| clients := clients m; manager_config := manager_config m;
     onMessage := onMessage m; onError := true;
     decryptFunc := decryptFunc m |}.

Definition SetDecryptFunc (fn : string -> string) (m : Manager) : Manager :=
  {| clients := clients m; manager_config := manager_config m;
     onMessage := onMessage m; onError := onError m;
     decryptFunc := Some fn |}.

(** [m.mu.Lock(); defer m.mu.Unlock()] and the shared form. *)
Definition mu_Lock {A} (body : M A) : M A :=
  let* _ := emit MuLock in
  let* r := body in
  let* _ := emit MuUnlock in
  ret r.

Definition mu_RLock {A} (body : M A) : M A :=
  let* _ := emit MuRLock in
  let* r := body in
  let* _ := emit MuRUnlock in
  ret r.

(** [context.WithCancel(context.Background())] and the cancel function. *)
Definition context_WithCancel : M nat :=
  let* id := gets (fun s => length (ctxs s)) in
  let* _ := modify (with_ctxs (fun l => l ++ [false])) in
  ret id.

Definition cancel (id : nat) : M unit :=
  let* _ := emit (CtxCancel id) in
  modify (with_ctxs (fun l => <[id := true]> l)).

Definition clientConfigOf (m : Manager) (email password server : string)
    : ClientConfig :=
  {| Email := email; Password := password; Server := server;
     IdleTimeout := config.IMAPIdleTimeout (manager_config m);
     DialTimeout := config.IMAPDialTimeout (manager_config m) |}.

(** [Manager.TestConnection] *)
Definition TestConnection (email password server : string) : M error :=
  let* m := gets manager in
  let* client := NewClient (clientConfigOf m email password server) in
  let* err := Connect client in
  match err with
  | Some e => ret (Some e)
  | None =>
      let* err := SelectINBOX client in
      match err with
      | Some e =>
          let* _ := Stop client in
          ret (Some e)
      | None =>
          let* _ := Stop client in
          ret None
      end
  end.

(** [Manager.AddAccount] *)
Definition AddAccount (account : models.EmailAccount) : M error :=
  mu_Lock (
    let* m := gets manager in
    match clients m !! models.ID account with
    | Some _ => ret None
    | None =>
        let password :=
          match decryptFunc m with
          | Some fn => fn (models.Password account)
          | None => models.Password account
          end in
        let* client := NewClient (clientConfigOf m (models.Email account)
                         password (models.IMAPServer account)) in
        let* err := Connect client in
        match err with
        | Some e => ret (Some e)
        | None =>
            let* err := SelectINBOX client in
            match err with
            | Some e =>
                let* _ := Stop client in
                ret (Some e)
            | None =>
                let* clientCtx := context_WithCancel in
                let wrapper := {| wrapper_client := client;
                                  account := account;
                                  ctx := clientCtx |} in
                let* _ := modify (with_manager (with_clients
                            (insert (models.ID account) wrapper))) in
                let* _ := go (runClient_task wrapper) in
                ret None
            end
        end
    end).

(** The handlers, called when they are set. *)
Definition call_onError (accountID : Z) (err : string) : M unit :=
  let* m := gets manager in
  if onError m then emit (OnError accountID err) else ret tt.

Definition call_onMessage (accountID : Z) (msg : RawEmail) : M unit :=
  let* m := gets manager in
  if onMessage m then emit (OnMessage accountID msg) else ret tt.

(** [if msg.UID > *lastUID { *lastUID = msg.UID }] *)
Definition advance (lastUID : Z) (msg : RawEmail) : Z :=
  if lastUID <? UID msg then UID msg else lastUID.

(** The loop [for _, msg := range messages] of [fetchNewMessages]. *)
Fixpoint process (accountID : Z) (messages : list RawEmail) (lastUID : Z)
    : M Z :=
  match messages with
  | [] => ret lastUID
  | msg :: rest =>
      let* _ := call_onMessage accountID msg in
      process accountID rest (advance lastUID msg)
  end.

(** [Manager.fetchNewMessages]; the result is the new value of
    [*lastUID]. *)
Definition fetchNewMessages (wrapper : clientWrapper) (lastUID : Z) : M Z :=
  let accountID := models.ID (account wrapper) in
  let* err := SelectINBOX (wrapper_client wrapper) in
  match err with
  | Some e =>
      let* _ := call_onError accountID e in
      ret lastUID
  | None =>
      let* (messages, err) :=
        FetchNewMessages (wrapper_client wrapper) lastUID in
      match err with
      | Some e =>
          let* _ := call_onError accountID e in
          ret lastUID
      | None => process accountID messages lastUID
      end
  end.

(** [Manager.runClient]: the variable [lastUID] that the closure given
    to [StartIDLE] captures is the state passed through the loop. *)
Definition runClient (wrapper : clientWrapper) (during : list Interruption)
    : M (Flow * Z) :=
  let lastUID := models.LastUID (account wrapper) in
  let* lastUID := fetchNewMessages wrapper lastUID in
  StartIDLE (wrapper_client wrapper) (ctx wrapper)
    (fetchNewMessages wrapper) lastUID during.

(** [Manager.RemoveAccount] *)
Definition RemoveAccount (accountID : Z) : M error :=
  mu_Lock (
    let* m := gets manager in
    match clients m !! accountID with
    | None => ret None
    | Some wrapper =>
        let* _ := cancel (ctx wrapper) in
        let* _ := Stop (wrapper_client wrapper) in
        let* _ := modify (with_manager (with_clients (delete accountID))) in
        ret None
    end).

(** [Manager.GetStatus] *)
Definition GetStatus (accountID : Z) : M string :=
  mu_RLock (
    let* m := gets manager in
    match clients m !! accountID with
    | None => ret "disconnected"%string
    | Some wrapper =>
        let* up := IsConnected (wrapper_client wrapper) in
        if up then ret "connected"%string else ret "reconnecting"%string
    end).

(** The lookup of [MarkAsRead] and [DeleteMessage]: the lock is
    released before the result is used. *)
Definition lookup_wrapper (accountID : Z) : M (option clientWrapper) :=
  let* _ := emit MuRLock in
  let* m := gets manager in
  let* _ := emit MuRUnlock in
  ret (clients m !! accountID).

(** [Manager.MarkAsRead] *)
Definition MarkAsRead (accountID : Z) (uid : Z) : M error :=
  let* w := lookup_wrapper accountID in
  match w with
  | None => ret None
  | Some wrapper => Client_MarkAsRead (wrapper_client wrapper) uid
  end.

(** [Manager.DeleteMessage] *)
Definition DeleteMessage (accountID : Z) (uid : Z) : M error :=
  let* w := lookup_wrapper accountID in
  match w with
  | None => ret None
  | Some wrapper => Client_DeleteMessage (wrapper_client wrapper) uid
  end.

(** [Manager.RestoreAll].  Each goroutine calls [AddAccount], which
    takes the exclusive lock first and keeps it to its end, so the
    calls run one after the other; [accounts] lists them in the order
    in which they get the lock.  A failure is logged and ignored. *)
Fixpoint RestoreAll (accounts : list models.EmailAccount) : M unit :=
  match accounts with
  | [] => ret tt
  | acc :: rest =>
      let* _ := AddAccount acc in
      RestoreAll rest
  end.

(** The body of the loop of [StopAll] over the entries of the map. *)
Fixpoint stopEach (entries : list (Z * clientWrapper)) : M unit :=
  match entries with
  | [] => ret tt
  | (id, wrapper) :: rest =>
      let* _ := cancel (ctx wrapper) in
      let* _ := Stop (wrapper_client wrapper) in
      let* _ := modify (with_manager (with_clients (delete id))) in
      stopEach rest
  end.

(** [Manager.StopAll]; the map is visited in the order of
    [map_to_list]. *)
Definition StopAll : M unit :=
  mu_Lock (
    let* m := gets manager in
    stopEach (map_to_list (clients m))).

End email.

(** ** internal/email: resolution of the IMAP server of an address *)

Module resolver.

Import Go.
Local Open Scope string_scope.

(** [knownIMAPServers] *)
Definition knownIMAPServers : gmap string string :=
  list_to_map
    [ ("gmail.com", "imap.gmail.com:993");
      ("googlemail.com", "imap.gmail.com:993");
      ("outlook.com", "outlook.office365.com:993");
      ("hotmail.com", "outlook.office365.com:993");
      ("live.com", "outlook.office365.com:993");
      ("msn.com", "outlook.office365.com:993");
      ("yahoo.com", "imap.mail.yahoo.com:993");
      ("yahoo.co.uk", "imap.mail.yahoo.com:993");
      ("yandex.ru", "imap.yandex.ru:993");
      ("yandex.com", "imap.yandex.com:993");
      ("mail.ru", "imap.mail.ru:993");
      ("bk.ru", "imap.mail.ru:993");
      ("list.ru", "imap.mail.ru:993");
      ("inbox.ru", "imap.mail.ru:993");
      ("icloud.com", "imap.mail.me.com:993");
      ("me.com", "imap.mail.me.com:993");
      ("mac.com", "imap.mail.me.com:993");
      ("aol.com", "imap.aol.com:993");
      ("zoho.com", "imap.zoho.com:993");
      ("protonmail.com", "127.0.0.1:1143");
      ("proton.me", "127.0.0.1:1143");
      ("fastmail.com", "imap.fastmail.com:993");
      ("gmx.com", "imap.gmx.com:993");
      ("gmx.de", "imap.gmx.net:993");
      ("web.de", "imap.web.de:993");
      ("t-online.de", "secureimap.t-online.de:993");
      ("rambler.ru", "imap.rambler.ru:993") ].

(** What the resolver asks of the network, in order. *)
Inductive Probe :=
| DialTCP (address : string)
| LookupMX (domain : string).

(** The network as the resolver sees it: whether a TCP connection to an
    address can be made within three seconds (a connection made is
    closed at once), and the hosts of the MX records of a domain in
    order of preference ([None]: the lookup fails). *)
Record Network := {
  reachable : string -> bool;
  mx : string -> option (list string)
}.

Section Resolve.

(** [strings.ToLower]; it is a parameter because the code applies it to
    arbitrary input and its value outside ASCII depends on the Unicode
    tables. *)
Variable ToLower : string -> string.
Variable network : Network.

(** [fmt.Sprintf("%s:%d", host, port)] *)
Definition hostPort (host : string) (port : Z) : string :=
  host +:+ ":" +:+ DecimalString.NilZero.string_of_int (Z.to_int port).

(** [checkIMAPServer] *)
Definition checkIMAPServer (host : string) (port : Z) : bool * list Probe :=
  let address := hostPort host port in
  (reachable network address, [DialTCP address]).

(** [resolveViaMX] *)
Definition resolveViaMX (domain : string) : (string * error) * list Probe :=
  match mx network domain with
  | None | Some [] =>
      ((EmptyString, Some "no MX records found"), [LookupMX domain])
  | Some (host :: _) =>
      let mxHost := TrimSuffix host "." in
      match SplitN2 mxHost "." with
      | [_; baseDomain] =>
          let imapHost := "imap." +:+ baseDomain in
          let (ok1, log1) := checkIMAPServer imapHost 993 in
          if ok1 then ((imapHost +:+ ":993", None), LookupMX domain :: log1)
          else
            let mailHost := "mail." +:+ baseDomain in
            let (ok2, log2) := checkIMAPServer mailHost 993 in
            if ok2
            then ((mailHost +:+ ":993", None),
                  LookupMX domain :: (log1 ++ log2)%list)
            else ((EmptyString, Some "could not determine IMAP server"),
                  LookupMX domain :: (log1 ++ log2)%list)
      | _ => ((EmptyString, Some "could not determine IMAP server"),
              [LookupMX domain])
      end
  end.

(** The loop over the conventional host names: the first one that
    answers. *)
Fixpoint tryPatterns (patterns : list string) : option string * list Probe :=
  match patterns with
  | [] => (None, [])
  | pattern :: rest =>
      let host := TrimSuffix pattern ":993" in
      let (ok, log) := checkIMAPServer host 993 in
      if ok then (Some pattern, log)
      else let (found, more) := tryPatterns rest in (found, (log ++ more)%list)
  end.

(** [ResolveIMAPServer]; the second component lists the probes made. *)
Definition ResolveIMAPServer (email : string)
    : (string * error) * list Probe :=
  match Split email "@" with
  | [_; rawDomain] =>
      let domain := ToLower rawDomain in
      match knownIMAPServers !! domain with
      | Some server => ((server, None), [])
      | None =>
          let patterns := [ "imap." +:+ domain +:+ ":993";
                            "mail." +:+ domain +:+ ":993";
                            domain +:+ ":993" ] in
          match tryPatterns patterns with
          | (Some pattern, log) => ((pattern, None), log)
          | (None, log) =>
              let (answer, more) := resolveViaMX domain in
              match answer with
              | (mxServer, None) =>
                  if String.eqb mxServer EmptyString
                  then (("imap." +:+ domain +:+ ":993", None),
                        (log ++ more)%list)
                  else ((mxServer, None), (log ++ more)%list)
              | (_, Some _) =>
                  (("imap." +:+ domain +:+ ":993", None), (log ++ more)%list)
              end
          end
      end
  | _ => ((EmptyString, Some "invalid email format"), [])
  end.

(** [GetDomainFromEmail] *)
Definition GetDomainFromEmail (email : string) : string :=
  match Split email "@" with
  | [_; rawDomain] => ToLower rawDomain
  | _ => EmptyString
  end.

End Resolve.

(** A network in which nothing answers. *)
Definition offline : Network :=
  {| reachable := fun _ => false; mx := fun _ => None |}.

(** A network in which only [imap.example.org:993] answers and the mail
    of [unknown-domain.test] is handled by [mx.example.org]. *)
Definition exampleOrg : Network :=
  {| reachable := fun a => String.eqb a "imap.example.org:993";
     mx := fun d => if String.eqb d "unknown-domain.test"
                    then Some ["mx.example.org."] else None |}.

End resolver.

(** ** What a run shows: projections of the trace *)

Import email.

(** The events an operation appends to the trace when run from [s]. *)
Definition events_of {A} (op : M A) (s : Sys) : list Event :=
  drop (length (trace s)) (trace (snd (op s))).

(** The invocations of the message handler, in order. *)
Definition delivered (tr : list Event) : list (Z * RawEmail) :=
  omap (fun e => match e with
                 | OnMessage accountID msg => Some (accountID, msg)
                 | _ => None
                 end) tr.

(** The waits of the notification loop, with their durations. *)
Definition waits (tr : list Event) : list Go.Duration :=
  omap (fun e => match e with Waited d => Some d | _ => None end) tr.

(** [emits P op]: run from any state, [op] appends events to the trace
    and all of them satisfy [P]. *)
Definition emits {A} (P : Event -> Prop) (op : M A) : Prop :=
  forall s, exists evs,
    trace (snd (op s)) = trace s ++ evs /\ Forall P evs.

(** The events of an operation on one session: its mutex and the
    network. *)
Definition session_io (e : Event) : Prop :=
  match e with
  | ClientLock _ | ClientUnlock _
  | NetDial _ | NetGreeting _ | NetLogin _ | NetSelect _
  | NetUidFetch _ _ | NetUidStore _ _ _ | NetExpunge _
  | NetLogout _ | NetClose _ => True
  | _ => False
  end.

(** The events of the task of one account: those of its session, the
    handlers, the sleeps, and waits of at most fifteen seconds. *)
Definition loop_event (e : Event) : Prop :=
  match e with
  | OnMessage _ _ | OnError _ _ | Sleep _ => True
  | Waited d => d <= 15 * Go.Second
  | _ => session_io e
  end.

(** [returns Q op]: whatever the state, the result of [op] satisfies
    [Q]. *)
Definition returns {A} (Q : A -> Prop) (op : M A) : Prop :=
  forall s, Q (fst (op s)).

(** The tracked identifier of one account over successive fetch cycles,
    as [runClient] keeps it in [lastUID]: before each invocation of
    [fetchNewMessages] the rest of the process and the network do
    whatever [between] says. *)
Fixpoint fetchCycles (wrapper : clientWrapper) (between : list (Sys -> Sys))
    (lastUID : Z) (s : Sys) : list Z :=
  match between with
  | [] => [lastUID]
  | env :: rest =>
      let (lastUID', s') := fetchNewMessages wrapper lastUID (env s) in
      lastUID :: fetchCycles wrapper rest lastUID' s'
  end.

(** ** Concrete worlds, used to run the model *)

(** A network in which every operation succeeds and the INBOX of every
    user is [mb]. *)
Definition serverOf (mb : imap.Mailbox) : Net :=
  {| dial := fun _ => None;
     greeting := fun _ => None;
     login := fun _ _ _ => None;
     select_inbox := fun _ _ => None;
     uid_fetch := fun _ _ set => (imap.UidFetch mb set, None);
     uid_store := fun _ _ _ _ => None;
     expunge := fun _ _ => None;
     logout_in_time := fun _ => true |}.

(** A network like [serverOf mb] in which the answer to a fetch breaks
    off: the selected messages of [mb] are received, then the command
    fails. *)
Definition interruptedServer (mb : imap.Mailbox) : Net :=
  {| dial := fun _ => None;
     greeting := fun _ => None;
     login := fun _ _ _ => None;
     select_inbox := fun _ _ => None;
     uid_fetch := fun _ _ set => (imap.UidFetch mb set, Some "EOF"%string);
     uid_store := fun _ _ _ _ => None;
     expunge := fun _ _ => None;
     logout_in_time := fun _ => true |}.

(** The process after start-up: nothing but a manager; in [boot] it has
    the default configuration, both handlers set and no account. *)
Definition start (n : Net) (m : Manager) : Sys :=
  {| net := n; heap := []; conns := []; ctxs := []; spawned := [];
     trace := []; clock := 0; manager := m |}.

Definition boot (n : Net) : Sys :=
  start n (SetErrorHandler (SetMessageHandler (NewManager config.Default))).

Definition alice : models.EmailAccount :=
  {| models.ID := 1; models.Email := "alice@example.org";
     models.Password := "secret";
     models.IMAPServer := "imap.example.org:993";
     models.ChatID := 10; models.TopicID := 2; models.IsActive := true;
     models.LastUID := 0; models.CreatedAt := 1700000000;
     models.UpdatedAt := 1700000000; models.CreatedBy := 7 |}.

Definition bob : models.EmailAccount :=
  {| models.ID := 2; models.Email := "bob@example.net";
     models.Password := "hunter2";
     models.IMAPServer := "imap.example.net:993";
     models.ChatID := 10; models.TopicID := 3; models.IsActive := true;
     models.LastUID := 0; models.CreatedAt := 1700000000;
     models.UpdatedAt := 1700000000; models.CreatedBy := 7 |}.

(** The process once [alice] has been added; her session is
    [aliceWrapper]. *)
Definition running (mb : imap.Mailbox) : Sys :=
  snd (AddAccount alice (boot (serverOf mb))).

Definition aliceWrapper : clientWrapper :=
  {| wrapper_client := 0; account := alice; ctx := 0 |}.

(** A message with an envelope and a readable text body. *)
Definition wellFormed (uid : Z) : imap.Message :=
  {| imap.Uid := uid;
     imap.Envelope_ :=
       Some {| imap.Date := 1700000000; imap.Subject := "hello";
               imap.From := [{| imap.PersonalName := "Bob";
                                imap.MailboxName := "bob";
                                imap.HostName := "example.net" |}];
               imap.MessageId := "<1@example.net>" |};
     imap.GetBody :=
       Some (imap.Reader
               [{| imap.Header := imap.InlineHeader "text/plain; charset=utf-8";
                   imap.Body := Some "text" |}] imap.EOF) |}.

(** A message without envelope whose body no reader can be created
    for. *)
Definition malformed (uid : Z) : imap.Message :=
  {| imap.Uid := uid; imap.Envelope_ := None;
     imap.GetBody := Some imap.CreateReaderError |}.

Definition batchOfFive : imap.Mailbox :=
  [wellFormed 1; wellFormed 2; wellFormed 3; wellFormed 4; malformed 5].

(** The messages one invocation of [fetchNewMessages] gets to process:
    none when the selection or the fetch fails. *)
Definition batch (wrapper : clientWrapper) (lastUID : Z) (s : Sys)
    : list RawEmail :=
  let c := wrapper_client wrapper in
  let cfg := config (deref s c) in
  match usable (deref s c) with
  | None => []
  | Some _ =>
      match select_inbox (net s) (Server cfg) (Email cfg) with
      | Some _ => []
      | None =>
          match uid_fetch (net s) (Server cfg) (Email cfg)
                  (imap.AddRange [] (Go.uint32 (lastUID + 1)) 0) with
          | (_, Some _) => []
          | (messages, None) => collect parseMessage messages
          end
      end
  end.

(** [FetchNewMessages(K)] followed by [FetchNewMessages] of the largest
    identifier seen so far, on the client at address 0; the result is the
    identifiers each call returns. *)
Definition fetchTwice (K : Z) : M (list Z * list Z) :=
  bind (FetchNewMessages 0 K) (fun first =>
  bind (FetchNewMessages 0 (fold_left Z.max (map UID (fst first)) K))
    (fun second =>
  ret (map UID (fst first), map UID (fst second)))).

(** ** Connections, goroutines, sessions *)

(** Whether a transport connection is open. *)
Definition isOpen (s : Sys) (conn : nat) : bool :=
  match conns s !! conn with
  | Some t => open t
  | None => false
  end.

(** The connections for which a teardown goroutine has been started. *)
Definition teardowns (s : Sys) : list nat :=
  omap (fun t => match t with
                 | teardown_task conn => Some conn
                 | _ => None
                 end) (spawned s).

(** Teardown goroutines, run one after the other. *)
Fixpoint runTeardowns (todo : list nat) : M unit :=
  match todo with
  | [] => ret tt
  | conn :: rest => bind (teardown conn) (fun _ => runTeardowns rest)
  end.

(** The sessions started so far: one per [runClient] goroutine. *)
Definition sessions (s : Sys) : list clientWrapper :=
  omap (fun t => match t with
                 | runClient_task wrapper => Some wrapper
                 | _ => None
                 end) (spawned s).

(** A session is live until its client is stopped. *)
Definition live (s : Sys) (wrapper : clientWrapper) : bool :=
  negb (stopped (deref s (wrapper_client wrapper))).

Definition liveSessions (s : Sys) (accountID : Z) : list clientWrapper :=
  List.filter
    (fun w => (models.ID (account w) =? accountID) && live s w)
    (sessions s).

(** ** The discipline of the registry lock *)

Definition isNetwork (e : Event) : bool :=
  match e with
  | NetDial _ | NetGreeting _ | NetLogin _ | NetSelect _
  | NetUidFetch _ _ | NetUidStore _ _ _ | NetExpunge _
  | NetLogout _ | NetClose _ | NetTerminate _ => true
  | _ => false
  end.

(** Reads a trace with [Manager.mu] held or not at its start: [None]
    when a network operation is performed while the lock is held,
    otherwise whether the lock is held at the end. *)
Fixpoint scan (held : bool) (tr : list Event) : option bool :=
  match tr with
  | [] => Some held
  | MuLock :: rest | MuRLock :: rest => scan true rest
  | MuUnlock :: rest | MuRUnlock :: rest => scan false rest
  | e :: rest => if held && isNetwork e then None else scan held rest
  end.

(** [Manager.mu] as a readers-writer lock, and two goroutines that have
    the events [left] and [right] still to perform.  A goroutine whose
    next event is an acquisition the lock does not allow cannot move. *)
Record Mu := { writer : bool; readers : nat }.

Definition unlocked : Mu := {| writer := false; readers := 0 |}.

Definition enabled (mu : Mu) (e : Event) : bool :=
  match e with
  | MuLock => negb (writer mu) && (readers mu =? 0)%nat
  | MuRLock => negb (writer mu)
  | _ => true
  end.

Definition after (mu : Mu) (e : Event) : Mu :=
  match e with
  | MuLock => {| writer := true; readers := readers mu |}
  | MuUnlock => {| writer := false; readers := readers mu |}
  | MuRLock => {| writer := writer mu; readers := S (readers mu) |}
  | MuRUnlock => {| writer := writer mu; readers := pred (readers mu) |}
  | _ => mu
  end.

Record Pool := { mu : Mu; left : list Event; right : list Event }.

(** One event of one of the two goroutines; the label is the event. *)
Inductive sched : Pool -> Event -> Pool -> Prop :=
| sched_left m e l r :
    enabled m e = true ->
    sched {| mu := m; left := e :: l; right := r |} e
          {| mu := after m e; left := l; right := r |}
| sched_right m e l r :
    enabled m e = true ->
    sched {| mu := m; left := l; right := e :: r |} e
          {| mu := after m e; left := l; right := r |}.

(** A run: the events performed, in order. *)
Inductive run : Pool -> list Event -> Pool -> Prop :=
| run_done p : run p [] p
| run_step p e p' es p'' :
    sched p e p' -> run p' es p'' -> run p (e :: es) p''.

(** ** The manager as a transition system *)

(** What can happen in the process: a call of the manager's interface,
    a run of a goroutine that was started, a change of the network.
    Each is one transition: [AddAccount], [RemoveAccount] and [StopAll]
    hold [Manager.mu] exclusively from their first step to their last,
    and the others change neither the registry nor the sessions. *)
Inductive Action :=
| DoAddAccount (account : models.EmailAccount)
| DoRemoveAccount (accountID : Z)
| DoStopAll
| DoTestConnection (email password server : string)
| DoGetStatus (accountID : Z)
| DoMarkAsRead (accountID : Z) (uid : Z)
| DoDeleteMessage (accountID : Z) (uid : Z)
| DoRunClient (wrapper : clientWrapper) (during : list Interruption)
| DoTeardown (conn : nat)
| DoNetwork (n : Net).

Definition perform (a : Action) (s : Sys) : Sys :=
  match a with
  | DoAddAccount account => snd (AddAccount account s)
  | DoRemoveAccount accountID => snd (RemoveAccount accountID s)
  | DoStopAll => snd (StopAll s)
  | DoTestConnection email password server =>
      snd (TestConnection email password server s)
  | DoGetStatus accountID => snd (GetStatus accountID s)
  | DoMarkAsRead accountID uid => snd (MarkAsRead accountID uid s)
  | DoDeleteMessage accountID uid => snd (DeleteMessage accountID uid s)
  | DoRunClient wrapper during => snd (runClient wrapper during s)
  | DoTeardown conn => snd (teardown conn s)
  | DoNetwork n => with_net n s
  end.

(** A goroutine runs only once it has been started. *)
Definition possible (a : Action) (s : Sys) : Prop :=
  match a with
  | DoRunClient wrapper _ => In (runClient_task wrapper) (spawned s)
  | DoTeardown conn => In (teardown_task conn) (spawned s)
  | _ => True
  end.

(** The states of a process that started with an empty registry. *)
Inductive reachable : Sys -> Prop :=
| reachable_start n m : clients m = ∅ -> reachable (start n m)
| reachable_step s a : reachable s -> possible a s -> reachable (perform a s).

(** ** Frames and the invariant of the manager *)

(** From [s] to [s'] the manager is unchanged, no session is started and
    no client that existed is stopped or revived. *)
Definition stable (s s' : Sys) : Prop :=
  manager s' = manager s
  /\ sessions s' = sessions s
  /\ (length (heap s) <= length (heap s'))%nat
  /\ forall c, (c < length (heap s))%nat ->
       stopped (deref s' c) = stopped (deref s c).

(** An operation that leaves every state [stable]. *)
Definition frames {A} (op : M A) : Prop :=
  forall s, stable s (snd (op s)).

(** What [Stop] does to the heap: the client it is given is stopped and
    no other is touched. *)
Definition stopping (c : nat) (s s' : Sys) : Prop :=
  manager s' = manager s
  /\ sessions s' = sessions s
  /\ length (heap s') = length (heap s)
  /\ (forall c', c' <> c -> stopped (deref s' c') = stopped (deref s c'))
  /\ ((c < length (heap s))%nat -> stopped (deref s' c) = true).

(** The invariant of the manager: the sessions have clients of their
    own, and the sessions that are live are those of the registry. *)
Definition Inv (s : Sys) : Prop :=
  NoDup (map wrapper_client (sessions s))
  /\ (forall w, In w (sessions s) ->
        (wrapper_client w < length (heap s))%nat)
  /\ (forall id w, clients (manager s) !! id = Some w ->
        In w (sessions s) /\ models.ID (account w) = id /\ live s w = true)
  /\ (forall w, In w (sessions s) -> live s w = true ->
        clients (manager s) !! models.ID (account w) = Some w).

(** What [AddAccount] leaves when it has started a session. *)
Definition added (acc : models.EmailAccount) (s s' : Sys) : Prop :=
  let w := {| wrapper_client := length (heap s); account := acc;
              ctx := length (ctxs s) |} in
  manager s' = with_clients (insert (models.ID acc) w) (manager s)
  /\ sessions s' = sessions s ++ [w]
  /\ length (heap s') = S (length (heap s))
  /\ (forall c, (c < length (heap s))%nat ->
        stopped (deref s' c) = stopped (deref s c))
  /\ live s' w = true.

(** No session is started and none that was stopped runs again. *)
Definition quiet (s s' : Sys) : Prop :=
  sessions s' = sessions s
  /\ length (heap s') = length (heap s)
  /\ forall c, stopped (deref s c) = true -> stopped (deref s' c) = true.

(** Events other than those of [Manager.mu]. *)
Definition noMu (e : Event) : Prop :=
  match e with
  | MuLock | MuUnlock | MuRLock | MuRUnlock => False
  | _ => True
  end.

(** Events that are neither of [Manager.mu] nor of the network. *)
Definition in_memory (e : Event) : Prop :=
  noMu e /\ isNetwork e = false.

(** * The packages around the connection manager

    The rest of the client and of the manager, and the packages the
    bot puts around them: the formatter of the Telegram text and of its
    keyboard, the Mailcow client, the database and the handler that
    takes a fetched message to the database and to Telegram. *)

(** ** More of the client: the highest identifier *)

(** The loop of [GetHighestUID] over the identifiers found. *)
Definition highestOf (uids : list Z) : Z :=
  fold_left (fun highest uid => if highest <? uid then uid else highest)
    uids 0.

(** [Client.GetHighestUID].  [UidSearch] is not among the operations of
    [Net]: [search] is the answer of the server to it (the identifiers
    of all messages, or an error) for a server and a user. *)
Definition GetHighestUID
    (search : string -> string -> list Z * Go.error) (c : nat)
    : M (Z * Go.error) :=
  locked c (
    bind (getClient c) (fun cl =>
    match usable cl with
    | None => ret (0, Some "not connected"%string)
    | Some conn =>
        match search (Server (config cl)) (Email (config cl)) with
        | (_, Some err) => ret (0, Go.Errorf "failed to search: " err)
        | (uids, None) =>
            if (length uids =? 0)%nat then ret (0, None)
            else ret (highestOf uids, None)
        end
    end)).

(** ** Observations on the manager *)

(** The password [AddAccount] logs in with. *)
Definition passwordOf (m : Manager) (account : models.EmailAccount)
    : string :=
  match decryptFunc m with
  | Some fn => fn (models.Password account)
  | None => models.Password account
  end.

(** The context of a session and its cancellation. *)
Definition cancelled (s : Sys) (ctx : nat) : bool :=
  default false (ctxs s !! ctx).

(** ** Observations on a fetch cycle and on the loop of a session *)

(** The invocations of the error handler, in order. *)
Definition reported (tr : list Event) : list (Z * string) :=
  omap (fun e => match e with
                 | OnError accountID err => Some (accountID, err)
                 | _ => None
                 end) tr.

(** Why one invocation of [fetchNewMessages] processes no message, if
    that is so: the client has no connection, the selection fails or
    the fetch fails. *)
Definition failure (wrapper : clientWrapper) (lastUID : Z) (s : Sys)
    : option string :=
  let c := wrapper_client wrapper in
  let cfg := config (deref s c) in
  match usable (deref s c) with
  | None => Some "not connected"%string
  | Some _ =>
      match select_inbox (net s) (Server cfg) (Email cfg) with
      | Some e => Some ("failed to select INBOX: " +:+ e)
      | None =>
          match snd (uid_fetch (net s) (Server cfg) (Email cfg)
                       (imap.AddRange [] (Go.uint32 (lastUID + 1)) 0)) with
          | Some e => Some ("failed to fetch: " +:+ e)
          | None => None
          end
      end
  end.

(** The operations on the session in one invocation of
    [fetchNewMessages]: the selection and, if it succeeds, the fetch. *)
Definition cycle_io (wrapper : clientWrapper) (lastUID : Z) (s : Sys)
    : list Event :=
  let c := wrapper_client wrapper in
  let cfg := config (deref s c) in
  match usable (deref s c) with
  | None => [ClientLock c; ClientUnlock c]
  | Some conn =>
      match select_inbox (net s) (Server cfg) (Email cfg) with
      | Some _ => [ClientLock c; NetSelect conn; ClientUnlock c]
      | None =>
          [ClientLock c; NetSelect conn; ClientUnlock c;
           ClientLock c;
           NetUidFetch conn (imap.AddRange [] (Go.uint32 (lastUID + 1)) 0);
           ClientUnlock c]
      end
  end.

(** The commands [SELECT] sent, one at the start of each fetch cycle of
    a connected client. *)
Definition selections (tr : list Event) : nat :=
  length (List.filter
            (fun e => match e with NetSelect _ => true | _ => false end) tr).

(** The condition in which the loop of a session waits: the client has
    a connection, its stop channel is open and the context is not
    cancelled. *)
Definition waiting (s : Sys) (wrapper : clientWrapper) : Prop :=
  (exists conn, usable (deref s (wrapper_client wrapper)) = Some conn)
  /\ stopCh (deref s (wrapper_client wrapper)) = false
  /\ cancelled s (ctx wrapper) = false.

(** ** Observations on addresses *)

(** The number of occurrences of a byte in a string. *)
Definition occurrences (c : ascii) (s : string) : nat :=
  length (List.filter (Ascii.eqb c) (list_ascii_of_string s)).

(** ** More of the Go library: byte strings and UTF-8 *)
Module strings.

(** The line feed, [\n]. *)
Definition LF : string := String (ascii_of_nat 10) EmptyString.

(** [strings.ReplaceAll(s, old, new)] for a non-empty [old]: the
    occurrences of [old] are replaced from left to right, and the
    search goes on after the end of each one.  [skip] counts the bytes
    of an occurrence still to be passed over. *)
Fixpoint replaceFrom (old new : string) (skip : nat) (s : string) : string :=
  match s with
  | EmptyString => EmptyString
  | String c rest =>
      match skip with
      | S k => replaceFrom old new k rest
      | O =>
          if Go.HasPrefix s old
          then new +:+ replaceFrom old new (String.length old - 1) rest
          else String c (replaceFrom old new 0 rest)
      end
  end.

Definition ReplaceAll (s old new : string) : string :=
  replaceFrom old new 0 s.

End strings.

Module utf8.

(** [utf8.RuneError], U+FFFD. *)
Definition RuneError : Z := 65533.

Definition byte (c : ascii) : Z := Z.of_nat (nat_of_ascii c).

(** A continuation byte, [0x80..0xBF]. *)
Definition continuation (b : Z) : bool := (128 <=? b) && (b <=? 191).

(** [utf8.DecodeRuneInString]: the first rune of a non-empty string and
    its width in bytes.  An invalid or incomplete encoding is
    [RuneError] of width 1.  The second byte of a sequence must lie in
    the range that excludes overlong forms and surrogates. *)
Definition DecodeRune (s : string) : Z * nat :=
  match s with
  | EmptyString => (RuneError, 0%nat)
  | String c0 rest =>
      let b0 := byte c0 in
      if b0 <? 128 then (b0, 1%nat)
      else
        let size : nat :=
          if (194 <=? b0) && (b0 <=? 223) then 2%nat
          else if (224 <=? b0) && (b0 <=? 239) then 3%nat
          else if (240 <=? b0) && (b0 <=? 244) then 4%nat
          else 0%nat in
        let lo := if b0 =? 224 then 160 else if b0 =? 240 then 144 else 128 in
        let hi := if b0 =? 237 then 159 else if b0 =? 244 then 143 else 191 in
        match size, rest with
        | 2%nat, String c1 _ =>
            let b1 := byte c1 in
            if (lo <=? b1) && (b1 <=? hi)
            then (Z.lor (Z.shiftl (Z.land b0 31) 6) (Z.land b1 63), 2%nat)
            else (RuneError, 1%nat)
        | 3%nat, String c1 (String c2 _) =>
            let b1 := byte c1 in
            let b2 := byte c2 in
            if (lo <=? b1) && (b1 <=? hi) && continuation b2
            then (Z.lor (Z.shiftl (Z.land b0 15) 12)
                    (Z.lor (Z.shiftl (Z.land b1 63) 6) (Z.land b2 63)),
                  3%nat)
            else (RuneError, 1%nat)
        | 4%nat, String c1 (String c2 (String c3 _)) =>
            let b1 := byte c1 in
            let b2 := byte c2 in
            let b3 := byte c3 in
            if (lo <=? b1) && (b1 <=? hi) && continuation b2
               && continuation b3
            then (Z.lor (Z.shiftl (Z.land b0 7) 18)
                    (Z.lor (Z.shiftl (Z.land b1 63) 12)
                       (Z.lor (Z.shiftl (Z.land b2 63) 6) (Z.land b3 63))),
                  4%nat)
            else (RuneError, 1%nat)
        | _, _ => (RuneError, 1%nat)
        end
  end.

(** [[]rune(s)]: the runes of [s] in order.  [skip] counts the bytes of
    the rune just decoded that are still to be passed over. *)
Fixpoint runesFrom (skip : nat) (s : string) : list Z :=
  match s with
  | EmptyString => []
  | String _ rest =>
      match skip with
      | S k => runesFrom k rest
      | O =>
          let (r, size) := DecodeRune s in
          r :: runesFrom (size - 1) rest
      end
  end.

Definition runes (s : string) : list Z := runesFrom 0 s.

Definition char (b : Z) : ascii := ascii_of_nat (Z.to_nat b).

(** [utf8.AppendRune]: the encoding of one rune; a surrogate or a value
    out of range is encoded as [RuneError]. *)
Definition EncodeRune (r : Z) : string :=
  if (0 <=? r) && (r <=? 127) then String (char r) EmptyString
  else if (0 <=? r) && (r <=? 2047) then
    String (char (Z.lor 192 (Z.shiftr r 6)))
      (String (char (Z.lor 128 (Z.land r 63))) EmptyString)
  else if (r <? 0) || (1114111 <? r) || ((55296 <=? r) && (r <=? 57343)) then
    String (char 239) (String (char 191) (String (char 189) EmptyString))
  else if r <=? 65535 then
    String (char (Z.lor 224 (Z.shiftr r 12)))
      (String (char (Z.lor 128 (Z.land (Z.shiftr r 6) 63)))
         (String (char (Z.lor 128 (Z.land r 63))) EmptyString))
  else
    String (char (Z.lor 240 (Z.shiftr r 18)))
      (String (char (Z.lor 128 (Z.land (Z.shiftr r 12) 63)))
         (String (char (Z.lor 128 (Z.land (Z.shiftr r 6) 63)))
            (String (char (Z.lor 128 (Z.land r 63))) EmptyString))).

(** [string(runes)] *)
Fixpoint encode (rs : list Z) : string :=
  match rs with
  | [] => EmptyString
  | r :: rest => EncodeRune r +:+ encode rest
  end.

End utf8.

(** ** pkg/models: messages and callbacks *)
Module message.

(** [EmailMessage]; times are seconds since the epoch. *)
Record EmailMessage := {
  ID : Z;
  AccountID : Z;
  UID : Z;
  MessageID : string;
  FromAddr : string;
  FromName : string;
  Subject : string;
  BodyText : string;
  BodyHTML : string;
  ReceivedAt : Z;
  IsRead : bool;
  IsDeleted : bool;
  TelegramMsgID : Z;
  DetectedCodes : string;
  CreatedAt : Z
}.

(** [DetectedCode] *)
Record DetectedCode := { Type_ : string; Value : string }.

End message.

(** ** internal/formatter: the text sent to Telegram *)
Module formatter.

Import strings.
Local Open Scope string_scope.
Local Open Scope Z_scope.

Record TelegramFormatter := { maxLength : Z }.

(** [NewTelegramFormatter] *)
Definition NewTelegramFormatter : TelegramFormatter :=
  {| maxLength := 4000 |}.

(** [escapeHTML] *)
Definition escapeHTML (s : string) : string :=
  let s := ReplaceAll s "&" "&amp;" in
  let s := ReplaceAll s "<" "&lt;" in
  let s := ReplaceAll s ">" "&gt;" in
  s.

(** The note appended to a text that was cut. *)
Definition cutNote : string :=
  LF +:+ LF +:+ "<i>... (сообщение обрезано)</i>".

(** [truncate]: [maxLen] counts runes. *)
Definition truncate (s : string) (maxLen : Z) : string :=
  let maxLen := if maxLen <=? 0 then 100 else maxLen in
  let runes := utf8.runes s in
  if Z.of_nat (length runes) <=? maxLen then s
  else utf8.encode (take (Z.to_nat maxLen) runes) +:+ cutNote.

Section FormatEmail.

(** [t.Format("02.01.2006 15:04")] of the standard library. *)
Variable time_Format : Z -> string.

(** The header of the text: what [FormatEmail] has written to the
    builder when it comes to the body. *)
Definition header (msg : message.EmailMessage)
    (codes : list message.DetectedCode) : string :=
  let from :=
    if String.eqb (message.FromName msg) EmptyString
    then escapeHTML (message.FromAddr msg)
    else escapeHTML (message.FromName msg) +:+ " &lt;"
         +:+ escapeHTML (message.FromAddr msg) +:+ "&gt;" in
  let sb := "<b>От:</b> " +:+ from +:+ LF in
  let sb := sb +:+ ("<b>Тема:</b> " +:+ escapeHTML (message.Subject msg)
                    +:+ LF) in
  let sb := sb +:+ ("<b>Дата:</b> " +:+ time_Format (message.ReceivedAt msg)
                    +:+ LF) in
  let sb := sb +:+ LF in
  let sb :=
    if (0 <? length codes)%nat
    then fold_left
           (fun sb code =>
              sb +:+ ("<code>" +:+ message.Value code +:+ "</code> "))
           codes (sb +:+ ("<b>Коды:</b>" +:+ LF))
         +:+ (LF +:+ LF)
    else sb in
  sb +:+ ("<b>Сообщение:</b>" +:+ LF).

(** [FormatEmail] *)
Definition FormatEmail (f : TelegramFormatter) (msg : message.EmailMessage)
    (codes : list message.DetectedCode) : string :=
  let sb := header msg codes in
  let body :=
    truncate (message.BodyText msg)
      (maxLength f - Z.of_nat (String.length sb) - 50) in
  sb +:+ escapeHTML body.

End FormatEmail.

End formatter.

(** What [escapeHTML] makes of one byte. *)
Definition escapeByte (c : ascii) : string :=
  if Ascii.eqb c "&" then "&amp;"
  else if Ascii.eqb c "<" then "&lt;"
  else if Ascii.eqb c ">" then "&gt;"
  else String c EmptyString.

(** A text of ASCII bytes. *)
Definition ascii_only (s : string) : Prop :=
  Forall (fun c => utf8.byte c < 128) (list_ascii_of_string s).

(** The bytes of a text without [&], [<] and [>]. *)
Definition markup_free (s : string) : Prop :=
  occurrences "&" s = 0%nat /\ occurrences "<" s = 0%nat
  /\ occurrences ">" s = 0%nat.

(** A message as [onNewEmail] builds it, and a way of printing times. *)
Definition sampleMessage : message.EmailMessage :=
  {| message.ID := 1; message.AccountID := 1; message.UID := 7;
     message.MessageID := "<1@example.net>";
     message.FromAddr := "bob@example.net"; message.FromName := "Bob";
     message.Subject := "hello";
     message.BodyText := "0123456789012345678901234567890123456789";
     message.BodyHTML := EmptyString; message.ReceivedAt := 1700000000;
     message.IsRead := false; message.IsDeleted := false;
     message.TelegramMsgID := 0; message.DetectedCodes := "[]";
     message.CreatedAt := 1700000000 |}.

Definition sampleTime (t : Z) : string := "14.11.2023 22:13".

(** ** pkg/models: the data of an inline button *)
Module callback.

Definition CallbackAction : Type := string.

Definition CallbackMarkRead : CallbackAction := "mr".
Definition CallbackDelete : CallbackAction := "del".
Definition CallbackCopyCode : CallbackAction := "cc".

Record CallbackData := {
  Action : CallbackAction;
  MessageID : Z;
  CodeIndex : Z
}.

End callback.

(** ** internal/formatter: the inline keyboard of a message *)
Module keyboard.

Local Open Scope string_scope.
Local Open Scope Z_scope.

(** [models.InlineKeyboardButton] of the Telegram library, the two
    fields the code sets. *)
Record InlineKeyboardButton := { Text : string; CallbackData : string }.

Section Keyboard.

(** [json.Marshal] on a [CallbackData]. *)
Variable json_Marshal : callback.CallbackData -> string.

(** [EncodeCallback] *)
Definition EncodeCallback (data : callback.CallbackData) : string :=
  json_Marshal data.

(** The loop [for i, code := range codes] that makes the buttons of the
    codes, from index [i] on. *)
Fixpoint codeButtons (msgID : Z) (i : Z) (codes : list message.DetectedCode)
    : list InlineKeyboardButton :=
  match codes with
  | [] => []
  | code :: rest =>
      {| Text := message.Value code;
         CallbackData :=
           EncodeCallback
             {| callback.Action := callback.CallbackCopyCode;
                callback.MessageID := msgID;
                callback.CodeIndex := i |} |}
      :: codeButtons msgID (i + 1) rest
  end.

(** The loop [for i := 0; i < len(codeButtons); i += 2] that cuts the
    buttons into rows: [codeButtons[i:end]] with [end] the smaller of
    [i+2] and the length. *)
Fixpoint rowsOfTwo (buttons : list InlineKeyboardButton)
    : list (list InlineKeyboardButton) :=
  match buttons with
  | [] => []
  | [a] => [[a]]
  | a :: b :: rest => [a; b] :: rowsOfTwo rest
  end.

(** [BuildEmailKeyboard]: the rows of [InlineKeyboardMarkup]. *)
Definition BuildEmailKeyboard (msgID : Z) (codes : list message.DetectedCode)
    (isRead : bool) : list (list InlineKeyboardButton) :=
  let rows :=
    if (0 <? length codes)%nat then rowsOfTwo (codeButtons msgID 0 codes)
    else [] in
  let actionRow :=
    if negb isRead
    then [{| Text := "Прочитано";
             CallbackData :=
               EncodeCallback
                 {| callback.Action := callback.CallbackMarkRead;
                    callback.MessageID := msgID;
                    callback.CodeIndex := 0 |} |}]
    else [] in
  let actionRow :=
    (actionRow ++ [{| Text := "Удалить";
                      CallbackData :=
                        EncodeCallback
                          {| callback.Action := callback.CallbackDelete;
                             callback.MessageID := msgID;
                             callback.CodeIndex := 0 |} |}])%list in
  (rows ++ [actionRow])%list.

End Keyboard.

End keyboard.

(** The button of the code at index [i]. *)
Definition codeButton (json_Marshal : callback.CallbackData -> string)
    (msgID : Z) (i : nat) (code : message.DetectedCode)
    : keyboard.InlineKeyboardButton :=
  {| keyboard.Text := message.Value code;
     keyboard.CallbackData :=
       json_Marshal {| callback.Action := callback.CallbackCopyCode;
                       callback.MessageID := msgID;
                       callback.CodeIndex := Z.of_nat i |} |}.

Definition sampleCodes : list message.DetectedCode :=
  [{| message.Type_ := "otp"; message.Value := "1234" |};
   {| message.Type_ := "code"; message.Value := "5678" |};
   {| message.Type_ := "token"; message.Value := "abcd1234" |}].

(** A marshaller that shows the action and the index. *)
Definition sampleMarshal (d : callback.CallbackData) : string :=
  callback.Action d +:+ ":"
  +:+ DecimalString.NilZero.string_of_int (Z.to_int (callback.CodeIndex d)).

(** ** internal/mailcow and the Mailcow settings of the configuration *)
Module mailcow.

Local Open Scope string_scope.

(** The settings [MailcowURL], [MailcowAPIKey] and [MailcowDomain] of
    [config.Config]. *)
Record Settings := {
  MailcowURL : string;
  MailcowAPIKey : string;
  MailcowDomain : string
}.

(** [Config.MailcowEnabled] *)
Definition MailcowEnabled (c : Settings) : bool :=
  negb (String.eqb (MailcowURL c) EmptyString)
  && negb (String.eqb (MailcowAPIKey c) EmptyString)
  && negb (String.eqb (MailcowDomain c) EmptyString).

(** [mailcow.Config] *)
Record Config := { BaseURL : string; APIKey : string; Domain : string }.

(** [mailcow.Client]; the HTTP client is not part of the model. *)
Record Client := { baseURL : string; apiKey : string; domain : string }.

(** [NewClient] *)
Definition NewClient (cfg : Config) : Client :=
  {| baseURL := BaseURL cfg; apiKey := APIKey cfg; domain := Domain cfg |}.

(** [Client.IsConfigured] *)
Definition IsConfigured (c : Client) : bool :=
  negb (String.eqb (baseURL c) EmptyString)
  && negb (String.eqb (apiKey c) EmptyString)
  && negb (String.eqb (domain c) EmptyString).

(** [Client.GetDomain] *)
Definition GetDomain (c : Client) : string := domain c.

(** The Mailcow client as [main] makes it: nil unless the integration
    is enabled. *)
Definition clientOf (cfg : Settings) : option Client :=
  if MailcowEnabled cfg
  then Some (NewClient {| BaseURL := MailcowURL cfg;
                          APIKey := MailcowAPIKey cfg;
                          Domain := MailcowDomain cfg |})
  else None.

(** [Client.GetIMAPServer]; [None] is the run-time panic of the index
    expression [host[len(host)-1]] on an empty [host]. *)
Definition GetIMAPServer (c : Client) : option string :=
  let host := baseURL c in
  let n := String.length host in
  let host :=
    if (8 <? n)%nat && String.eqb (substring 0 8 host) "https://"
    then substring 8 (n - 8) host
    else if (7 <? n)%nat && String.eqb (substring 0 7 host) "http://"
    then substring 7 (n - 7) host
    else host in
  let n := String.length host in
  match n with
  | O => None
  | S k =>
      let host :=
        match String.get k host with
        | Some "/"%char => substring 0 k host
        | _ => host
        end in
      Some (host +:+ ":993")
  end.

End mailcow.

(** ** internal/database: the two tables and the statements run on them

    The database is SQLite.  It is modelled by the rows of its two
    tables, in the order of insertion, and the two counters that
    [AUTOINCREMENT] keeps; a statement does what SQLite does with the
    schema of the repository: [UNIQUE(account_id, uid)] on the messages
    and [UNIQUE(chat_id, email)], [UNIQUE(chat_id, topic_id)] on the
    accounts, and the foreign key of a message to its account, with
    [ON DELETE CASCADE].  Any statement can also fail for a reason of
    the storage: [fault] gives, for the statements in the order in which
    they are run, the error of the driver or none. *)
Module database.

Local Open Scope string_scope.
Local Open Scope Z_scope.

(** The errors the package returns: its two sentinels, and an error of
    the driver wrapped with a prefix. *)
Inductive Error :=
| ErrNotFound
| ErrAlreadyExists
| Wrapped (msg : string).

(** [err.Error()] *)
Definition Error_string (e : Error) : string :=
  match e with
  | ErrNotFound => "record not found"
  | ErrAlreadyExists => "record already exists"
  | Wrapped msg => msg
  end.

Record DB := {
  email_accounts : list models.EmailAccount;
  email_messages : list message.EmailMessage;
  accounts_seq : Z;
  messages_seq : Z;
  fault : nat -> option string;
  statements : nat;
  now : Z
}.

(** The next statement is run: its fault, and the database with the
    statement counted. *)
Definition statement (db : DB) : option string * DB :=
  (fault db (statements db),
   {| email_accounts := email_accounts db;
      email_messages := email_messages db;
      accounts_seq := accounts_seq db; messages_seq := messages_seq db;
      fault := fault db; statements := S (statements db);
      now := now db |}).

Definition with_messages
    (f : list message.EmailMessage -> list message.EmailMessage)
    (db : DB) : DB :=
  {| email_accounts := email_accounts db;
     email_messages := f (email_messages db);
     accounts_seq := accounts_seq db; messages_seq := messages_seq db;
     fault := fault db; statements := statements db; now := now db |}.

Definition with_accounts
    (f : list models.EmailAccount -> list models.EmailAccount)
    (db : DB) : DB :=
  {| email_accounts := f (email_accounts db);
     email_messages := email_messages db;
     accounts_seq := accounts_seq db; messages_seq := messages_seq db;
     fault := fault db; statements := statements db; now := now db |}.

(** [msg.ID = id; msg.CreatedAt = now] *)
Definition inserted (msg : message.EmailMessage) (id created : Z)
    : message.EmailMessage :=
  {| message.ID := id; message.AccountID := message.AccountID msg;
     message.UID := message.UID msg;
     message.MessageID := message.MessageID msg;
     message.FromAddr := message.FromAddr msg;
     message.FromName := message.FromName msg;
     message.Subject := message.Subject msg;
     message.BodyText := message.BodyText msg;
     message.BodyHTML := message.BodyHTML msg;
     message.ReceivedAt := message.ReceivedAt msg;
     message.IsRead := message.IsRead msg;
     message.IsDeleted := message.IsDeleted msg;
     message.TelegramMsgID := message.TelegramMsgID msg;
     message.DetectedCodes := message.DetectedCodes msg;
     message.CreatedAt := created |}.

(** The row of a message of an account with an identifier, if there is
    one: the conflict of [UNIQUE(account_id, uid)]. *)
Definition same_message (accountID uid : Z) (row : message.EmailMessage)
    : bool :=
  (message.AccountID row =? accountID) && (message.UID row =? uid).

(** [CreateMessage]: [INSERT OR IGNORE]; a row that is ignored leaves
    [RowsAffected] at zero.  The result is the error, or [msg] with its
    [ID] and [CreatedAt] set. *)
Definition CreateMessage (msg : message.EmailMessage) (db : DB)
    : (Error + message.EmailMessage) * DB :=
  let (failure, db) := statement db in
  match failure with
  | Some e => (inl (Wrapped ("failed to create message: " +:+ e)), db)
  | None =>
      if existsb (same_message (message.AccountID msg) (message.UID msg))
           (email_messages db)
      then (inl ErrAlreadyExists, db)
      else if negb (existsb (fun a => models.ID a =? message.AccountID msg)
                      (email_accounts db))
      then (inl (Wrapped ("failed to create message: "
                          +:+ "FOREIGN KEY constraint failed")), db)
      else
        let id := messages_seq db + 1 in
        let row := inserted msg id (now db) in
        (inr row,
         {| email_accounts := email_accounts db;
            email_messages := email_messages db ++ [row];
            accounts_seq := accounts_seq db; messages_seq := id;
            fault := fault db; statements := statements db;
            now := now db |})
  end.

(** [GetAccountByID] *)
Definition GetAccountByID (id : Z) (db : DB)
    : (Error + models.EmailAccount) * DB :=
  let (failure, db) := statement db in
  match failure with
  | Some e => (inl (Wrapped ("failed to get account: " +:+ e)), db)
  | None =>
      match List.find (fun a => models.ID a =? id) (email_accounts db) with
      | Some account => (inr account, db)
      | None => (inl ErrNotFound, db)
      end
  end.

(** [GetMessageByID] *)
Definition GetMessageByID (id : Z) (db : DB)
    : (Error + message.EmailMessage) * DB :=
  let (failure, db) := statement db in
  match failure with
  | Some e => (inl (Wrapped ("failed to get message: " +:+ e)), db)
  | None =>
      match List.find (fun m => message.ID m =? id) (email_messages db) with
      | Some msg => (inr msg, db)
      | None => (inl ErrNotFound, db)
      end
  end.

Definition set_TelegramMsgID (tgMsgID : Z) (m : message.EmailMessage)
    : message.EmailMessage :=
  {| message.ID := message.ID m; message.AccountID := message.AccountID m;
     message.UID := message.UID m; message.MessageID := message.MessageID m;
     message.FromAddr := message.FromAddr m;
     message.FromName := message.FromName m;
     message.Subject := message.Subject m;
     message.BodyText := message.BodyText m;
     message.BodyHTML := message.BodyHTML m;
     message.ReceivedAt := message.ReceivedAt m;
     message.IsRead := message.IsRead m;
     message.IsDeleted := message.IsDeleted m;
     message.TelegramMsgID := tgMsgID;
     message.DetectedCodes := message.DetectedCodes m;
     message.CreatedAt := message.CreatedAt m |}.

(** [UpdateMessageTelegramMsgID]: an [UPDATE] that matches no row is
    not an error. *)
Definition UpdateMessageTelegramMsgID (id tgMsgID : Z) (db : DB)
    : option Error * DB :=
  let (failure, db) := statement db in
  match failure with
  | Some e => (Some (Wrapped ("failed to update telegram msg id: " +:+ e)), db)
  | None =>
      (None,
       with_messages
         (map (fun m => if message.ID m =? id
                        then set_TelegramMsgID tgMsgID m else m)) db)
  end.

Definition set_LastUID (uid updated : Z) (a : models.EmailAccount)
    : models.EmailAccount :=
  {| models.ID := models.ID a; models.Email := models.Email a;
     models.Password := models.Password a;
     models.IMAPServer := models.IMAPServer a;
     models.ChatID := models.ChatID a; models.TopicID := models.TopicID a;
     models.IsActive := models.IsActive a; models.LastUID := uid;
     models.CreatedAt := models.CreatedAt a; models.UpdatedAt := updated;
     models.CreatedBy := models.CreatedBy a |}.

(** [UpdateAccountLastUID] *)
Definition UpdateAccountLastUID (id uid : Z) (db : DB)
    : option Error * DB :=
  let (failure, db) := statement db in
  match failure with
  | Some e => (Some (Wrapped ("failed to update last uid: " +:+ e)), db)
  | None =>
      (None,
       with_accounts
         (map (fun a => if models.ID a =? id
                        then set_LastUID uid (now db) a else a)) db)
  end.

(** [DeleteAccount]: the messages of the account go with it. *)
Definition DeleteAccount (id : Z) (db : DB) : option Error * DB :=
  let (failure, db) := statement db in
  match failure with
  | Some e => (Some (Wrapped ("failed to delete account: " +:+ e)), db)
  | None =>
      (None,
       with_messages
         (List.filter (fun m => negb (message.AccountID m =? id)))
         (with_accounts
            (List.filter (fun a => negb (models.ID a =? id))) db))
  end.

End database.

(** ** internal/telegram: the handler of a new message

    The bot is modelled by what [onNewEmail] touches: the database, the
    formatter, and the Telegram interface as the requests made so far
    with, for each request in order, the answer it gets: the identifier
    of the message created or the error.  The logger is left out: it
    changes nothing the handler reads. *)
Module telegram.

Local Open Scope string_scope.
Local Open Scope Z_scope.

(** [bot.SendMessageParams], the fields the code sets. *)
Record SendMessageParams := {
  ChatID : Z;
  MessageThreadID : Z;
  Text : string;
  ParseMode : string;
  ReplyMarkup : option (list (list keyboard.InlineKeyboardButton))
}.

(** [models.ParseModeHTML] of the Telegram library. *)
Definition ParseModeHTML : string := "HTML".

Record Bot := {
  db : database.DB;
  formatter_ : formatter.TelegramFormatter;
  reply : nat -> Z + string;
  requests : list SendMessageParams
}.

Definition with_db (d : database.DB) (b : Bot) : Bot :=
  {| db := d; formatter_ := formatter_ b; reply := reply b;
     requests := requests b |}.

(** [b.bot.SendMessage(ctx, params)] *)
Definition SendMessage (params : SendMessageParams) (b : Bot)
    : (Z + string) * Bot :=
  (reply b (length (requests b)),
   {| db := db b; formatter_ := formatter_ b; reply := reply b;
      requests := requests b ++ [params] |}).

(** [sendMessageWithKeyboard] *)
Definition sendMessageWithKeyboard (chatID topicID : Z) (text : string)
    (kb : list (list keyboard.InlineKeyboardButton)) (b : Bot)
    : (Z + string) * Bot :=
  let params :=
    {| ChatID := chatID; MessageThreadID := 0; Text := text;
       ParseMode := ParseModeHTML; ReplyMarkup := Some kb |} in
  let params :=
    if negb (topicID =? 0)
    then {| ChatID := ChatID params; MessageThreadID := topicID;
            Text := Text params; ParseMode := ParseMode params;
            ReplyMarkup := ReplyMarkup params |}
    else params in
  SendMessage params b.

(** How an invocation of a handler ends: it returns, or the goroutine
    panics on a nil pointer. *)
Inductive Outcome :=
| Panic
| Returned (b : Bot).

Section Handlers.

(** [t.Format("02.01.2006 15:04")], [json.Marshal] on the data of a
    button and on the codes, [HTMLParser.Parse] and
    [CodeDetector.DetectCodes]. *)
Variable time_Format : Z -> string.
Variable json_Marshal : callback.CallbackData -> string.
Variable json_codes : list message.DetectedCode -> string.
Variable Parse : string -> string * Go.error.
Variable DetectCodes : string -> list message.DetectedCode.

(** The text that goes to the formatter and to the code detector: the
    text of the HTML part when there is one and the parser accepts it,
    the text part otherwise. *)
Definition bodyOf (rawEmail : RawEmail) : string :=
  if String.eqb (BodyHTML rawEmail) EmptyString then BodyText rawEmail
  else match Parse (BodyHTML rawEmail) with
       | (_, Some _) => BodyText rawEmail
       | (parsed, None) => parsed
       end.

(** [onNewEmail] *)
Definition onNewEmail (accountID : Z) (rawEmail : RawEmail) (b : Bot)
    : Outcome :=
  match From rawEmail with
  | None => Panic
  | Some from =>
      let (found, d) := database.GetAccountByID accountID (db b) in
      let b := with_db d b in
      match found with
      | inl _ => Returned b
      | inr account =>
          let bodyText := BodyText rawEmail in
          let bodyText :=
            if negb (String.eqb (BodyHTML rawEmail) EmptyString)
            then match Parse (BodyHTML rawEmail) with
                 | (_, Some _) => bodyText
                 | (parsed, None) => parsed
                 end
            else bodyText in
          let codes := DetectCodes bodyText in
          let codesJSON := json_codes codes in
          let emailMsg :=
            {| message.ID := 0; message.AccountID := accountID;
               message.UID := UID rawEmail;
               message.MessageID := MessageID rawEmail;
               message.FromAddr := Address_ from;
               message.FromName := Name from;
               message.Subject := Subject rawEmail;
               message.BodyText := bodyText;
               message.BodyHTML := BodyHTML rawEmail;
               message.ReceivedAt := Date rawEmail;
               message.IsRead := false; message.IsDeleted := false;
               message.TelegramMsgID := 0;
               message.DetectedCodes := codesJSON;
               message.CreatedAt := 0 |} in
          let (created, d) := database.CreateMessage emailMsg (db b) in
          let b := with_db d b in
          match created with
          | inl _ => Returned b
          | inr emailMsg =>
              let text :=
                formatter.FormatEmail time_Format (formatter_ b) emailMsg
                  codes in
              let kb :=
                keyboard.BuildEmailKeyboard json_Marshal
                  (message.ID emailMsg) codes false in
              let (answer, b) :=
                sendMessageWithKeyboard (models.ChatID account)
                  (models.TopicID account) text kb b in
              match answer with
              | inr _ => Returned b
              | inl tgMsgID =>
                  let (_, d) :=
                    database.UpdateMessageTelegramMsgID
                      (message.ID emailMsg) tgMsgID (db b) in
                  let b := with_db d b in
                  let (_, d) :=
                    database.UpdateAccountLastUID accountID (UID rawEmail)
                      (db b) in
                  Returned (with_db d b)
              end
          end
      end
  end.

(** The handler invoked for one message after the other. *)
Fixpoint handle (calls : list (Z * RawEmail)) (b : Bot) : Outcome :=
  match calls with
  | [] => Returned b
  | (accountID, rawEmail) :: rest =>
      match onNewEmail accountID rawEmail b with
      | Panic => Panic
      | Returned b => handle rest b
      end
  end.

(** The invocations of a sequence that make a request to Telegram, by
    account and identifier of the message. *)
Fixpoint requested (calls : list (Z * RawEmail)) (b : Bot)
    : list (Z * Z) :=
  match calls with
  | [] => []
  | (accountID, rawEmail) :: rest =>
      match onNewEmail accountID rawEmail b with
      | Panic => []
      | Returned b' =>
          (if (length (requests b) <? length (requests b'))%nat
           then [(accountID, UID rawEmail)] else [])
          ++ requested rest b'
      end
  end.

End Handlers.

End telegram.

(** A message of the account with the identifier is recorded. *)
Definition recorded (d : database.DB) (accountID uid : Z) : bool :=
  existsb (database.same_message accountID uid) (database.email_messages d).

(** ** Sample data for the handler *)

(** A bot with the account of Alice and no message, a storage without
    faults, and a parser, a detector and marshallers that do nothing. *)
Definition sampleParse (html : string) : string * Go.error := (html, None).

Definition sampleDetect (text : string) : list message.DetectedCode := [].

Definition sampleJSON (codes : list message.DetectedCode) : string :=
  "[]"%string.

Definition sampleDB : database.DB :=
  {| database.email_accounts := [alice]; database.email_messages := [];
     database.accounts_seq := 1; database.messages_seq := 0;
     database.fault := fun _ => None; database.statements := 0;
     database.now := 1700000000 |}.

Definition sampleBot (reply : nat -> Z + string) : telegram.Bot :=
  {| telegram.db := sampleDB;
     telegram.formatter_ := formatter.NewTelegramFormatter;
     telegram.reply := reply; telegram.requests := [] |}.

Definition sampleRaw : RawEmail := fst (parseMessage (wellFormed 5)).

Definition refused (k : nat) : Z + string := inr "Bad Request"%string.

Definition accepted (k : nat) : Z + string := inl 900.

(** The bot after the handler has run on the sample message and Telegram
    has refused the request. *)
Definition afterRefusal : telegram.Bot :=
  match telegram.onNewEmail sampleTime sampleMarshal sampleJSON sampleParse
          sampleDetect 1 sampleRaw (sampleBot refused) with
  | telegram.Returned b => b
  | telegram.Panic => sampleBot refused
  end.

(** ** internal/mailcow: the password of a new mailbox *)
Module password.

Local Open Scope string_scope.
Local Open Scope Z_scope.

Definition charset : string :=
  "abcdefghijklmnopqrstuvwxyzABCDEFGHIJKLMNOPQRSTUVWXYZ0123456789!@#$%^&*".

(** How the function ends: with its two results, or in a panic (a
    negative length for [make], an index outside [charset]). *)
Inductive Result :=
| Panic
| Return (password : string) (err : Go.error).

Section Random.

(** [rand.Int(rand.Reader, max)]: the number drawn or the error, by the
    number of draws made before. *)
Variable rand_Int : nat -> Z -> Z + string.

(** The loop [for i := range password], from index [i] on with [n]
    bytes left to fill: the bytes written, or the error of a draw. *)
Fixpoint fill (i n : nat) : option (list ascii + string) :=
  match n with
  | O => Some (inl [])
  | S n' =>
      match rand_Int i (Z.of_nat (String.length charset)) with
      | inr err => Some (inr err)
      | inl num =>
          match (if num <? 0 then None
                 else String.get (Z.to_nat num) charset) with
          | None => None
          | Some ch =>
              match fill (S i) n' with
              | None => None
              | Some (inr err) => Some (inr err)
              | Some (inl rest) => Some (inl (ch :: rest))
              end
          end
      end
  end.

(** [GenerateSecurePassword] *)
Definition GenerateSecurePassword (length : Z) : Result :=
  if length <? 0 then Panic
  else match fill 0 (Z.to_nat length) with
       | None => Panic
       | Some (inr err) => Return EmptyString (Some err)
       | Some (inl bytes) => Return (string_of_list_ascii bytes) None
       end.

End Random.

End password.

(** The draws are in the range asked for, as [rand.Int] promises. *)
Definition in_range (rand_Int : nat -> Z -> Z + string) : Prop :=
  forall k max n, 0 < max -> rand_Int k max = inl n -> 0 <= n < max.

(** The first draw that fails among those from [i] on, [n] at most. *)
Fixpoint first_error (rand_Int : nat -> Z -> Z + string) (i n : nat)
    : option string :=
  match n with
  | O => None
  | S n' =>
      match rand_Int i 70 with
      | inr err => Some err
      | inl _ => first_error rand_Int (S i) n'
      end
  end.

(** Draws that count up from 0. *)
Definition counting (k : nat) (max : Z) : Z + string :=
  inl (Z.of_nat k mod max).

(** * Properties *)

(** ** The string functions on examples *)

Example Split_one_separator :
  Go.Split "user@gmail.com" "@" = ["user"; "gmail.com"]%string.
Proof. reflexivity. Qed.

Example Split_no_separator : Go.Split "user" "@" = ["user"%string].
Proof. reflexivity. Qed.

Example Split_two_separators :
  Go.Split "a@b@c" "@" = ["a"; "b"; "c"]%string.
Proof. reflexivity. Qed.

Example SplitN2_first_only :
  Go.SplitN2 "mx.mail.example.org" "." = ["mx"; "mail.example.org"]%string.
Proof. reflexivity. Qed.

Example TrimSuffix_present :
  Go.TrimSuffix "imap.example.org:993" ":993" = "imap.example.org"%string.
Proof. reflexivity. Qed.

Example TrimSuffix_absent :
  Go.TrimSuffix "imap.example.org" ":993" = "imap.example.org"%string.
Proof. reflexivity. Qed.

Example ToLowerASCII_mixed :
  Go.ToLowerASCII "GMail.COM" = "gmail.com"%string.
Proof. reflexivity. Qed.

Example uint32_wraps : Go.uint32 (Go.MaxUint32 + 1) = 0.
Proof. reflexivity. Qed.

(** The number of pieces is one more than the number of separators. *)
Lemma Split_length s sep :
  length (Go.Split s sep)
  = S (length (List.filter (Ascii.eqb sep) (list_ascii_of_string s))).
Proof.
  induction s as [|c rest IH]; simpl; [reflexivity|].
  rewrite (Ascii.eqb_sym sep c).
  destruct (Ascii.eqb c sep); simpl; [rewrite IH; reflexivity|].
  destruct (Go.Split rest sep) as [|piece pieces]; simpl in *;
    [discriminate IH|exact IH].
Qed.

(** ** Running the monad symbolically *)

Ltac unfold_monad :=
  unfold locked, mu_Lock, mu_RLock, go, time_Sleep, getClient, setClient,
    client_Select, client_UidFetch, client_UidStore, client_Expunge,
    client_Login, client_Logout, client_Terminate, client_New, conn_Close,
    tls_DialWithDialer, close_transport, call_onError, call_onMessage,
    context_WithCancel, cancel, NewClient, lookup_wrapper,
    bind, emit, modify, gets, ret in *.

Ltac tidy_trace :=
  unfold with_trace, with_heap, with_conns, with_ctxs, with_spawned,
    with_clock, with_manager; simpl; rewrite <- ?app_assoc; simpl.

Lemma events_of_appended {A} (op : M A) (s s' : Sys) (r : A) evs :
  op s = (r, s') -> trace s' = trace s ++ evs -> events_of op s = evs.
Proof.
  intros Hrun Htr. unfold events_of. rewrite Hrun. simpl. rewrite Htr.
  apply drop_app_length.
Qed.

Lemma delivered_app tr1 tr2 :
  delivered (tr1 ++ tr2) = delivered tr1 ++ delivered tr2.
Proof. unfold delivered. apply omap_app. Qed.

Lemma delivered_OnMessage accountID emails :
  delivered (map (OnMessage accountID) emails)
  = map (fun e => (accountID, e)) emails.
Proof.
  induction emails as [|e rest IH]; simpl; [reflexivity|].
  unfold delivered in *. simpl. rewrite IH. reflexivity.
Qed.

(** ** The client's operations, run *)

Lemma SelectINBOX_run c s :
  SelectINBOX c s =
    match usable (deref s c) with
    | None =>
        (Some "not connected"%string,
         with_trace (fun t => t ++ [ClientLock c; ClientUnlock c]) s)
    | Some conn =>
        (match select_inbox (net s) (Server (config (deref s c)))
                 (Email (config (deref s c))) with
         | Some err => Go.Errorf "failed to select INBOX: " err
         | None => None
         end,
         with_trace (fun t => t ++ [ClientLock c; NetSelect conn;
                                    ClientUnlock c]) s)
    end.
Proof.
  unfold SelectINBOX; unfold_monad; simpl.
  change (deref (with_trace _ s) c) with (deref s c).
  destruct (usable (deref s c)) as [conn|]; simpl.
  - destruct (select_inbox _ _ _); simpl; tidy_trace; reflexivity.
  - tidy_trace; reflexivity.
Qed.

Lemma FetchNewMessages_run c sinceUID s :
  FetchNewMessages c sinceUID s =
    match usable (deref s c) with
    | None =>
        (([], Some "not connected"%string),
         with_trace (fun t => t ++ [ClientLock c; ClientUnlock c]) s)
    | Some conn =>
        let set := imap.AddRange [] (Go.uint32 (sinceUID + 1)) 0 in
        let answer := uid_fetch (net s) (Server (config (deref s c)))
                        (Email (config (deref s c))) set in
        ((collect parseMessage (fst answer),
          match snd answer with
          | Some err => Go.Errorf "failed to fetch: " err
          | None => None
          end),
         with_trace (fun t => t ++ [ClientLock c; NetUidFetch conn set;
                                    ClientUnlock c]) s)
    end.
Proof.
  unfold FetchNewMessages; unfold_monad; simpl.
  change (deref (with_trace _ s) c) with (deref s c).
  destruct (usable (deref s c)) as [conn|]; simpl.
  - destruct (uid_fetch _ _ _ _) as [messages [err|]]; simpl;
      tidy_trace; reflexivity.
  - tidy_trace; reflexivity.
Qed.

Lemma process_run accountID messages : forall lastUID s,
  process accountID messages lastUID s =
    (fold_left advance messages lastUID,
     with_trace (fun t => t ++
       (if onMessage (manager s) then map (OnMessage accountID) messages
        else [])) s).
Proof.
  induction messages as [|msg rest IH]; intros lastUID s; simpl.
  - unfold ret. destruct s; tidy_trace.
    destruct (onMessage _); rewrite app_nil_r; reflexivity.
  - unfold_monad; simpl.
    destruct (onMessage (manager s)) eqn:Hm; simpl; rewrite IH; simpl;
      rewrite Hm; f_equal; destruct s; tidy_trace; reflexivity.
Qed.

Lemma advance_ge messages : forall lastUID,
  lastUID <= fold_left advance messages lastUID.
Proof.
  induction messages as [|msg rest IH]; intros lastUID; simpl; [lia|].
  specialize (IH (advance lastUID msg)). unfold advance in *.
  destruct (lastUID <? UID msg) eqn:Hlt; [apply Z.ltb_lt in Hlt|]; lia.
Qed.

(** ** One fetch cycle *)


Lemma fetchNewMessages_run wrapper lastUID s :
  exists evs,
    fetchNewMessages wrapper lastUID s
    = (fold_left advance (batch wrapper lastUID s) lastUID,
       with_trace (fun t => t ++ evs) s)
    /\ delivered evs
       = if onMessage (manager s)
         then map (fun e => (models.ID (account wrapper), e))
                (batch wrapper lastUID s)
         else [].
Proof.
  unfold fetchNewMessages, batch.
  unfold bind at 1. rewrite SelectINBOX_run.
  destruct (usable (deref s (wrapper_client wrapper))) as [conn|] eqn:Hu.
  - destruct (select_inbox _ _ _) as [err|] eqn:Hsel.
    + unfold_monad; simpl. destruct (onError (manager s)); simpl;
        eexists; (split; [tidy_trace; reflexivity|]);
        destruct (onMessage _); reflexivity.
    + unfold bind at 1. rewrite FetchNewMessages_run.
      change (deref (with_trace _ s) ?c) with (deref s c).
      rewrite Hu. cbv zeta.
      change (net (with_trace _ s)) with (net s).
      destruct (uid_fetch _ _ _ _) as [messages [err|]]; simpl.
      * unfold_monad; simpl. destruct (onError (manager s)); simpl;
          eexists; (split; [tidy_trace; reflexivity|]);
          destruct (onMessage _); reflexivity.
      * rewrite process_run. simpl.
        eexists; split; [tidy_trace; reflexivity|].
        destruct (onMessage (manager s)); [|reflexivity].
        change (delivered (?a :: ?b :: ?c :: ?d :: ?e :: ?f :: ?l))
          with (delivered l).
        apply delivered_OnMessage.
  - unfold_monad; simpl. destruct (onError (manager s)); simpl;
      eexists; (split; [tidy_trace; reflexivity|]);
      destruct (onMessage _); reflexivity.
Qed.

Lemma fetchNewMessages_result wrapper lastUID s :
  fst (fetchNewMessages wrapper lastUID s)
  = fold_left advance (batch wrapper lastUID s) lastUID.
Proof.
  destruct (fetchNewMessages_run wrapper lastUID s) as (evs & Hrun & _).
  rewrite Hrun. reflexivity.
Qed.

Lemma fetchNewMessages_delivered wrapper lastUID s :
  delivered (events_of (fetchNewMessages wrapper lastUID) s)
  = if onMessage (manager s)
    then map (fun e => (models.ID (account wrapper), e))
           (batch wrapper lastUID s)
    else [].
Proof.
  destruct (fetchNewMessages_run wrapper lastUID s) as (evs & Hrun & Hd).
  rewrite (events_of_appended _ _ _ _ evs Hrun); [exact Hd|reflexivity].
Qed.

Lemma collect_parseMessage messages :
  collect parseMessage messages = map (fun m => fst (parseMessage m)) messages.
Proof.
  induction messages as [|m rest IH]; simpl; [reflexivity|].
  rewrite IH. reflexivity.
Qed.

Lemma parseMessage_UID msg : UID (fst (parseMessage msg)) = imap.Uid msg.
Proof.
  unfold parseMessage; simpl.
  assert (Hfold : forall parts e, UID (fold_left readPart parts e) = UID e).
  { induction parts as [|p ps IH]; intros e; simpl; [reflexivity|].
    rewrite IH. unfold readPart.
    destruct (imap.Header p); [|reflexivity].
    destruct (imap.Body p); [|reflexivity].
    destruct (Go.HasPrefix _ _); [reflexivity|].
    destruct (Go.HasPrefix _ _); reflexivity. }
  assert (Hfrom : forall parts e, From (fold_left readPart parts e) = From e).
  { induction parts as [|p ps IH]; intros e; simpl; [reflexivity|].
    rewrite IH. unfold readPart.
    destruct (imap.Header p); [|reflexivity].
    destruct (imap.Body p); [|reflexivity].
    destruct (Go.HasPrefix _ _); [reflexivity|].
    destruct (Go.HasPrefix _ _); reflexivity. }
  destruct (imap.Envelope_ msg) as [env|];
    destruct (imap.GetBody msg) as [[|parts ending]|]; simpl;
    rewrite ?Hfrom; simpl;
    try destruct (imap.From env); simpl; rewrite ?Hfold; reflexivity.
Qed.


Lemma advance_max lastUID msg : advance lastUID msg = Z.max lastUID (UID msg).
Proof.
  unfold advance. destruct (lastUID <? UID msg) eqn:Hlt.
  - apply Z.ltb_lt in Hlt. lia.
  - apply Z.ltb_ge in Hlt. lia.
Qed.

Lemma fold_advance_parsed messages : forall lastUID,
  fold_left advance (collect parseMessage messages) lastUID
  = fold_left Z.max (map imap.Uid messages) lastUID.
Proof.
  induction messages as [|m rest IH]; intros lastUID; simpl; [reflexivity|].
  rewrite IH, advance_max. simpl.
  change (UID _) with (UID (fst (parseMessage m))).
  rewrite parseMessage_UID. reflexivity.
Qed.

Lemma collect_skips parse messages :
  collect parse messages
  = map (fun m => fst (parse m))
      (List.filter (fun m => bool_decide (snd (parse m) = None)) messages).
Proof.
  induction messages as [|m rest IH]; simpl; [reflexivity|].
  destruct (parse m) as [email [err|]] eqn:Hp; simpl; rewrite IH;
    [reflexivity|]. rewrite Hp. reflexivity.
Qed.

Lemma batch_ok wrapper lastUID s conn messages :
  usable (deref s (wrapper_client wrapper)) = Some conn ->
  select_inbox (net s) (Server (config (deref s (wrapper_client wrapper))))
    (Email (config (deref s (wrapper_client wrapper)))) = None ->
  uid_fetch (net s) (Server (config (deref s (wrapper_client wrapper))))
    (Email (config (deref s (wrapper_client wrapper))))
    (imap.AddRange [] (Go.uint32 (lastUID + 1)) 0) = (messages, None) ->
  batch wrapper lastUID s = collect parseMessage messages.
Proof.
  intros Hu Hsel Hfetch. unfold batch. rewrite Hu, Hsel, Hfetch. reflexivity.
Qed.

(** C1 (as amended): the loop of [FetchNewMessages] drops exactly the
    messages whose parse returns an error and keeps the others in order;
    [parseMessage] returns no error, so in a cycle whose selection and
    fetch succeed every message the server sent is delivered, also one
    whose envelope and body could not be read, and the tracked identifier
    becomes the largest of its old value and all identifiers sent. *)
Theorem parse_failure_skips_only_that_message :
  (forall parse messages,
     collect parse messages
     = map (fun m => fst (parse m))
         (List.filter (fun m => bool_decide (snd (parse m) = None)) messages))
  /\ (forall msg, snd (parseMessage msg) = None)
  /\ (forall wrapper lastUID s conn messages,
        usable (deref s (wrapper_client wrapper)) = Some conn ->
        select_inbox (net s)
          (Server (config (deref s (wrapper_client wrapper))))
          (Email (config (deref s (wrapper_client wrapper)))) = None ->
        uid_fetch (net s)
          (Server (config (deref s (wrapper_client wrapper))))
          (Email (config (deref s (wrapper_client wrapper))))
          (imap.AddRange [] (Go.uint32 (lastUID + 1)) 0) = (messages, None) ->
        onMessage (manager s) = true ->
        map (fun d => UID (snd d))
          (delivered (events_of (fetchNewMessages wrapper lastUID) s))
        = map imap.Uid messages
        /\ fst (fetchNewMessages wrapper lastUID s)
           = fold_left Z.max (map imap.Uid messages) lastUID).
Proof.
  split; [exact collect_skips|]. split; [reflexivity|].
  intros wrapper lastUID s conn messages Hu Hsel Hfetch Hon.
  rewrite fetchNewMessages_delivered, fetchNewMessages_result, Hon.
  rewrite (batch_ok _ _ _ _ _ Hu Hsel Hfetch). split.
  - rewrite map_map. simpl. rewrite collect_parseMessage, map_map.
    apply map_ext. intros m. apply parseMessage_UID.
  - apply fold_advance_parsed.
Qed.

Lemma parse_failure_skips_only_that_message_witness :
  map (fun d => UID (snd d))
    (delivered (events_of (fetchNewMessages aliceWrapper 0)
                  (running batchOfFive)))
  = [1; 2; 3; 4; 5]
  /\ fst (fetchNewMessages aliceWrapper 0 (running batchOfFive)) = 5.
Proof.
  apply (proj2 (proj2 parse_failure_skips_only_that_message)
           aliceWrapper 0 (running batchOfFive) 0%nat batchOfFive);
    reflexivity.
Defined.

(** C1 (as stated) fails: of five messages fetched, the last one without
    envelope and with an unreadable body, five are delivered and the
    tracked identifier becomes 5, not four and 4. *)
Lemma malformed_message_is_delivered :
  let events := delivered (events_of (fetchNewMessages aliceWrapper 0)
                             (running batchOfFive)) in
  let tracked := fst (fetchNewMessages aliceWrapper 0 (running batchOfFive)) in
  length events = 5%nat /\ tracked = 5
  /\ ~ (length events = 4%nat /\ tracked = 4).
Proof.
  vm_compute. repeat split; intros [H _]; discriminate H.
Qed.

Lemma fetchNewMessages_ge wrapper lastUID s :
  lastUID <= fst (fetchNewMessages wrapper lastUID s).
Proof. rewrite fetchNewMessages_result. apply advance_ge. Qed.

Lemma fetchCycles_ge wrapper between : forall lastUID s,
  Forall (Z.le lastUID) (fetchCycles wrapper between lastUID s).
Proof.
  induction between as [|env rest IH]; intros lastUID s; simpl.
  - constructor; [lia|constructor].
  - pose proof (fetchNewMessages_ge wrapper lastUID (env s)) as Hge.
    destruct (fetchNewMessages wrapper lastUID (env s)) as [lastUID' s'].
    simpl in Hge. constructor; [lia|].
    eapply Forall_impl; [apply IH|]. simpl. intros; lia.
Qed.

Lemma returns_ret {A} (Q : A -> Prop) a : Q a -> returns Q (ret a).
Proof. intros H s. exact H. Qed.

Lemma returns_bind {A B} (P : A -> Prop) (Q : B -> Prop) (m : M A)
    (k : A -> M B) :
  returns P m -> (forall a, P a -> returns Q (k a)) -> returns Q (bind m k).
Proof.
  intros Hm Hk s. unfold bind. specialize (Hm s).
  destruct (m s) as [a s1]. apply Hk, Hm.
Qed.

Lemma returns_any {A} (op : M A) : returns (fun _ => True) op.
Proof. intros s. exact I. Qed.

(** A turn of the loop hands the captured variable on as it is or as
    [onNewMail] returns it. *)
Lemma StartIDLE_turn_captured c ctx onNewMail lastUID d :
  (forall k, returns (Z.le k) (onNewMail k)) ->
  returns (fun r => lastUID <= snd r)
    (StartIDLE_turn c ctx onNewMail lastUID d).
Proof.
  intros Hon. unfold StartIDLE_turn.
  eapply returns_bind; [apply returns_any|intros cancelled _].
  eapply returns_bind; [apply returns_any|intros cl _].
  destruct cancelled; [apply returns_ret; simpl; lia|].
  destruct (stopCh cl); [apply returns_ret; simpl; lia|].
  eapply returns_bind; [apply returns_any|intros _ _].
  eapply returns_bind; [apply returns_any|intros cl1 _].
  eapply returns_bind; [apply returns_any|intros _ _].
  destruct (usable cl1).
  - eapply returns_bind; [apply returns_any|intros _ _].
    eapply returns_bind; [apply returns_any|intros cl2 _].
    eapply returns_bind; [apply returns_any|intros _ _].
    destruct (client cl2); [|apply returns_ret; simpl; lia].
    destruct (awaitIdle _ _) as [wake elapsed].
    eapply returns_bind; [apply returns_any|intros _ _].
    eapply returns_bind; [apply returns_any|intros _ _].
    destruct wake as [| |[err|]]; try (apply returns_ret; simpl; lia).
    + eapply returns_bind; [apply returns_any|intros _ _].
      eapply returns_bind; [apply returns_any|intros _ _].
      apply returns_ret; simpl; lia.
    + eapply returns_bind; [apply Hon|intros k Hk].
      apply returns_ret. exact Hk.
  - eapply returns_bind; [apply returns_any|intros [e|] _].
    + eapply returns_bind; [apply returns_any|intros _ _].
      apply returns_ret; simpl; lia.
    + eapply returns_bind; [apply returns_any|intros [e|] _].
      * eapply returns_bind; [apply returns_any|intros _ _].
        apply returns_ret; simpl; lia.
      * apply returns_ret; simpl; lia.
Qed.

Lemma StartIDLE_captured c ctx onNewMail during :
  (forall k, returns (Z.le k) (onNewMail k)) ->
  forall lastUID,
    returns (fun r => lastUID <= snd r)
      (StartIDLE c ctx onNewMail lastUID during).
Proof.
  intros Hon. induction during as [|d rest IH]; intros lastUID; simpl.
  - apply returns_ret. simpl. lia.
  - eapply returns_bind; [apply StartIDLE_turn_captured, Hon|].
    intros [flow k] Hk. simpl in Hk.
    destruct flow; [|apply returns_ret; exact Hk..].
    intros s. specialize (IH k s). simpl in *. lia.
Qed.

Lemma runClient_tracked wrapper during s :
  models.LastUID (account wrapper) <= snd (fst (runClient wrapper during s)).
Proof.
  revert s.
  change (returns (fun r => models.LastUID (account wrapper) <= snd r)
            (runClient wrapper during)).
  unfold runClient.
  eapply returns_bind;
    [intros s; apply (fetchNewMessages_ge wrapper _ s)|intros k Hk].
  intros s.
  pose proof (StartIDLE_captured (wrapper_client wrapper) (ctx wrapper)
                (fetchNewMessages wrapper) during
                (fun k0 s0 => fetchNewMessages_ge wrapper k0 s0) k s) as H.
  simpl in *. lia.
Qed.

(** C5: one invocation of [fetchNewMessages] never lowers the tracked
    identifier; over any sequence of invocations, whatever happens in
    between, the values it takes are in non-decreasing order; and the
    value [runClient] holds after any number of turns of the loop is at
    least the one it started from. *)
Theorem tracked_identifier_never_decreases :
  (forall wrapper lastUID s,
     lastUID <= fst (fetchNewMessages wrapper lastUID s))
  /\ (forall wrapper between lastUID s,
        StronglySorted Z.le (fetchCycles wrapper between lastUID s))
  /\ (forall wrapper during s,
        models.LastUID (account wrapper)
        <= snd (fst (runClient wrapper during s))).
Proof.
  split; [exact fetchNewMessages_ge|]. split; [|exact runClient_tracked].
  intros wrapper between. induction between as [|env rest IH];
    intros lastUID s; simpl.
  - repeat constructor.
  - pose proof (fetchNewMessages_ge wrapper lastUID (env s)) as Hge.
    pose proof (fetchCycles_ge wrapper rest) as Hall.
    destruct (fetchNewMessages wrapper lastUID (env s)) as [lastUID' s'].
    simpl in Hge. constructor; [apply IH|].
    eapply Forall_impl; [apply Hall|]. simpl. intros; lia.
Qed.

(** ** Order of the fetched messages *)

Lemma StronglySorted_filter_Uid (keep : imap.Message -> bool) mb :
  StronglySorted Z.lt (map imap.Uid mb) ->
  StronglySorted Z.lt (map imap.Uid (List.filter keep mb)).
Proof.
  induction mb as [|m rest IH]; simpl; intros Hs; [constructor|].
  apply StronglySorted_inv in Hs as [Hrest Hall].
  destruct (keep m); simpl; [|auto].
  constructor; [auto|].
  rewrite List.Forall_forall in *. intros u Hu.
  apply Hall. apply in_map_iff in Hu as (x & <- & Hx).
  apply in_map. apply filter_In in Hx. tauto.
Qed.

Lemma UID_collect_parseMessage messages :
  map UID (collect parseMessage messages) = map imap.Uid messages.
Proof.
  rewrite collect_parseMessage, map_map. apply map_ext.
  intros m. apply parseMessage_UID.
Qed.

(** C6 (as amended): [FetchNewMessages] returns the parsed messages in
    the order in which the server sent them, and the message handler is
    invoked in that order; nothing is sorted.  When the server answers a
    fetch with the selected messages of a mailbox whose identifiers
    ascend, in mailbox order, that order is the ascending order of the
    identifiers. *)
Theorem fetched_in_ascending_order :
  (forall c lastUID s conn,
     usable (deref s c) = Some conn ->
     map UID (fst (fst (FetchNewMessages c lastUID s)))
     = map imap.Uid
         (fst (uid_fetch (net s) (Server (config (deref s c)))
                 (Email (config (deref s c)))
                 (imap.AddRange [] (Go.uint32 (lastUID + 1)) 0))))
  /\ (forall wrapper lastUID s mb,
        (forall set,
           fst (uid_fetch (net s)
                  (Server (config (deref s (wrapper_client wrapper))))
                  (Email (config (deref s (wrapper_client wrapper)))) set)
           = imap.UidFetch mb set) ->
        StronglySorted Z.lt (map imap.Uid mb) ->
        StronglySorted Z.lt
          (map UID
             (fst (fst (FetchNewMessages (wrapper_client wrapper) lastUID s))))
        /\ StronglySorted Z.lt
             (map (fun d => UID (snd d))
                (delivered
                   (events_of (fetchNewMessages wrapper lastUID) s))))
  /\ (forall wrapper lastUID s conn messages,
        usable (deref s (wrapper_client wrapper)) = Some conn ->
        select_inbox (net s)
          (Server (config (deref s (wrapper_client wrapper))))
          (Email (config (deref s (wrapper_client wrapper)))) = None ->
        uid_fetch (net s)
          (Server (config (deref s (wrapper_client wrapper))))
          (Email (config (deref s (wrapper_client wrapper))))
          (imap.AddRange [] (Go.uint32 (lastUID + 1)) 0) = (messages, None) ->
        onMessage (manager s) = true ->
        map (fun d => UID (snd d))
          (delivered (events_of (fetchNewMessages wrapper lastUID) s))
        = map imap.Uid messages).
Proof.
  split.
  { intros c lastUID s conn Hu. rewrite FetchNewMessages_run, Hu. simpl.
    apply UID_collect_parseMessage. }
  split.
  2:{ intros wrapper lastUID s conn messages Hu Hsel Hfetch Hon.
      rewrite fetchNewMessages_delivered, Hon.
      rewrite (batch_ok _ _ _ _ _ Hu Hsel Hfetch).
      rewrite map_map. simpl.
      change (map (fun x => UID x) ?l) with (map UID l).
      apply UID_collect_parseMessage. }
  intros wrapper lastUID s mb Hserver Hsorted. split.
  - rewrite FetchNewMessages_run.
    destruct (usable _) as [conn|]; simpl; [|constructor].
    rewrite Hserver, UID_collect_parseMessage.
    apply StronglySorted_filter_Uid, Hsorted.
  - rewrite fetchNewMessages_delivered.
    destruct (onMessage (manager s)); [|constructor].
    rewrite map_map. simpl. unfold batch.
    destruct (usable _) as [conn|]; [|constructor].
    destruct (select_inbox _ _ _); [constructor|].
    specialize (Hserver (imap.AddRange [] (Go.uint32 (lastUID + 1)) 0)).
    destruct (uid_fetch _ _ _ _) as [messages [err|]]; [constructor|].
    simpl in Hserver. subst messages.
    change (map (fun x => UID x) ?l) with (map UID l).
    rewrite UID_collect_parseMessage.
    apply StronglySorted_filter_Uid, Hsorted.
Qed.

Lemma fetched_in_ascending_order_witness :
  StronglySorted Z.lt
    (map UID (fst (fst (FetchNewMessages 0 2 (running batchOfFive)))))
  /\ StronglySorted Z.lt
       (map (fun d => UID (snd d))
          (delivered (events_of (fetchNewMessages aliceWrapper 2)
                        (running batchOfFive)))).
Proof.
  apply (proj1 (proj2 fetched_in_ascending_order) aliceWrapper 2
           (running batchOfFive) batchOfFive).
  - intros set. reflexivity.
  - simpl. repeat constructor; lia.
Defined.

(** C6 (as stated) fails: a server that answers the fetch with message 5
    before message 3 gets both back in that order, from
    [FetchNewMessages] and in the invocations of the handler, which is
    not the ascending order of the identifiers. *)
Lemma answer_out_of_order_is_kept :
  let s := running [wellFormed 5; wellFormed 3] in
  let returned := map UID (fst (fst (FetchNewMessages 0 2 s))) in
  let handled :=
    map (fun d => UID (snd d))
      (delivered (events_of (fetchNewMessages aliceWrapper 2) s)) in
  returned = [5; 3] /\ handled = [5; 3]
  /\ ~ StronglySorted Z.lt returned /\ ~ StronglySorted Z.lt handled.
Proof.
  vm_compute. split; [reflexivity|]. split; [reflexivity|].
  split; intros H; apply StronglySorted_inv in H as [_ H];
    apply Forall_inv in H; discriminate H.
Qed.

Lemma readPart_keeps_From parts : forall e,
  From (fold_left readPart parts e) = From e.
Proof.
  induction parts as [|p ps IH]; intros e; simpl; [reflexivity|].
  rewrite IH. unfold readPart.
  destruct (imap.Header p); [|reflexivity].
  destruct (imap.Body p); [|reflexivity].
  destruct (Go.HasPrefix _ _); [reflexivity|].
  destruct (Go.HasPrefix _ _); reflexivity.
Qed.

Lemma parseMessage_From msg :
  From (fst (parseMessage msg))
  = match imap.Envelope_ msg with
    | Some env =>
        match imap.From env with
        | from :: _ => Some {| Name := imap.PersonalName from;
                               Address_ := imap.Address_Address from |}
        | [] => Some emptyAddress
        end
    | None => Some emptyAddress
    end.
Proof.
  unfold parseMessage; simpl.
  destruct (imap.Envelope_ msg) as [env|];
    destruct (imap.GetBody msg) as [[|parts ending]|]; simpl;
    rewrite ?readPart_keeps_From; simpl;
    try destruct (imap.From env); simpl;
    rewrite ?readPart_keeps_From; reflexivity.
Qed.

(** C10 (as amended): [parseMessage] returns a nil error for every
    message, with the identifier of the message and a non-nil [From],
    the empty address when the envelope is missing or names no sender;
    [FetchNewMessages] therefore keeps every message it receives, and a
    fetch cycle whose selection and fetch succeed hands each of them to
    the message handler.  A cycle whose fetch ends with an error hands
    none of the messages received to the handler. *)
Theorem parseMessage_never_fails :
  (forall msg, snd (parseMessage msg) = None)
  /\ (forall msg, UID (fst (parseMessage msg)) = imap.Uid msg)
  /\ (forall msg, From (fst (parseMessage msg)) <> None)
  /\ (forall msg,
        (forall env, imap.Envelope_ msg = Some env -> imap.From env = []) ->
        From (fst (parseMessage msg)) = Some emptyAddress)
  /\ (forall messages,
        collect parseMessage messages
        = map (fun m => fst (parseMessage m)) messages)
  /\ (forall wrapper lastUID s conn messages,
        usable (deref s (wrapper_client wrapper)) = Some conn ->
        select_inbox (net s)
          (Server (config (deref s (wrapper_client wrapper))))
          (Email (config (deref s (wrapper_client wrapper)))) = None ->
        uid_fetch (net s)
          (Server (config (deref s (wrapper_client wrapper))))
          (Email (config (deref s (wrapper_client wrapper))))
          (imap.AddRange [] (Go.uint32 (lastUID + 1)) 0) = (messages, None) ->
        onMessage (manager s) = true ->
        delivered (events_of (fetchNewMessages wrapper lastUID) s)
        = map (fun m => (models.ID (account wrapper), fst (parseMessage m)))
            messages)
  /\ (forall wrapper lastUID s conn messages err,
        usable (deref s (wrapper_client wrapper)) = Some conn ->
        uid_fetch (net s)
          (Server (config (deref s (wrapper_client wrapper))))
          (Email (config (deref s (wrapper_client wrapper))))
          (imap.AddRange [] (Go.uint32 (lastUID + 1)) 0)
        = (messages, Some err) ->
        map UID (fst (fst (FetchNewMessages (wrapper_client wrapper)
                             lastUID s)))
        = map imap.Uid messages
        /\ delivered (events_of (fetchNewMessages wrapper lastUID) s) = []).
Proof.
  split; [reflexivity|]. split; [exact parseMessage_UID|].
  split; [|split; [|split; [exact collect_parseMessage|split]]].
  4:{ intros wrapper lastUID s conn messages err Hu Hfetch. split.
      - rewrite FetchNewMessages_run, Hu. cbn [fst snd]. rewrite Hfetch.
        apply UID_collect_parseMessage.
      - rewrite fetchNewMessages_delivered.
        destruct (onMessage (manager s)); [|reflexivity].
        unfold batch. rewrite Hu, Hfetch.
        destruct (select_inbox _ _ _); reflexivity. }
  - intros msg. rewrite parseMessage_From.
    destruct (imap.Envelope_ msg) as [env|]; [|discriminate].
    destruct (imap.From env); discriminate.
  - intros msg Hnone. rewrite parseMessage_From.
    destruct (imap.Envelope_ msg) as [env|]; [|reflexivity].
    rewrite (Hnone env eq_refl). reflexivity.
  - intros wrapper lastUID s conn messages Hu Hsel Hfetch Hon.
    rewrite fetchNewMessages_delivered, Hon.
    rewrite (batch_ok _ _ _ _ _ Hu Hsel Hfetch).
    rewrite collect_parseMessage, map_map. reflexivity.
Qed.

Lemma parseMessage_never_fails_witness :
  From (fst (parseMessage (malformed 5))) = Some emptyAddress
  /\ delivered (events_of (fetchNewMessages aliceWrapper 0)
                  (running batchOfFive))
     = map (fun m => (1, fst (parseMessage m))) batchOfFive.
Proof.
  destruct parseMessage_never_fails as (_ & _ & _ & Hempty & _ & Hall & _).
  split.
  - apply Hempty. intros env Henv. discriminate Henv.
  - apply (Hall aliceWrapper 0 (running batchOfFive) 0%nat batchOfFive);
      reflexivity.
Defined.

(** C10 (as stated) fails in its last clause: when the answer to the
    fetch breaks off after two messages, both are received and parsed,
    and neither is handed to the message handler. *)
Lemma interrupted_fetch_delivers_nothing :
  let s := with_net (interruptedServer [wellFormed 1; wellFormed 2])
             (running []) in
  let received := fst (FetchNewMessages 0 0 s) in
  map UID (fst received) = [1; 2]
  /\ snd received = Some "failed to fetch: EOF"%string
  /\ delivered (events_of (fetchNewMessages aliceWrapper 0) s) = []
  /\ onMessage (manager s) = true.
Proof.
  vm_compute. repeat split.
Qed.


(** C2: at [sinceUID = 4294967295] the addition wraps to zero, the range
    requested is ["*"], and the message with the largest identifier is
    returned again: the fetch that follows a fetch is not empty. *)
Theorem FetchNewMessages_wraps_at_MaxUint32 :
  imap.AddRange [] (Go.uint32 (Go.MaxUint32 + 1)) 0
    = [{| imap.Start := 0; imap.Stop := 0 |}]
  /\ fst (fetchTwice 7 (running [wellFormed 8; wellFormed 4294967295]))
     = ([8; 4294967295], [4294967295])
  /\ fst (fetchTwice 4294967295 (running [wellFormed 8; wellFormed 4294967295]))
     = ([4294967295], [4294967295]).
Proof. vm_compute. repeat split. Qed.

(** Below the boundary the range requested is [(K+1):*]. *)
Lemma requested_range K :
  0 <= K < Go.MaxUint32 ->
  imap.AddRange [] (Go.uint32 (K + 1)) 0
  = [{| imap.Start := K + 1; imap.Stop := 0 |}].
Proof.
  intros HK. unfold Go.MaxUint32 in HK. unfold imap.AddRange, Go.uint32.
  rewrite Z.mod_small by lia.
  replace (0 <? K + 1) with true by (symmetry; apply Z.ltb_lt; lia).
  replace (K + 1 =? 0) with false by (symmetry; apply Z.eqb_neq; lia).
  reflexivity.
Qed.

(** A range [(K+1):*] whose lower bound exceeds every identifier in use
    still selects the last message (RFC 3501, 6.4.8). *)
Example last_message_fetched_again :
  fst (fetchTwice 0 (running [wellFormed 1; wellFormed 2; wellFormed 3]))
  = ([1; 2; 3], [3]).
Proof. vm_compute. reflexivity. Qed.

(** ** The server resolver *)

(** C9: an address with one [@] whose lower-cased domain is a key of the
    static table resolves to the table's endpoint and no probe is made;
    in particular ["user@gmail.com"] resolves to ["imap.gmail.com:993"]. *)
Theorem known_provider_needs_no_probe :
  (forall ToLower network email localPart domain server,
     Go.Split email "@" = [localPart; domain] ->
     resolver.knownIMAPServers !! ToLower domain = Some server ->
     resolver.ResolveIMAPServer ToLower network email
     = ((server, None), []))
  /\ (forall ToLower network,
        ToLower "gmail.com"%string = "gmail.com"%string ->
        resolver.ResolveIMAPServer ToLower network "user@gmail.com"
        = (("imap.gmail.com:993"%string, None), []))
  /\ (forall network,
        resolver.ResolveIMAPServer Go.ToLowerASCII network "user@gmail.com"
        = (("imap.gmail.com:993"%string, None), [])).
Proof.
  assert (Hhit : forall ToLower network email localPart domain server,
     Go.Split email "@" = [localPart; domain] ->
     resolver.knownIMAPServers !! ToLower domain = Some server ->
     resolver.ResolveIMAPServer ToLower network email
     = ((server, None), [])).
  { intros ToLower network email localPart domain server Hsplit Hknown.
    unfold resolver.ResolveIMAPServer. rewrite Hsplit, Hknown. reflexivity. }
  split; [exact Hhit|]. split.
  - intros ToLower network Hlower.
    apply (Hhit ToLower network _ "user"%string "gmail.com"%string);
      [reflexivity|]. rewrite Hlower. vm_compute. reflexivity.
  - intros network.
    apply (Hhit Go.ToLowerASCII network _ "user"%string "gmail.com"%string);
      [reflexivity|]. vm_compute. reflexivity.
Qed.

Lemma known_provider_needs_no_probe_witness :
  resolver.ResolveIMAPServer Go.ToLowerASCII resolver.offline "Bob@Yandex.RU"
  = (("imap.yandex.ru:993"%string, None), [])
  /\ resolver.ResolveIMAPServer Go.ToLowerASCII resolver.offline
       "user@gmail.com"
     = (("imap.gmail.com:993"%string, None), []).
Proof.
  destruct known_provider_needs_no_probe as (Hhit & Hgmail & _). split.
  - apply (Hhit Go.ToLowerASCII resolver.offline _ "Bob"%string
             "Yandex.RU"%string); vm_compute; reflexivity.
  - apply Hgmail. vm_compute. reflexivity.
Defined.

(** An unknown domain is probed: conventional hosts, then the hosts
    derived from the mail exchanger. *)
Example unknown_domain_is_probed :
  resolver.ResolveIMAPServer Go.ToLowerASCII resolver.exampleOrg
    "user@unknown-domain.test"
  = (("imap.example.org:993"%string, None),
     [resolver.DialTCP "imap.unknown-domain.test:993";
      resolver.DialTCP "mail.unknown-domain.test:993";
      resolver.DialTCP "unknown-domain.test:993";
      resolver.LookupMX "unknown-domain.test";
      resolver.DialTCP "imap.example.org:993"]).
Proof. vm_compute. reflexivity. Qed.

(** ** What an operation appends to the trace *)

Lemma emits_ret {A} P (a : A) : emits P (ret a).
Proof. intros s. exists []. simpl. rewrite app_nil_r. auto. Qed.

Lemma emits_gets {A} P (f : Sys -> A) : emits P (gets f).
Proof. intros s. exists []. simpl. rewrite app_nil_r. auto. Qed.

Lemma emits_emit P e : P e -> emits P (emit e).
Proof. intros He s. exists [e]. simpl. auto. Qed.

Lemma emits_modify P f :
  (forall s, trace (f s) = trace s) -> emits P (modify f).
Proof. intros Hf s. exists []. simpl. rewrite app_nil_r, Hf. auto. Qed.

Lemma emits_bind {A B} P (m : M A) (k : A -> M B) :
  emits P m -> (forall a, emits P (k a)) -> emits P (bind m k).
Proof.
  intros Hm Hk s. unfold bind.
  destruct (Hm s) as (evs1 & Ht1 & Hp1).
  destruct (m s) as [a s1]. simpl in *.
  destruct (Hk a s1) as (evs2 & Ht2 & Hp2).
  exists (evs1 ++ evs2). rewrite Ht2, Ht1, app_assoc. split; [reflexivity|].
  apply Forall_app; auto.
Qed.

Lemma emits_weaken {A} (P Q : Event -> Prop) (op : M A) :
  (forall e, P e -> Q e) -> emits P op -> emits Q op.
Proof.
  intros HPQ H s. destruct (H s) as (evs & Ht & Hp).
  exists evs. split; [exact Ht|]. eapply Forall_impl; eauto.
Qed.

Lemma emits_events_of {A} P (op : M A) s :
  emits P op -> Forall P (events_of op s).
Proof.
  intros H. destruct (H s) as (evs & Ht & Hp).
  unfold events_of. rewrite Ht, drop_app_length. exact Hp.
Qed.

Ltac emits_step :=
  first
    [ apply emits_ret
    | apply emits_gets
    | apply emits_emit
    | apply emits_modify; intros; reflexivity
    | apply emits_bind; [|intros]
    | match goal with
      | |- emits _ (match ?x with _ => _ end) => destruct x
      end ].

Ltac emits_auto := repeat emits_step.

Lemma Connect_emits c : emits session_io (Connect c).
Proof.
  unfold Connect, locked, getClient, setClient, tls_DialWithDialer,
    client_New, conn_Close, client_Login, client_Logout, close_transport.
  emits_auto; exact I.
Qed.

Lemma SelectINBOX_emits c : emits session_io (SelectINBOX c).
Proof.
  unfold SelectINBOX, locked, getClient, client_Select.
  emits_auto; exact I.
Qed.

Lemma FetchNewMessages_emits c sinceUID :
  emits session_io (FetchNewMessages c sinceUID).
Proof.
  unfold FetchNewMessages, locked, getClient, client_UidFetch.
  emits_auto; exact I.
Qed.

Lemma Client_MarkAsRead_emits c uid :
  emits session_io (Client_MarkAsRead c uid).
Proof.
  unfold Client_MarkAsRead, locked, getClient, client_UidStore.
  emits_auto; exact I.
Qed.

Lemma Client_DeleteMessage_emits c uid :
  emits session_io (Client_DeleteMessage c uid).
Proof.
  unfold Client_DeleteMessage, locked, getClient, client_UidStore,
    client_Expunge.
  emits_auto; exact I.
Qed.

Lemma handleDisconnect_emits c : emits session_io (handleDisconnect c).
Proof.
  unfold handleDisconnect, locked, getClient, setClient, client_Logout,
    close_transport.
  emits_auto; exact I.
Qed.

Lemma session_io_loop_event e : session_io e -> loop_event e.
Proof. destruct e; simpl; tauto. Qed.

Lemma process_emits accountID messages : forall lastUID,
  emits loop_event (process accountID messages lastUID).
Proof.
  induction messages as [|m rest IH]; intros lastUID; simpl.
  - apply emits_ret.
  - unfold call_onMessage. emits_auto; try exact I. apply IH.
Qed.

Lemma fetchNewMessages_emits wrapper lastUID :
  emits loop_event (fetchNewMessages wrapper lastUID).
Proof.
  unfold fetchNewMessages, call_onError.
  apply emits_bind;
    [eapply emits_weaken; [apply session_io_loop_event|
                           apply SelectINBOX_emits]|intros [e|]].
  - emits_auto; exact I.
  - apply emits_bind;
      [eapply emits_weaken; [apply session_io_loop_event|
                             apply FetchNewMessages_emits]|
       intros [ms [e|]]].
    + emits_auto; exact I.
    + apply process_emits.
Qed.

(** ** The notification loop *)

Lemma awaitIdle_bound timeout during :
  snd (awaitIdle timeout during) <= 15 * Go.Second.
Proof.
  unfold awaitIdle, IdleWithFallback, pollFallback.
  destruct (ctxDone during) as [a|], (stopClosed during) as [b|]; simpl.
  - destruct (a <=? b) eqn:Hab; simpl.
    + destruct (a <=? 15 * Go.Second) eqn:Ha; simpl.
      * apply Z.leb_le in Ha. exact Ha.
      * destruct (b <=? 15 * Go.Second) eqn:Hb; simpl;
          [apply Z.leb_le in Hb|]; lia.
    + destruct (b <=? 15 * Go.Second) eqn:Hb; simpl;
        [apply Z.leb_le in Hb|]; lia.
  - destruct (a <=? 15 * Go.Second) eqn:Ha; simpl;
      [apply Z.leb_le in Ha|]; lia.
  - destruct (b <=? 15 * Go.Second) eqn:Hb; simpl;
      [apply Z.leb_le in Hb|]; lia.
  - lia.
Qed.

Lemma StartIDLE_turn_emits {St} c ctx (onNewMail : St -> M St) st d :
  (forall st, emits loop_event (onNewMail st)) ->
  emits loop_event (StartIDLE_turn c ctx onNewMail st d).
Proof.
  intros Hon. unfold StartIDLE_turn, getClient, time_Sleep.
  apply emits_bind; [apply emits_gets|intros cancelled].
  apply emits_bind; [apply emits_gets|intros cl].
  destruct cancelled; [apply emits_ret|].
  destruct (stopCh cl); [apply emits_ret|].
  apply emits_bind; [apply emits_emit; exact I|intros _].
  apply emits_bind; [apply emits_gets|intros cl1].
  apply emits_bind; [apply emits_emit; exact I|intros _].
  destruct (usable cl1).
  - apply emits_bind; [apply emits_emit; exact I|intros _].
    apply emits_bind; [apply emits_gets|intros cl2].
    apply emits_bind; [apply emits_emit; exact I|intros _].
    destruct (client cl2); [|apply emits_ret].
    pose proof (awaitIdle_bound (IdleTimeout (config cl2)) d) as Hb.
    destruct (awaitIdle _ _) as [wake elapsed]. simpl in Hb.
    apply emits_bind; [apply emits_emit; exact Hb|intros _].
    apply emits_bind; [apply emits_modify; reflexivity|intros _].
    destruct wake as [| |[err|]]; try apply emits_ret.
    + apply emits_bind;
        [eapply emits_weaken; [apply session_io_loop_event|
                               apply handleDisconnect_emits]|intros _].
      emits_auto; exact I.
    + apply emits_bind; [apply Hon|intros st']. apply emits_ret.
  - apply emits_bind;
      [eapply emits_weaken; [apply session_io_loop_event|
                             apply Connect_emits]|intros [e|]].
    + emits_auto; exact I.
    + apply emits_bind;
        [eapply emits_weaken; [apply session_io_loop_event|
                               apply SelectINBOX_emits]|intros [e|]].
      * emits_auto; exact I.
      * apply emits_ret.
Qed.

Lemma StartIDLE_emits {St} c ctx (onNewMail : St -> M St) during :
  (forall st, emits loop_event (onNewMail st)) ->
  forall st, emits loop_event (StartIDLE c ctx onNewMail st during).
Proof.
  intros Hon. induction during as [|d rest IH]; intros st; simpl.
  - apply emits_ret.
  - apply emits_bind; [apply StartIDLE_turn_emits, Hon|].
    intros [flow st']. destruct flow; [apply IH|apply emits_ret..].
Qed.

Lemma runClient_emits wrapper during :
  emits loop_event (runClient wrapper during).
Proof.
  unfold runClient.
  apply emits_bind; [apply fetchNewMessages_emits|intros lastUID].
  apply StartIDLE_emits. intros st. apply fetchNewMessages_emits.
Qed.

Lemma waits_bounded tr :
  Forall loop_event tr -> Forall (fun d => d <= 15 * Go.Second) (waits tr).
Proof.
  induction 1 as [|e tr He _ IH]; simpl; [constructor|].
  unfold waits in *. simpl. destruct e; simpl; auto.
Qed.

(** C7 (as amended): every wait for a notification is bounded, by
    fifteen seconds.  [IdleWithFallback] returns nil after at most
    fifteen seconds whatever ceiling it is given; the wait of the loop
    ends on cancellation, on stop or on that return, after at most
    fifteen seconds, and does not depend on the configured ceiling (left
    alone it lasts exactly fifteen seconds); every wait recorded in a
    run of [runClient] is within that bound. *)
Theorem notification_wait_is_bounded :
  (forall stop timeout,
     fst (IdleWithFallback stop timeout) = None
     /\ snd (IdleWithFallback stop timeout) <= 15 * Go.Second)
  /\ (forall timeout during,
        snd (awaitIdle timeout during) <= 15 * Go.Second)
  /\ (forall timeout1 timeout2 during,
        awaitIdle timeout1 during = awaitIdle timeout2 during)
  /\ (forall timeout,
        awaitIdle timeout undisturbed = (IdleDone None, 15 * Go.Second))
  /\ (forall wrapper during s,
        Forall (fun d => d <= 15 * Go.Second)
          (waits (events_of (runClient wrapper during) s))).
Proof.
  split; [|split; [|split; [|split]]].
  - intros stop timeout. unfold IdleWithFallback, pollFallback.
    destruct stop as [t|]; simpl; [|split; [reflexivity|lia]].
    destruct (t <? 15 * Go.Second) eqn:Ht; simpl; split; try reflexivity;
      try apply Z.ltb_lt in Ht; lia.
  - exact awaitIdle_bound.
  - reflexivity.
  - reflexivity.
  - intros wrapper during s. apply waits_bounded, emits_events_of,
      runClient_emits.
Qed.

(** C7 (as stated) fails: the configured ceiling does not end the wait.
    With a ceiling of one second a wait that nothing interrupts goes on
    after the ceiling has elapsed, for fifteen seconds; with the ceiling
    of twenty-five minutes it ends after fifteen seconds, long before
    the ceiling, and not on a signal of the server. *)
Lemma configured_ceiling_is_ignored :
  awaitIdle (1 * Go.Second) undisturbed = (IdleDone None, 15 * Go.Second)
  /\ ~ snd (awaitIdle (1 * Go.Second) undisturbed) <= 1 * Go.Second
  /\ awaitIdle (25 * Go.Minute) undisturbed
     = (IdleDone None, 15 * Go.Second)
  /\ snd (awaitIdle (25 * Go.Minute) undisturbed) < 25 * Go.Minute.
Proof.
  vm_compute. split; [reflexivity|]. split; [intros H; apply H; reflexivity|].
  split; reflexivity.
Qed.

(** ** Connections and the heap *)

Lemma lookup_snoc {A} (l : list A) (x : A) : (l ++ [x]) !! length l = Some x.
Proof. apply list_lookup_middle. reflexivity. Qed.

Lemma alter_snoc {A} (f : A -> A) (l : list A) (x : A) :
  alter f (length l) (l ++ [x]) = l ++ [f x].
Proof.
  replace (length l) with (length l + 0)%nat by lia.
  rewrite alter_app_r. reflexivity.
Qed.

Ltac heap_simpl :=
  repeat (rewrite ?lookup_snoc, ?alter_snoc, ?length_app; simpl).

Lemma lookup_snoc_Some {A} (l : list A) (x y : A) i :
  (l ++ [x]) !! i = Some y -> l !! i = Some y \/ (i = length l /\ y = x).
Proof.
  intros H. destruct (decide (i < length l)%nat) as [Hlt|Hge].
  - left. rewrite lookup_app_l in H by exact Hlt. exact H.
  - right. rewrite lookup_app_r in H by lia.
    destruct (i - length l)%nat eqn:Hd; simpl in H; [|discriminate].
    split; [lia|congruence].
Qed.

Lemma isOpen_snoc n h cs cx sp tr ck m t conn :
  isOpen {| net := n; heap := h; conns := cs ++ [t]; ctxs := cx;
            spawned := sp; trace := tr; clock := ck; manager := m |} conn
  = true ->
  (conn < length cs)%nat /\ (exists t', cs !! conn = Some t' /\ open t' = true)
  \/ (conn = length cs /\ open t = true).
Proof.
  unfold isOpen; simpl. destruct ((cs ++ [t]) !! conn) as [t'|] eqn:Hl;
    [|discriminate].
  intros Ho. apply lookup_snoc_Some in Hl as [Hl|[-> ->]].
  - left. split; [apply lookup_lt_Some in Hl; exact Hl|eauto].
  - right. auto.
Qed.


(** ** Operations that leave the sessions alone *)

Lemma stable_refl s : stable s s.
Proof. unfold stable. auto. Qed.

Lemma stable_trans s1 s2 s3 : stable s1 s2 -> stable s2 s3 -> stable s1 s3.
Proof.
  intros (Hm1 & Hs1 & Hl1 & Hh1) (Hm2 & Hs2 & Hl2 & Hh2).
  repeat split; try congruence; try lia.
  intros c Hc. rewrite Hh2 by lia. apply Hh1, Hc.
Qed.

Lemma stable_same s s' :
  manager s' = manager s -> spawned s' = spawned s -> heap s' = heap s ->
  stable s s'.
Proof.
  intros Hm Hs Hh. unfold stable, sessions, deref. rewrite Hm, Hs, Hh. auto.
Qed.

Lemma frames_ret {A} (a : A) : frames (ret a).
Proof. intros s. apply stable_refl. Qed.

Lemma frames_gets {A} (f : Sys -> A) : frames (gets f).
Proof. intros s. apply stable_refl. Qed.

Lemma frames_modify f : (forall s, stable s (f s)) -> frames (modify f).
Proof. intros H s. apply H. Qed.

Lemma frames_emit e : frames (emit e).
Proof. intros s. apply stable_same; reflexivity. Qed.

Lemma frames_bind {A B} (m : M A) (k : A -> M B) :
  frames m -> (forall a, frames (k a)) -> frames (bind m k).
Proof.
  intros Hm Hk s. unfold bind. specialize (Hm s).
  destruct (m s) as [a s1]. simpl in Hm.
  eapply stable_trans; [exact Hm|apply Hk].
Qed.

Lemma deref_alter f c c' s :
  deref (with_heap (alter f c) s) c'
  = if decide (c = c' /\ (c < length (heap s))%nat) then f (deref s c')
    else deref s c'.
Proof.
  unfold deref; simpl. destruct (decide (c = c')) as [->|Hne].
  - rewrite list_lookup_alter_eq.
    destruct (heap s !! c') as [cl|] eqn:Hl; simpl.
    + apply lookup_lt_Some in Hl. rewrite decide_True by auto. reflexivity.
    + apply lookup_ge_None in Hl. rewrite decide_False by lia. reflexivity.
  - rewrite list_lookup_alter_ne by exact Hne.
    rewrite decide_False by tauto. reflexivity.
Qed.

Lemma frames_setClient c f :
  (forall cl, stopped (f cl) = stopped cl) -> frames (setClient c f).
Proof.
  intros Hf s. unfold setClient, modify; simpl.
  repeat split; simpl; [rewrite length_alter; lia|].
  intros c' Hc'. rewrite deref_alter.
  destruct (decide _); [apply Hf|reflexivity].
Qed.

Lemma frames_go_teardown conn : frames (go (teardown_task conn)).
Proof.
  intros s. unfold go; unfold_monad; simpl. repeat split; simpl; auto.
  unfold sessions; simpl. rewrite omap_app; simpl. apply app_nil_r.
Qed.

Ltac frames_step :=
  first
    [ apply frames_ret
    | apply frames_gets
    | apply frames_emit
    | apply frames_go_teardown
    | apply frames_setClient; intros; reflexivity
    | apply frames_modify; intros; apply stable_same; reflexivity
    | apply frames_bind; [|intros]
    | match goal with
      | |- frames (match ?x with _ => _ end) => destruct x
      end ].

Ltac frames_auto := repeat frames_step.

Lemma Connect_frames c : frames (Connect c).
Proof.
  unfold Connect, locked, getClient, tls_DialWithDialer,
    client_New, conn_Close, client_Login, client_Logout, close_transport.
  frames_auto.
Qed.

Lemma SelectINBOX_frames c : frames (SelectINBOX c).
Proof. unfold SelectINBOX, locked, getClient, client_Select. frames_auto. Qed.

Lemma FetchNewMessages_frames c k : frames (FetchNewMessages c k).
Proof.
  unfold FetchNewMessages, locked, getClient, client_UidFetch. frames_auto.
Qed.

Lemma Client_MarkAsRead_frames c uid : frames (Client_MarkAsRead c uid).
Proof.
  unfold Client_MarkAsRead, locked, getClient, client_UidStore. frames_auto.
Qed.

Lemma Client_DeleteMessage_frames c uid : frames (Client_DeleteMessage c uid).
Proof.
  unfold Client_DeleteMessage, locked, getClient, client_UidStore,
    client_Expunge.
  frames_auto.
Qed.

Lemma handleDisconnect_frames c : frames (handleDisconnect c).
Proof.
  unfold handleDisconnect, locked, getClient, client_Logout, close_transport.
  frames_auto.
Qed.

Lemma IsConnected_frames c : frames (IsConnected c).
Proof. unfold IsConnected, locked, getClient. frames_auto. Qed.

Lemma teardown_frames conn : frames (teardown conn).
Proof.
  unfold teardown, client_Logout, client_Terminate, close_transport.
  frames_auto.
Qed.

Lemma process_frames id messages : forall lastUID,
  frames (process id messages lastUID).
Proof.
  induction messages as [|m rest IH]; intros lastUID; simpl.
  - apply frames_ret.
  - unfold call_onMessage. frames_auto. apply IH.
Qed.

Lemma fetchNewMessages_frames w k : frames (fetchNewMessages w k).
Proof.
  unfold fetchNewMessages, call_onError.
  apply frames_bind; [apply SelectINBOX_frames|intros [e|]].
  - frames_auto.
  - apply frames_bind; [apply FetchNewMessages_frames|intros [ms [e|]]].
    + frames_auto.
    + apply process_frames.
Qed.

Lemma StartIDLE_turn_frames {St} c ctx (onNewMail : St -> M St) st d :
  (forall st, frames (onNewMail st)) ->
  frames (StartIDLE_turn c ctx onNewMail st d).
Proof.
  intros Hon. unfold StartIDLE_turn, getClient, time_Sleep.
  apply frames_bind; [apply frames_gets|intros cancelled].
  apply frames_bind; [apply frames_gets|intros cl].
  destruct cancelled; [apply frames_ret|].
  destruct (stopCh cl); [apply frames_ret|].
  apply frames_bind; [apply frames_emit|intros _].
  apply frames_bind; [apply frames_gets|intros cl1].
  apply frames_bind; [apply frames_emit|intros _].
  destruct (usable cl1).
  - apply frames_bind; [apply frames_emit|intros _].
    apply frames_bind; [apply frames_gets|intros cl2].
    apply frames_bind; [apply frames_emit|intros _].
    destruct (client cl2); [|apply frames_ret].
    destruct (awaitIdle _ _) as [wake elapsed].
    apply frames_bind; [apply frames_emit|intros _].
    apply frames_bind;
      [apply frames_modify; intros; apply stable_same; reflexivity|intros _].
    destruct wake as [| |[err|]]; try apply frames_ret.
    + apply frames_bind; [apply handleDisconnect_frames|intros _].
      frames_auto.
    + apply frames_bind; [apply Hon|intros st']. apply frames_ret.
  - apply frames_bind; [apply Connect_frames|intros [e|]].
    + frames_auto.
    + apply frames_bind; [apply SelectINBOX_frames|intros [e|]].
      * frames_auto.
      * apply frames_ret.
Qed.

Lemma StartIDLE_frames {St} c ctx (onNewMail : St -> M St) during :
  (forall st, frames (onNewMail st)) ->
  forall st, frames (StartIDLE c ctx onNewMail st during).
Proof.
  intros Hon. induction during as [|d rest IH]; intros st; simpl.
  - apply frames_ret.
  - apply frames_bind; [apply StartIDLE_turn_frames, Hon|].
    intros [flow st']. destruct flow; [apply IH|apply frames_ret..].
Qed.

Lemma runClient_frames w during : frames (runClient w during).
Proof.
  unfold runClient.
  apply frames_bind; [apply fetchNewMessages_frames|intros lastUID].
  apply StartIDLE_frames. intros st. apply fetchNewMessages_frames.
Qed.

Lemma GetStatus_frames id : frames (GetStatus id).
Proof.
  unfold GetStatus, mu_RLock.
  apply frames_bind; [apply frames_emit|intros _].
  apply frames_bind; [|intros r; frames_auto].
  apply frames_bind; [apply frames_gets|intros m].
  destruct (clients m !! id); [|apply frames_ret].
  apply frames_bind; [apply IsConnected_frames|intros up].
  destruct up; apply frames_ret.
Qed.

Lemma MarkAsRead_frames id uid : frames (MarkAsRead id uid).
Proof.
  unfold MarkAsRead, lookup_wrapper.
  apply frames_bind; [frames_auto|intros [w|]].
  - apply Client_MarkAsRead_frames.
  - apply frames_ret.
Qed.

Lemma DeleteMessage_frames id uid : frames (DeleteMessage id uid).
Proof.
  unfold DeleteMessage, lookup_wrapper.
  apply frames_bind; [frames_auto|intros [w|]].
  - apply Client_DeleteMessage_frames.
  - apply frames_ret.
Qed.

Lemma Stop_effect c s : stopping c s (snd (Stop c s)).
Proof.
  unfold Stop. unfold_monad. simpl.
  change (deref (with_trace _ s) c) with (deref s c).
  destruct (stopped (deref s c)) eqn:Hst; simpl.
  { unfold stopping. repeat split; auto. }
  assert (Hset : forall s0 : Sys,
            manager s0 = manager s ->
            sessions s0 = sessions s ->
            heap s0 = alter close_stopCh c (alter set_stopped c (heap s)) ->
            stopping c s s0).
  { intros s0 Hm Hs Hh. unfold stopping. repeat split; auto.
    - rewrite Hh, !length_alter. reflexivity.
    - intros c' Hne. unfold deref. rewrite Hh.
      rewrite !list_lookup_alter_ne by congruence. reflexivity.
    - intros Hc. unfold deref. rewrite Hh, !list_lookup_alter_eq.
      destruct (heap s !! c) as [cl|] eqn:Hl; [reflexivity|].
      apply lookup_ge_None in Hl. lia. }
  destruct (client (deref s c)); simpl; apply Hset; try reflexivity.
  unfold sessions; simpl. rewrite omap_app. simpl. apply app_nil_r.
Qed.

Lemma NewClient_frames cfg : frames (NewClient cfg).
Proof.
  unfold NewClient. apply frames_bind; [apply frames_gets|intros c].
  apply frames_bind; [|intros; apply frames_ret].
  apply frames_modify. intros s. repeat split; simpl.
  - rewrite length_app. lia.
  - intros c' Hc'. unfold deref; simpl.
    rewrite lookup_app_l by exact Hc'. reflexivity.
Qed.

Lemma stable_grown n h cs cx sp tr ck m cl cs' cx' sp' tr' ck' :
  omap (fun t => match t with
                 | runClient_task w => Some w
                 | _ => None
                 end) sp'
  = omap (fun t => match t with
                   | runClient_task w => Some w
                   | _ => None
                   end) sp ->
  stable {| net := n; heap := h; conns := cs; ctxs := cx; spawned := sp;
            trace := tr; clock := ck; manager := m |}
         {| net := n; heap := h ++ [cl]; conns := cs'; ctxs := cx';
            spawned := sp'; trace := tr'; clock := ck'; manager := m |}.
Proof.
  intros Hsp. repeat split; simpl.
  - exact Hsp.
  - rewrite length_app. lia.
  - intros c Hc. unfold deref; simpl.
    rewrite lookup_app_l by exact Hc. reflexivity.
Qed.

Lemma TestConnection_frames email password server :
  frames (TestConnection email password server).
Proof.
  intros [n h cs cx sp tr ck m].
  unfold TestConnection, Connect, SelectINBOX, Stop. unfold_monad.
  unfold with_trace, with_heap, with_conns, with_ctxs, with_spawned,
    with_clock, with_manager, deref. simpl. heap_simpl.
  destruct (dial n server) as [err|]; simpl.
  { apply stable_grown. reflexivity. }
  heap_simpl. destruct (greeting n server); simpl.
  { apply stable_grown. reflexivity. }
  destruct (login n server email password); simpl.
  { apply stable_grown. reflexivity. }
  heap_simpl. unfold usable; simpl.
  destruct (select_inbox n server email); simpl; heap_simpl;
    apply stable_grown; rewrite omap_app; simpl; apply app_nil_r.
Qed.

(** C8 (as amended): [TestConnection] leaves the manager, and so its
    registry, as it found it, starts no session and stops no client that
    existed; a connection it opened is, when it returns, closed or handed
    to a teardown goroutine it has started, and once those goroutines
    have run no connection is open that was not open before. *)
Theorem TestConnection_leaves_registry_alone email password server s :
  let s' := snd (TestConnection email password server s) in
  manager s' = manager s
  /\ stable s s'
  /\ (forall conn, isOpen s' conn = true ->
        isOpen s conn = true \/ In conn (teardowns s'))
  /\ (forall conn,
        isOpen (snd (runTeardowns
                      (drop (length (teardowns s)) (teardowns s')) s')) conn
        = true ->
        isOpen s conn = true).
Proof.
  cbv zeta. split; [apply TestConnection_frames|].
  split; [apply TestConnection_frames|].
  destruct s as [n h cs cx sp tr ck m].
  unfold TestConnection, Connect, SelectINBOX, Stop. unfold_monad.
  unfold with_trace, with_heap, with_conns, with_ctxs, with_spawned,
    with_clock, with_manager, deref. simpl. heap_simpl.
  destruct (dial n server) as [err|]; simpl.
  { rewrite drop_all. simpl. auto. }
  heap_simpl. destruct (greeting n server); simpl.
  { heap_simpl. rewrite drop_all. simpl.
    split; intros conn Ho;
      apply isOpen_snoc in Ho as [(_ & t' & Hl & Ho)|[_ Ho]];
      try discriminate Ho; try left; unfold isOpen; simpl; rewrite Hl;
      exact Ho. }
  destruct (login n server email password); simpl.
  { heap_simpl. rewrite drop_all. simpl.
    split; intros conn Ho;
      apply isOpen_snoc in Ho as [(_ & t' & Hl & Ho)|[_ Ho]];
      try discriminate Ho; try left; unfold isOpen; simpl; rewrite Hl;
      exact Ho. }
  heap_simpl. unfold usable; simpl.
  destruct (select_inbox n server email); simpl; heap_simpl.
  all: unfold teardowns; simpl; rewrite omap_app; simpl.
  all: rewrite drop_app_length; simpl.
  all: unfold teardown; unfold_monad;
    unfold with_trace, with_conns; simpl.
  all: split.
  all: try (intros conn Ho;
            apply isOpen_snoc in Ho as [(_ & t' & Hl & Ho)|[-> _]];
            [left; unfold isOpen; simpl; rewrite Hl; exact Ho
            |right; apply in_or_app; right; left; reflexivity]).
  all: destruct (logout_in_time n (length cs)); simpl;
    rewrite alter_snoc; simpl;
    intros conn Ho; apply isOpen_snoc in Ho as [(_ & t' & Hl & Ho)|[_ Ho]];
      try discriminate Ho; unfold isOpen; simpl; rewrite Hl; exact Ho.
Qed.

Lemma TestConnection_leaves_registry_alone_witness :
  In 0%nat
    (teardowns (snd (TestConnection "alice@example.org" "secret"
                       "imap.example.org:993" (boot (serverOf []))))).
Proof.
  destruct (TestConnection_leaves_registry_alone "alice@example.org"
              "secret" "imap.example.org:993" (boot (serverOf [])))
    as (_ & _ & Hopen & _).
  destruct (Hopen 0%nat) as [Hbefore|Hin].
  - reflexivity.
  - discriminate Hbefore.
  - exact Hin.
Defined.

(** C8 (as stated) fails: when connection and selection succeed,
    [TestConnection] returns with the connection still open; the logout
    is left to a goroutine. *)
Lemma TestConnection_returns_before_teardown :
  let r := TestConnection "alice@example.org" "secret"
             "imap.example.org:993" (boot (serverOf [])) in
  fst r = None
  /\ isOpen (snd r) 0 = true
  /\ spawned (snd r) = [teardown_task 0]
  /\ ~ (forall conn, isOpen (snd r) conn = false).
Proof.
  vm_compute. repeat split. intros H. specialize (H 0%nat). discriminate H.
Qed.

(** ** The invariant of the manager *)

Lemma Inv_stable s s' : Inv s -> stable s s' -> Inv s'.
Proof.
  intros (Hnd & Hval & Hreg & Hlive) (Hm & Hs & Hl & Hst).
  assert (Hsame : forall w, In w (sessions s) -> live s' w = live s w).
  { intros w Hw. unfold live. rewrite (Hst _ (Hval w Hw)). reflexivity. }
  unfold Inv. rewrite Hs, Hm. split; [exact Hnd|]. split; [|split].
  - intros w Hw. specialize (Hval w Hw). lia.
  - intros id w Hw. destruct (Hreg id w Hw) as (Hin & Hid & Hl').
    split; [exact Hin|]. split; [exact Hid|].
    rewrite (Hsame w Hin). exact Hl'.
  - intros w Hw Hl'. apply Hlive; [exact Hw|].
    rewrite <- (Hsame w Hw). exact Hl'.
Qed.

Lemma AddAccount_registered acc s w :
  clients (manager s) !! models.ID acc = Some w ->
  AddAccount acc s
  = (None, with_trace (fun t => t ++ [MuLock; MuUnlock]) s).
Proof.
  intros Hreg. unfold AddAccount, mu_Lock. unfold_monad. simpl.
  rewrite Hreg. simpl. destruct s; tidy_trace; reflexivity.
Qed.

Lemma AddAccount_fresh acc s :
  clients (manager s) !! models.ID acc = None ->
  (fst (AddAccount acc s) <> None /\ stable s (snd (AddAccount acc s)))
  \/ (fst (AddAccount acc s) = None /\ added acc s (snd (AddAccount acc s))).
Proof.
  intros Hreg. destruct s as [n h cs cx sp tr ck m]. simpl in Hreg.
  unfold AddAccount, mu_Lock, Connect, SelectINBOX, Stop. unfold_monad.
  unfold with_trace, with_heap, with_conns, with_ctxs, with_spawned,
    with_clock, with_manager, deref. simpl. rewrite Hreg. simpl. heap_simpl.
  destruct (dial n (models.IMAPServer acc)) as [err|]; simpl.
  { left. split; [discriminate|]. apply stable_grown. reflexivity. }
  heap_simpl. destruct (greeting n (models.IMAPServer acc)); simpl.
  { left. split; [discriminate|]. apply stable_grown. reflexivity. }
  destruct (login n _ _ _); simpl.
  { left. split; [discriminate|]. apply stable_grown. reflexivity. }
  heap_simpl. unfold usable; simpl.
  destruct (select_inbox n _ _); simpl; heap_simpl.
  { left. split; [discriminate|]. apply stable_grown.
    rewrite omap_app. simpl. apply app_nil_r. }
  right. split; [reflexivity|]. unfold added; simpl.
  repeat split.
  - unfold sessions; simpl. rewrite omap_app. reflexivity.
  - rewrite length_app. simpl. lia.
  - intros c Hc. unfold deref; simpl.
    rewrite lookup_app_l by exact Hc. reflexivity.
  - unfold live, deref; simpl. heap_simpl. reflexivity.
Qed.

Lemma NoDup_map_inj {A B} (f : A -> B) l x y :
  NoDup (map f l) -> In x l -> In y l -> f x = f y -> x = y.
Proof.
  induction l as [|a l IH]; simpl; intros Hnd Hx Hy Hf; [contradiction|].
  apply NoDup_cons in Hnd as [Hna Hnd].
  destruct Hx as [->|Hx], Hy as [->|Hy]; auto.
  - exfalso. apply Hna. rewrite Hf. apply list_elem_of_In, in_map, Hy.
  - exfalso. apply Hna. rewrite <- Hf. apply list_elem_of_In, in_map, Hx.
Qed.

Lemma Inv_AddAccount acc s : Inv s -> Inv (snd (AddAccount acc s)).
Proof.
  intros HI. destruct (clients (manager s) !! models.ID acc) as [w|] eqn:Hreg.
  { rewrite (AddAccount_registered _ _ _ Hreg). simpl.
    apply (Inv_stable s); [exact HI|apply stable_same; reflexivity]. }
  destruct (AddAccount_fresh acc s Hreg) as [[_ Hst]|[_ Hadd]].
  { apply (Inv_stable s); assumption. }
  destruct Hadd as (Hm & Hs & Hl & Hsame & Hlive).
  destruct HI as (Hnd & Hval & Hregd & Hlived).
  assert (Hold : forall w, In w (sessions s) ->
            live (snd (AddAccount acc s)) w = live s w).
  { intros w Hw. unfold live. rewrite (Hsame _ (Hval w Hw)). reflexivity. }
  unfold Inv. rewrite Hs, Hm. simpl. split; [|split; [|split]].
  - rewrite map_app. simpl. apply NoDup_app. split; [exact Hnd|].
    split; [|apply NoDup_singleton].
    intros c Hc Hc'. apply list_elem_of_In in Hc.
    apply in_map_iff in Hc as (w & <- & Hw).
    apply list_elem_of_In in Hc'. destruct Hc' as [Hc'|[]].
    specialize (Hval w Hw). lia.
  - intros w Hw. apply in_app_or in Hw as [Hw|[<-|[]]]; simpl.
    + specialize (Hval w Hw). lia.
    + lia.
  - intros id w Hw.
    destruct (decide (models.ID acc = id)) as [<-|Hne].
    + rewrite lookup_insert_eq in Hw. injection Hw as <-.
      split; [apply in_or_app; right; left; reflexivity|].
      split; [reflexivity|exact Hlive].
    + rewrite lookup_insert_ne in Hw by exact Hne.
      destruct (Hregd id w Hw) as (Hin & Hid & Hl').
      split; [apply in_or_app; left; exact Hin|].
      split; [exact Hid|]. rewrite (Hold w Hin). exact Hl'.
  - intros w Hw Hlw. apply in_app_or in Hw as [Hw|[<-|[]]]; simpl.
    + rewrite (Hold w Hw) in Hlw.
      pose proof (Hlived w Hw Hlw) as Hwreg.
      rewrite lookup_insert_ne; [exact Hwreg|].
      intros Heq. rewrite <- Heq, Hreg in Hwreg. discriminate.
    + apply lookup_insert_eq.
Qed.

Lemma stopped_valid s c :
  stopped (deref s c) = true -> (c < length (heap s))%nat.
Proof.
  unfold deref. destruct (heap s !! c) as [cl|] eqn:Hl; simpl.
  - intros _. apply lookup_lt_Some in Hl. exact Hl.
  - discriminate.
Qed.

Lemma stopping_quiet c s s' : stopping c s s' -> quiet s s'.
Proof.
  intros (_ & Hs & Hl & Hothers & Hc). repeat split; auto.
  intros c' Hst. destruct (decide (c' = c)) as [->|Hne].
  - apply Hc. apply stopped_valid. exact Hst.
  - rewrite Hothers by exact Hne. exact Hst.
Qed.

Lemma quiet_trans s1 s2 s3 : quiet s1 s2 -> quiet s2 s3 -> quiet s1 s3.
Proof.
  intros (Hs1 & Hl1 & Hh1) (Hs2 & Hl2 & Hh2).
  repeat split; try congruence. auto.
Qed.

Lemma quiet_same s s' :
  spawned s' = spawned s -> heap s' = heap s -> quiet s s'.
Proof.
  intros Hs Hh. unfold quiet, sessions, deref. rewrite Hs, Hh. auto.
Qed.

Lemma stopping_same_l c s0 s s' :
  manager s = manager s0 -> spawned s = spawned s0 -> heap s = heap s0 ->
  stopping c s s' -> stopping c s0 s'.
Proof.
  unfold stopping, sessions, deref. intros -> -> ->. auto.
Qed.

Lemma RemoveAccount_absent id s :
  clients (manager s) !! id = None ->
  RemoveAccount id s
  = (None, with_trace (fun t => t ++ [MuLock; MuUnlock]) s).
Proof.
  intros Hreg. unfold RemoveAccount, mu_Lock. unfold_monad. simpl.
  rewrite Hreg. simpl. destruct s; tidy_trace; reflexivity.
Qed.

Lemma RemoveAccount_present_run id s w :
  clients (manager s) !! id = Some w ->
  RemoveAccount id s
  = (None,
     with_trace (fun t => t ++ [MuUnlock])
       (with_manager (with_clients (delete id))
          (snd (Stop (wrapper_client w)
                  (with_ctxs (fun l => <[ctx w := true]> l)
                     (with_trace (fun t => t ++ [MuLock; CtxCancel (ctx w)])
                        s)))))).
Proof.
  intros Hreg. unfold RemoveAccount, mu_Lock. unfold_monad. simpl.
  rewrite Hreg.
  replace (with_trace (fun t => t ++ [MuLock; CtxCancel (ctx w)]) s)
    with (with_trace (fun t => t ++ [CtxCancel (ctx w)])
            (with_trace (fun t => t ++ [MuLock]) s))
    by (destruct s; tidy_trace; reflexivity).
  destruct (Stop _ _) as [[] s2]. reflexivity.
Qed.

(** What [RemoveAccount] does when the account has a session. *)
Lemma RemoveAccount_present id s w :
  clients (manager s) !! id = Some w ->
  manager (snd (RemoveAccount id s)) = with_clients (delete id) (manager s)
  /\ sessions (snd (RemoveAccount id s)) = sessions s
  /\ length (heap (snd (RemoveAccount id s))) = length (heap s)
  /\ (forall c, c <> wrapper_client w ->
        stopped (deref (snd (RemoveAccount id s)) c) = stopped (deref s c))
  /\ ((wrapper_client w < length (heap s))%nat ->
      stopped (deref (snd (RemoveAccount id s)) (wrapper_client w)) = true).
Proof.
  intros Hreg. rewrite (RemoveAccount_present_run _ _ _ Hreg). simpl.
  set (s1 := with_ctxs _ _).
  pose proof (Stop_effect (wrapper_client w) s1) as Hstop.
  apply (stopping_same_l _ s) in Hstop; try reflexivity.
  destruct Hstop as (Hm & Hs & Hl & Hothers & Hc).
  split; [simpl; rewrite Hm; reflexivity|].
  split; [exact Hs|]. split; [exact Hl|]. split; assumption.
Qed.

Lemma Inv_RemoveAccount id s : Inv s -> Inv (snd (RemoveAccount id s)).
Proof.
  intros HI. destruct (clients (manager s) !! id) as [w|] eqn:Hreg.
  2:{ rewrite (RemoveAccount_absent _ _ Hreg). simpl.
      apply (Inv_stable s); [exact HI|apply stable_same; reflexivity]. }
  destruct (RemoveAccount_present id s w Hreg)
    as (Hm & Hs & Hl & Hothers & Hstop).
  destruct HI as (Hnd & Hval & Hregd & Hlived).
  destruct (Hregd id w Hreg) as (Hwin & Hwid & Hwlive).
  unfold Inv. rewrite Hs, Hm, Hl. simpl. split; [|split; [|split]].
  - exact Hnd.
  - exact Hval.
  - intros id' w' Hw'.
    destruct (decide (id = id')) as [<-|Hne];
      [rewrite lookup_delete_eq in Hw'; discriminate|].
    rewrite lookup_delete_ne in Hw' by exact Hne.
    destruct (Hregd id' w' Hw') as (Hin & Hid & Hl').
    split; [exact Hin|]. split; [exact Hid|].
    unfold live in *. rewrite Hothers; [exact Hl'|].
    intros Heq. apply Hne.
    rewrite <- Hwid, <- Hid.
    f_equal. f_equal. symmetry.
    apply (NoDup_map_inj wrapper_client (sessions s)); auto.
  - intros w' Hw' Hl'.
    destruct (decide (wrapper_client w' = wrapper_client w)) as [Heq|Hne].
    + unfold live in Hl'. rewrite Heq, Hstop in Hl'; [discriminate|].
      apply Hval, Hwin.
    + unfold live in Hl'. rewrite Hothers in Hl' by exact Hne.
      pose proof (Hlived w' Hw' Hl') as Hw'reg.
      rewrite lookup_delete_ne; [exact Hw'reg|].
      intros Hid. rewrite <- Hid, Hreg in Hw'reg.
      injection Hw'reg as ->. apply Hne. reflexivity.
Qed.

Lemma stopEach_cons id w rest s :
  stopEach ((id, w) :: rest) s
  = stopEach rest
      (with_manager (with_clients (delete id))
         (snd (Stop (wrapper_client w)
                 (with_ctxs (fun l => <[ctx w := true]> l)
                    (with_trace (fun t => t ++ [CtxCancel (ctx w)]) s))))).
Proof.
  simpl. unfold_monad. simpl. destruct (Stop _ _) as [[] s2]. reflexivity.
Qed.

(** [stopEach] stops the client of every entry, starts no session and
    removes from the registry the keys it was given. *)
Lemma stopEach_effect entries : forall s,
  quiet s (snd (stopEach entries s))
  /\ (forall id w, In (id, w) entries ->
        (wrapper_client w < length (heap s))%nat ->
        stopped (deref (snd (stopEach entries s)) (wrapper_client w)) = true)
  /\ (forall id, In id (map fst entries) ->
        clients (manager (snd (stopEach entries s))) !! id = None).
Proof.
  induction entries as [|[id w] rest IH]; intros s.
  - split; [apply quiet_same; reflexivity|]. split; [intros ? ? []|intros ? []].
  - rewrite stopEach_cons.
    set (s1 := with_ctxs _ _).
    pose proof (Stop_effect (wrapper_client w) s1) as Hstop.
    apply (stopping_same_l _ s) in Hstop; try reflexivity.
    pose proof (stopping_quiet _ _ _ Hstop) as Hq.
    destruct Hstop as (Hm & _ & _ & _ & Hc).
    set (s3 := with_manager _ _).
    destruct (IH s3) as (Hq3 & Hrest & Hgone).
    assert (Hq13 : quiet s s3).
    { eapply quiet_trans; [exact Hq|apply quiet_same; reflexivity]. }
    split; [eapply quiet_trans; eassumption|]. split.
    + intros id' w' [Heq|Hin] Hv.
      * injection Heq as <- <-. destruct Hq3 as (_ & _ & Hmono).
        apply Hmono, Hc, Hv.
      * apply (Hrest id' w' Hin). destruct Hq13 as (_ & Hlen & _).
        rewrite Hlen. exact Hv.
    + intros id' Hin. destruct (in_dec Z.eq_dec id' (map fst rest)) as [Hr|Hr].
      * apply Hgone, Hr.
      * destruct Hin as [<-|Hin]; [|contradiction].
        clear -Hr. revert s3 Hr.
        assert (Hkeep : forall entries s0 k,
                  ~ In k (map fst entries) ->
                  clients (manager s0) !! k = None ->
                  clients (manager (snd (stopEach entries s0))) !! k = None).
        { induction entries as [|[i x] es IHes]; intros s0 k Hk Hnone;
            [exact Hnone|].
          rewrite stopEach_cons. apply IHes; [simpl in Hk; tauto|].
          simpl. pose proof (Stop_effect (wrapper_client x)
            (with_ctxs (fun l => <[ctx x := true]> l)
               (with_trace (fun t => t ++ [CtxCancel (ctx x)]) s0)))
            as (Hm' & _).
          rewrite Hm'. simpl.
          destruct (decide (i = k)) as [->|Hik];
            [apply lookup_delete_eq|].
          rewrite lookup_delete_ne by exact Hik. exact Hnone. }
        intros s3 Hr. apply Hkeep; [exact Hr|].
        subst s3. simpl. apply lookup_delete_eq.
Qed.

Lemma StopAll_run s :
  snd (StopAll s)
  = with_trace (fun t => t ++ [MuUnlock])
      (snd (stopEach (map_to_list (clients (manager s)))
              (with_trace (fun t => t ++ [MuLock]) s))).
Proof.
  unfold StopAll, mu_Lock. unfold_monad. simpl.
  destruct (stopEach _ _) as [[] s2]. reflexivity.
Qed.

Lemma Inv_StopAll s : Inv s -> Inv (snd (StopAll s)).
Proof.
  intros (Hnd & Hval & Hregd & Hlived). rewrite StopAll_run.
  set (s1 := with_trace _ s).
  destruct (stopEach_effect (map_to_list (clients (manager s))) s1)
    as ((Hs & Hl & Hmono) & Hstopped & Hgone).
  set (s2 := snd (stopEach _ s1)) in *.
  assert (Hnolive : forall w, In w (sessions s) -> live s2 w = false).
  { intros w Hw. unfold live.
    destruct (stopped (deref s (wrapper_client w))) eqn:Hst.
    - rewrite (Hmono _ Hst). reflexivity.
    - assert (Hreg : clients (manager s) !! models.ID (account w) = Some w).
      { apply Hlived; [exact Hw|]. unfold live. rewrite Hst. reflexivity. }
      apply elem_of_map_to_list, list_elem_of_In in Hreg.
      rewrite (Hstopped _ _ Hreg (Hval w Hw)). reflexivity. }
  assert (Hempty : forall id, clients (manager s2) !! id = None).
  { intros id. destruct (clients (manager s) !! id) as [w|] eqn:Hreg.
    - apply Hgone. apply elem_of_map_to_list, list_elem_of_In in Hreg.
      apply (in_map fst) in Hreg. exact Hreg.
    - destruct (clients (manager s2) !! id) as [w|] eqn:Hreg2; [|reflexivity].
      exfalso. clear -Hreg Hreg2.
      assert (Hsub : forall entries s0 k x,
                clients (manager (snd (stopEach entries s0))) !! k = Some x ->
                clients (manager s0) !! k = Some x).
      { induction entries as [|[i y] es IHes]; intros s0 k x Hk; [exact Hk|].
        rewrite stopEach_cons in Hk. apply IHes in Hk. simpl in Hk.
        pose proof (Stop_effect (wrapper_client y)
          (with_ctxs (fun l => <[ctx y := true]> l)
             (with_trace (fun t => t ++ [CtxCancel (ctx y)]) s0)))
          as (Hm' & _).
        rewrite Hm' in Hk. simpl in Hk.
        apply lookup_delete_Some in Hk. tauto. }
      apply Hsub in Hreg2. simpl in Hreg2. congruence. }
  unfold Inv. change (sessions (with_trace _ s2)) with (sessions s2).
  rewrite Hs. change (sessions s1) with (sessions s).
  split; [exact Hnd|]. split; [|split].
  - intros w Hw. simpl. rewrite Hl. apply Hval, Hw.
  - intros id w Hw. simpl in Hw. rewrite Hempty in Hw. discriminate.
  - intros w Hw Hlw. change (live (with_trace _ s2) w) with (live s2 w) in Hlw.
    rewrite (Hnolive w Hw) in Hlw. discriminate.
Qed.

Lemma Inv_perform a s : possible a s -> Inv s -> Inv (perform a s).
Proof.
  intros _ HI. destruct a; simpl.
  - apply Inv_AddAccount, HI.
  - apply Inv_RemoveAccount, HI.
  - apply Inv_StopAll, HI.
  - apply (Inv_stable s); [exact HI|apply TestConnection_frames].
  - apply (Inv_stable s); [exact HI|apply GetStatus_frames].
  - apply (Inv_stable s); [exact HI|apply MarkAsRead_frames].
  - apply (Inv_stable s); [exact HI|apply DeleteMessage_frames].
  - apply (Inv_stable s); [exact HI|apply runClient_frames].
  - apply (Inv_stable s); [exact HI|apply teardown_frames].
  - apply (Inv_stable s); [exact HI|apply stable_same; reflexivity].
Qed.

Lemma reachable_Inv s : reachable s -> Inv s.
Proof.
  induction 1 as [n m Hm|s a _ IH Hp].
  - unfold Inv, start; simpl. split; [constructor|].
    split; [intros ? []|]. split; [|intros ? []].
    intros id w Hw. rewrite Hm in Hw. discriminate.
  - apply Inv_perform; assumption.
Qed.

Lemma filter_none {A} (P : A -> bool) (l : list A) :
  (forall y, In y l -> P y = false) -> List.filter P l = [].
Proof.
  induction l as [|b l IH]; simpl; intros Hf; [reflexivity|].
  rewrite (Hf b) by auto. apply IH. intros y Hy. apply Hf. auto.
Qed.

Lemma filter_unique {A} (P : A -> bool) (l : list A) (x : A) :
  NoDup l -> In x l -> (forall y, In y l -> P y = true <-> y = x) ->
  List.filter P l = [x].
Proof.
  induction l as [|a l IH]; simpl; intros Hnd Hin HP; [contradiction|].
  apply NoDup_cons in Hnd as [Hna Hnd].
  destruct Hin as [->|Hin].
  - rewrite (proj2 (HP x (or_introl eq_refl)) eq_refl). f_equal.
    apply filter_none. intros y Hy. destruct (P y) eqn:HPy; [|reflexivity].
    apply (HP y (or_intror Hy)) in HPy. subst y.
    exfalso. apply Hna, list_elem_of_In, Hy.
  - destruct (P a) eqn:HPa.
    + apply (HP a (or_introl eq_refl)) in HPa. subst a.
      exfalso. apply Hna, list_elem_of_In, Hin.
    + apply IH; [exact Hnd|exact Hin|].
      intros y Hy. apply HP. right. exact Hy.
Qed.

Lemma NoDup_map_NoDup {A B} (f : A -> B) (l : list A) :
  NoDup (map f l) -> NoDup l.
Proof.
  induction l as [|a l IH]; simpl; intros Hnd; [constructor|].
  apply NoDup_cons in Hnd as [Hna Hnd]. apply NoDup_cons. split; [|auto].
  intros Ha. apply Hna. apply list_elem_of_In, in_map, list_elem_of_In, Ha.
Qed.

(** In a state that satisfies the invariant the live sessions of an
    account are its registry entry, if it has one. *)
Lemma liveSessions_registry s id :
  Inv s ->
  liveSessions s id
  = match clients (manager s) !! id with
    | Some w => [w]
    | None => []
    end.
Proof.
  intros (Hnd & Hval & Hregd & Hlived). unfold liveSessions.
  destruct (clients (manager s) !! id) as [w|] eqn:Hreg.
  - destruct (Hregd id w Hreg) as (Hin & Hid & Hlw).
    apply filter_unique; [eapply NoDup_map_NoDup, Hnd|exact Hin|].
    intros y Hy. split.
    + intros HP. apply andb_prop in HP as [Hyid Hyl].
      apply Z.eqb_eq in Hyid. pose proof (Hlived y Hy Hyl) as Hyreg.
      rewrite Hyid, Hreg in Hyreg. congruence.
    + intros ->. rewrite Hid, Z.eqb_refl, Hlw. reflexivity.
  - apply filter_none. intros y Hy.
    destruct (_ && _) eqn:HP; [|reflexivity].
    apply andb_prop in HP as [Hyid Hyl]. apply Z.eqb_eq in Hyid.
    pose proof (Hlived y Hy Hyl) as Hyreg.
    rewrite Hyid, Hreg in Hyreg. discriminate.
Qed.

(** ** The registry lock *)

Lemma scan_app tr1 : forall held tr2,
  scan held (tr1 ++ tr2)
  = match scan held tr1 with
    | Some held' => scan held' tr2
    | None => None
    end.
Proof.
  induction tr1 as [|e tr1 IH]; intros held tr2; simpl; [reflexivity|].
  destruct e; try apply IH;
    destruct held; simpl; try apply IH; reflexivity.
Qed.

Lemma scan_noMu tr : Forall noMu tr -> scan false tr = Some false.
Proof.
  induction 1 as [|e tr He _ IH]; simpl; [reflexivity|].
  destruct e; simpl in He; try contradiction; exact IH.
Qed.

Lemma scan_in_memory tr : Forall in_memory tr -> scan true tr = Some true.
Proof.
  induction 1 as [|e tr [He Hn] _ IH]; simpl; [reflexivity|].
  destruct e; simpl in He, Hn; try contradiction; try discriminate; exact IH.
Qed.

Lemma session_io_noMu e : session_io e -> noMu e.
Proof. destruct e; simpl; tauto. Qed.

Lemma loop_event_noMu e : loop_event e -> noMu e.
Proof. destruct e; simpl; tauto. Qed.

Lemma in_memory_noMu e : in_memory e -> noMu e.
Proof. intros [H _]. exact H. Qed.

Lemma IsConnected_emits c : emits in_memory (IsConnected c).
Proof.
  unfold IsConnected, locked, getClient.
  emits_auto; split; solve [exact I|reflexivity].
Qed.

Lemma Stop_emits c : emits in_memory (Stop c).
Proof.
  unfold Stop, getClient, setClient, go.
  emits_auto; split; solve [exact I|reflexivity].
Qed.

Lemma cancel_emits id : emits in_memory (cancel id).
Proof. unfold cancel. emits_auto; split; solve [exact I|reflexivity]. Qed.

Lemma stopEach_emits entries : emits in_memory (stopEach entries).
Proof.
  induction entries as [|[id w] rest IH]; simpl.
  - apply emits_ret.
  - apply emits_bind; [apply cancel_emits|intros _].
    apply emits_bind; [apply Stop_emits|intros _].
    apply emits_bind; [apply emits_modify; reflexivity|intros _]. exact IH.
Qed.

Lemma NewClient_emits P cfg : emits P (NewClient cfg).
Proof. unfold NewClient. emits_auto. Qed.

Lemma TestConnection_emits email password server :
  emits noMu (TestConnection email password server).
Proof.
  unfold TestConnection.
  apply emits_bind; [apply emits_gets|intros m].
  apply emits_bind; [apply NewClient_emits|intros c].
  apply emits_bind;
    [eapply emits_weaken; [apply session_io_noMu|apply Connect_emits]|
     intros [e|]]; [apply emits_ret|].
  apply emits_bind;
    [eapply emits_weaken; [apply session_io_noMu|apply SelectINBOX_emits]|
     intros [e|]];
    (apply emits_bind;
       [eapply emits_weaken; [apply in_memory_noMu|apply Stop_emits]|
        intros; apply emits_ret]).
Qed.

Lemma teardown_emits conn : emits noMu (teardown conn).
Proof.
  unfold teardown, client_Logout, client_Terminate, close_transport.
  emits_auto; exact I.
Qed.

(** An operation that holds the exclusive lock from its first event to
    its last. *)
Lemma mu_Lock_shape {A} (body : M A) s :
  emits noMu body ->
  exists evs, events_of (mu_Lock body) s = MuLock :: evs ++ [MuUnlock]
              /\ Forall noMu evs.
Proof.
  intros Hbody. unfold events_of, mu_Lock. unfold_monad. simpl.
  destruct (Hbody (with_trace (fun t => t ++ [MuLock]) s))
    as (evs & Ht & Hp).
  destruct (body _) as [r s1]. simpl in *.
  exists evs. split; [|exact Hp].
  rewrite Ht, <- !app_assoc, drop_app_length. reflexivity.
Qed.

(** [AddAccount] holds the exclusive lock from its first event to its
    last. *)
Lemma AddAccount_shape account s :
  exists evs, events_of (AddAccount account) s = MuLock :: evs ++ [MuUnlock]
              /\ Forall noMu evs.
Proof.
  unfold AddAccount. apply mu_Lock_shape.
  apply emits_bind; [apply emits_gets|intros m].
  destruct (clients m !! models.ID account); [apply emits_ret|].
  apply emits_bind; [apply NewClient_emits|intros c].
  apply emits_bind;
    [eapply emits_weaken; [apply session_io_noMu|apply Connect_emits]|
     intros [e|]]; [apply emits_ret|].
  apply emits_bind;
    [eapply emits_weaken; [apply session_io_noMu|apply SelectINBOX_emits]|
     intros [e|]].
  - apply emits_bind;
      [eapply emits_weaken; [apply in_memory_noMu|apply Stop_emits]|
       intros; apply emits_ret].
  - unfold context_WithCancel, go. emits_auto; exact I.
Qed.

(** ** Two goroutines and the registry lock *)

Lemma noMu_step m e : noMu e -> enabled m e = true /\ after m e = m.
Proof. destruct e; simpl; intros H; try contradiction; auto. Qed.

(** A goroutine alone runs its events in order. *)
Lemma run_alone_right t : forall m order p,
  run {| mu := m; left := []; right := t |} order p ->
  right p = [] -> order = t.
Proof.
  induction t as [|e t IH]; intros m order p Hrun Hend.
  - inversion Hrun as [|? ? ? ? ? Hs]; subst; [reflexivity|]. inversion Hs.
  - inversion Hrun as [|? ? ? ? ? Hs Hrest]; subst; [discriminate|].
    inversion Hs; subst. f_equal. eapply IH; eassumption.
Qed.

Lemma run_alone_left t : forall m order p,
  run {| mu := m; left := t; right := [] |} order p ->
  left p = [] -> order = t.
Proof.
  induction t as [|e t IH]; intros m order p Hrun Hend.
  - inversion Hrun as [|? ? ? ? ? Hs]; subst; [reflexivity|]. inversion Hs.
  - inversion Hrun as [|? ? ? ? ? Hs Hrest]; subst; [discriminate|].
    inversion Hs; subst. f_equal. eapply IH; eassumption.
Qed.

(** While the left goroutine is inside its critical section the right one,
    which is about to lock, does not move. *)
Lemma run_inside_left body : forall rd r order p,
  Forall noMu body ->
  run {| mu := {| writer := true; readers := rd |};
         left := body ++ [MuUnlock]; right := MuLock :: r |} order p ->
  left p = [] -> right p = [] ->
  order = (body ++ [MuUnlock]) ++ MuLock :: r.
Proof.
  induction body as [|e body IH]; intros rd r order p Hbody Hrun Hl Hr;
    simpl in *.
  - inversion Hrun as [|? ? ? ? ? Hs Hrest]; subst; [discriminate|].
    inversion Hs; subst; [|discriminate]. f_equal.
    eapply run_alone_right; eassumption.
  - apply Forall_cons in Hbody as [He Hbody].
    destruct (noMu_step {| writer := true; readers := rd |} e He) as [_ Haft].
    inversion Hrun as [|? ? ? ? ? Hs Hrest]; subst; [discriminate|].
    inversion Hs; subst; [|discriminate]. f_equal.
    rewrite Haft in Hrest. eapply IH; eassumption.
Qed.

Lemma run_inside_right body : forall rd l order p,
  Forall noMu body ->
  run {| mu := {| writer := true; readers := rd |};
         left := MuLock :: l; right := body ++ [MuUnlock] |} order p ->
  left p = [] -> right p = [] ->
  order = (body ++ [MuUnlock]) ++ MuLock :: l.
Proof.
  induction body as [|e body IH]; intros rd l order p Hbody Hrun Hl Hr;
    simpl in *.
  - inversion Hrun as [|? ? ? ? ? Hs Hrest]; subst; [discriminate|].
    inversion Hs; subst; [discriminate|]. f_equal.
    eapply run_alone_left; eassumption.
  - apply Forall_cons in Hbody as [He Hbody].
    destruct (noMu_step {| writer := true; readers := rd |} e He) as [_ Haft].
    inversion Hrun as [|? ? ? ? ? Hs Hrest]; subst; [discriminate|].
    inversion Hs; subst; [discriminate|]. f_equal.
    rewrite Haft in Hrest. eapply IH; eassumption.
Qed.

(** Two critical sections on [Manager.mu] run one after the other. *)
Lemma critical_sections_serialised body1 body2 order p :
  Forall noMu body1 -> Forall noMu body2 ->
  run {| mu := unlocked; left := MuLock :: body1 ++ [MuUnlock];
         right := MuLock :: body2 ++ [MuUnlock] |} order p ->
  left p = [] -> right p = [] ->
  order = (MuLock :: body1 ++ [MuUnlock]) ++ (MuLock :: body2 ++ [MuUnlock])
  \/ order = (MuLock :: body2 ++ [MuUnlock]) ++ (MuLock :: body1 ++ [MuUnlock]).
Proof.
  intros H1 H2 Hrun Hl Hr.
  inversion Hrun as [|? ? ? ? ? Hs Hrest]; subst; [discriminate|].
  inversion Hs; subst.
  - left. simpl. f_equal. eapply run_inside_left; eassumption.
  - right. simpl. f_equal. eapply run_inside_right; eassumption.
Qed.

Lemma scan_events_noMu {A} (op : M A) s :
  emits noMu op -> scan false (events_of op s) = Some false.
Proof. intros H. apply scan_noMu, emits_events_of, H. Qed.

(** An operation that takes a lock of [Manager.mu], runs a body that
    stays in memory and releases the lock keeps the discipline. *)
Lemma scan_bracket acquire release body :
  (acquire = MuLock \/ acquire = MuRLock) ->
  (release = MuUnlock \/ release = MuRUnlock) ->
  Forall in_memory body ->
  scan false (acquire :: body ++ [release]) = Some false.
Proof.
  intros Ha Hr Hbody.
  assert (Hin : scan true (body ++ [release]) = Some false).
  { rewrite scan_app, (scan_in_memory _ Hbody).
    destruct Hr as [-> | ->]; reflexivity. }
  destruct Ha as [-> | ->]; exact Hin.
Qed.

Lemma events_of_bracket {A} (acquire release : Event) (body : M A) s :
  emits in_memory body ->
  exists evs,
    events_of (bind (emit acquire) (fun _ =>
               bind body (fun r =>
               bind (emit release) (fun _ => ret r)))) s
    = acquire :: evs ++ [release]
    /\ Forall in_memory evs.
Proof.
  intros Hbody. unfold events_of. unfold_monad. simpl.
  destruct (Hbody (with_trace (fun t => t ++ [acquire]) s))
    as (evs & Ht & Hp).
  destruct (body _) as [r s1]. simpl in *.
  exists evs. split; [|exact Hp].
  rewrite Ht, <- !app_assoc, drop_app_length. reflexivity.
Qed.

(** [GetStatus], [RemoveAccount] and [StopAll] take the lock first,
    release it last and stay in memory in between. *)
Lemma GetStatus_shape id s :
  exists evs,
    events_of (GetStatus id) s = MuRLock :: evs ++ [MuRUnlock]
    /\ Forall in_memory evs.
Proof.
  unfold GetStatus, mu_RLock. apply events_of_bracket.
  apply emits_bind; [apply emits_gets|intros m].
  destruct (clients m !! id); [|apply emits_ret].
  apply emits_bind; [apply IsConnected_emits|intros up].
  destruct up; apply emits_ret.
Qed.

Lemma RemoveAccount_shape id s :
  exists evs,
    events_of (RemoveAccount id) s = MuLock :: evs ++ [MuUnlock]
    /\ Forall in_memory evs.
Proof.
  unfold RemoveAccount, mu_Lock. apply events_of_bracket.
  apply emits_bind; [apply emits_gets|intros m].
  destruct (clients m !! id); [|apply emits_ret].
  apply emits_bind; [apply cancel_emits|intros _].
  apply emits_bind; [apply Stop_emits|intros _].
  apply emits_bind; [apply emits_modify; reflexivity|intros _].
  apply emits_ret.
Qed.

Lemma StopAll_shape s :
  exists evs,
    events_of StopAll s = MuLock :: evs ++ [MuUnlock]
    /\ Forall in_memory evs.
Proof.
  unfold StopAll, mu_Lock. apply events_of_bracket.
  apply emits_bind; [apply emits_gets|intros m]. apply stopEach_emits.
Qed.

Lemma GetStatus_discipline id s :
  scan false (events_of (GetStatus id) s) = Some false.
Proof.
  destruct (GetStatus_shape id s) as (evs & -> & Hevs).
  apply scan_bracket; auto.
Qed.

Lemma RemoveAccount_discipline id s :
  scan false (events_of (RemoveAccount id) s) = Some false.
Proof.
  destruct (RemoveAccount_shape id s) as (evs & -> & Hevs).
  apply scan_bracket; auto.
Qed.

Lemma StopAll_discipline s :
  scan false (events_of StopAll s) = Some false.
Proof.
  destruct (StopAll_shape s) as (evs & -> & Hevs).
  apply scan_bracket; auto.
Qed.

(** The lookup of [MarkAsRead] and [DeleteMessage] takes the lock first
    and releases it before the session is used. *)
Lemma lookup_then_shape {A} (k : option clientWrapper -> M A) id s :
  (forall w, emits noMu (k w)) ->
  exists evs,
    events_of (bind (lookup_wrapper id) k) s = MuRLock :: MuRUnlock :: evs
    /\ Forall noMu evs.
Proof.
  intros Hk. unfold events_of, lookup_wrapper. unfold_monad. simpl.
  set (s1 := with_trace _ (with_trace _ s)).
  destruct (Hk (clients (manager s) !! id) s1) as (evs & Ht & Hp).
  change (manager (with_trace _ s)) with (manager s).
  destruct (k _ s1) as [r s2]. simpl in *.
  exists evs. split; [|exact Hp].
  rewrite Ht. subst s1. simpl. rewrite <- !app_assoc, drop_app_length.
  reflexivity.
Qed.

Lemma MarkAsRead_shape id uid s :
  exists evs,
    events_of (MarkAsRead id uid) s = MuRLock :: MuRUnlock :: evs
    /\ Forall noMu evs.
Proof.
  unfold MarkAsRead. apply lookup_then_shape. intros [w|].
  - eapply emits_weaken;
      [apply session_io_noMu|apply Client_MarkAsRead_emits].
  - apply emits_ret.
Qed.

Lemma DeleteMessage_shape id uid s :
  exists evs,
    events_of (DeleteMessage id uid) s = MuRLock :: MuRUnlock :: evs
    /\ Forall noMu evs.
Proof.
  unfold DeleteMessage. apply lookup_then_shape. intros [w|].
  - eapply emits_weaken;
      [apply session_io_noMu|apply Client_DeleteMessage_emits].
  - apply emits_ret.
Qed.

Lemma MarkAsRead_discipline id uid s :
  scan false (events_of (MarkAsRead id uid) s) = Some false.
Proof.
  destruct (MarkAsRead_shape id uid s) as (evs & -> & Hevs).
  simpl. apply scan_noMu, Hevs.
Qed.

Lemma DeleteMessage_discipline id uid s :
  scan false (events_of (DeleteMessage id uid) s) = Some false.
Proof.
  destruct (DeleteMessage_shape id uid s) as (evs & -> & Hevs).
  simpl. apply scan_noMu, Hevs.
Qed.

(** Each operation of the manager's interface that uses the registry
    starts by taking its lock. *)
Lemma registry_operations_lock_first id uid acc s :
  head (events_of (GetStatus id) s) = Some MuRLock
  /\ head (events_of (MarkAsRead id uid) s) = Some MuRLock
  /\ head (events_of (DeleteMessage id uid) s) = Some MuRLock
  /\ head (events_of (RemoveAccount id) s) = Some MuLock
  /\ head (events_of StopAll s) = Some MuLock
  /\ head (events_of (AddAccount acc) s) = Some MuLock.
Proof.
  destruct (GetStatus_shape id s) as (e1 & -> & _).
  destruct (MarkAsRead_shape id uid s) as (e2 & -> & _).
  destruct (DeleteMessage_shape id uid s) as (e3 & -> & _).
  destruct (RemoveAccount_shape id s) as (e4 & -> & _).
  destruct (StopAll_shape s) as (e5 & -> & _).
  destruct (AddAccount_shape acc s) as (e6 & -> & _).
  repeat split.
Qed.

(** The first events of [AddAccount] for an account that has no
    session: the lock, then the dial. *)
Lemma AddAccount_dials_under_lock acc s :
  clients (manager s) !! models.ID acc = None ->
  exists rest,
    events_of (AddAccount acc) s
    = MuLock :: ClientLock (length (heap s))
        :: NetDial (models.IMAPServer acc) :: rest.
Proof.
  intros Hreg. destruct s as [n h cs cx sp tr ck m]. simpl in Hreg.
  unfold events_of, AddAccount, mu_Lock, Connect, SelectINBOX, Stop.
  unfold_monad.
  unfold with_trace, with_heap, with_conns, with_ctxs, with_spawned,
    with_clock, with_manager, deref. simpl. rewrite Hreg. simpl. heap_simpl.
  destruct (dial n (models.IMAPServer acc)) as [err|]; simpl.
  { rewrite <- !app_assoc, drop_app_length. simpl. eexists; reflexivity. }
  heap_simpl. destruct (greeting n (models.IMAPServer acc)); simpl.
  { rewrite <- !app_assoc, drop_app_length. simpl. eexists; reflexivity. }
  destruct (login n _ _ _); simpl.
  { rewrite <- !app_assoc, drop_app_length. simpl. eexists; reflexivity. }
  heap_simpl. unfold usable; simpl.
  destruct (select_inbox n _ _); simpl; heap_simpl;
    rewrite <- !app_assoc, drop_app_length; simpl; eexists; reflexivity.
Qed.

(** C3 (as amended): [GetStatus], [RemoveAccount], [StopAll],
    [MarkAsRead] and [DeleteMessage] never perform a network operation
    while they hold the registry lock, and [TestConnection] and the task
    of an account never take it.  [AddAccount] returns at once for an
    account that has a session; for one that has none it holds the
    exclusive lock from its first event to its last, and dials under it.
    Each operation that uses the registry starts by taking its lock, and
    while the lock is held exclusively a goroutine that is about to lock
    it, in either form, cannot move. *)
Theorem registry_lock_and_network :
  (forall id s, scan false (events_of (GetStatus id) s) = Some false)
  /\ (forall id s, scan false (events_of (RemoveAccount id) s) = Some false)
  /\ (forall s, scan false (events_of StopAll s) = Some false)
  /\ (forall id uid s,
        scan false (events_of (MarkAsRead id uid) s) = Some false)
  /\ (forall id uid s,
        scan false (events_of (DeleteMessage id uid) s) = Some false)
  /\ (forall email password server s,
        Forall noMu (events_of (TestConnection email password server) s))
  /\ (forall wrapper during s,
        Forall noMu (events_of (runClient wrapper during) s))
  /\ (forall acc s w,
        clients (manager s) !! models.ID acc = Some w ->
        events_of (AddAccount acc) s = [MuLock; MuUnlock])
  /\ (forall acc s,
        clients (manager s) !! models.ID acc = None ->
        scan false (events_of (AddAccount acc) s) = None
        /\ exists rest,
             events_of (AddAccount acc) s
             = MuLock :: ClientLock (length (heap s))
                 :: NetDial (models.IMAPServer acc) :: rest)
  /\ (forall id uid acc s,
        head (events_of (GetStatus id) s) = Some MuRLock
        /\ head (events_of (MarkAsRead id uid) s) = Some MuRLock
        /\ head (events_of (DeleteMessage id uid) s) = Some MuRLock
        /\ head (events_of (RemoveAccount id) s) = Some MuLock
        /\ head (events_of StopAll s) = Some MuLock
        /\ head (events_of (AddAccount acc) s) = Some MuLock)
  /\ (forall m e,
        writer m = true -> e = MuLock \/ e = MuRLock -> enabled m e = false).
Proof.
  split; [exact GetStatus_discipline|].
  split; [exact RemoveAccount_discipline|].
  split; [exact StopAll_discipline|].
  split; [exact MarkAsRead_discipline|].
  split; [exact DeleteMessage_discipline|].
  split; [intros; apply emits_events_of, TestConnection_emits|].
  split.
  { intros. apply emits_events_of.
    eapply emits_weaken; [apply loop_event_noMu|apply runClient_emits]. }
  split.
  { intros acc s w Hreg.
    apply (events_of_appended _ _ _ _ _ (AddAccount_registered _ _ _ Hreg)).
    reflexivity. }
  split.
  { intros acc s Hreg.
    destruct (AddAccount_dials_under_lock acc s Hreg) as (rest & Hev).
    split; [rewrite Hev; reflexivity|eauto]. }
  split; [exact registry_operations_lock_first|].
  intros m e Hw [-> | ->]; simpl; rewrite Hw; reflexivity.
Qed.

Lemma registry_lock_and_network_witness :
  events_of (AddAccount alice) (running []) = [MuLock; MuUnlock]
  /\ scan false (events_of (AddAccount bob) (running [])) = None
  /\ enabled {| writer := true; readers := 0 |} MuRLock = false.
Proof.
  destruct registry_lock_and_network
    as (_ & _ & _ & _ & _ & _ & _ & Hknown & Hfresh & _ & Hblocked).
  split; [|split].
  - apply (Hknown alice (running []) aliceWrapper). reflexivity.
  - apply (Hfresh bob (running [])). reflexivity.
  - apply Hblocked; [reflexivity|right; reflexivity].
Defined.

(** C3 (as stated) fails: [AddAccount] performs its network operations
    with the registry lock held, and while its dial is in progress a
    [GetStatus] for another account cannot take its first step. *)
Lemma connect_in_progress_blocks_GetStatus :
  let s := boot (serverOf []) in
  let adding := events_of (AddAccount alice) s in
  let asking := events_of (GetStatus 2) s in
  scan false adding = None
  /\ exists p,
       run {| mu := unlocked; left := adding; right := asking |}
         [MuLock; ClientLock 0] p
       /\ head (left p) = Some (NetDial "imap.example.org:993")
       /\ right p = asking
       /\ asking <> []
       /\ forall e p', sched p e p' -> right p' = asking.
Proof.
  vm_compute. split; [reflexivity|].
  eexists. split.
  { eapply run_step; [apply sched_left; reflexivity|].
    eapply run_step; [apply sched_left; reflexivity|]. apply run_done. }
  simpl. split; [reflexivity|]. split; [reflexivity|].
  split; [discriminate|].
  intros e p' Hs. inversion Hs; subst; [reflexivity|discriminate].
Qed.

Lemma AddAccount_success_registers acc s :
  fst (AddAccount acc s) = None ->
  exists w, clients (manager (snd (AddAccount acc s))) !! models.ID acc
            = Some w.
Proof.
  intros Hok. destruct (clients (manager s) !! models.ID acc) as [w|] eqn:Hreg.
  - exists w. rewrite (AddAccount_registered _ _ _ Hreg). exact Hreg.
  - destruct (AddAccount_fresh acc s Hreg) as [[Hfail _]|[_ Hadd]];
      [contradiction|].
    destruct Hadd as (Hm & _). rewrite Hm. simpl.
    eexists. apply lookup_insert_eq.
Qed.

(** C4: [AddAccount] for an account that has a session returns nil and
    changes nothing but the trace of the two lock operations.  In every
    reachable state the live sessions of an account are its registry
    entry, so there is at most one.  [AddAccount] holds the exclusive
    lock from its first event to its last, two such sections run one
    after the other, and of two calls for one identifier the second
    finds the session of the first: it changes nothing and exactly one
    session is live. *)
Theorem AddAccount_idempotent_one_session :
  (forall acc s w,
     clients (manager s) !! models.ID acc = Some w ->
     AddAccount acc s
     = (None, with_trace (fun t => t ++ [MuLock; MuUnlock]) s))
  /\ (forall s id,
        reachable s ->
        liveSessions s id
        = match clients (manager s) !! id with
          | Some w => [w]
          | None => []
          end)
  /\ (forall s id, reachable s -> (length (liveSessions s id) <= 1)%nat)
  /\ (forall acc s,
        exists evs,
          events_of (AddAccount acc) s = MuLock :: evs ++ [MuUnlock]
          /\ Forall noMu evs)
  /\ (forall body1 body2 order p,
        Forall noMu body1 -> Forall noMu body2 ->
        run {| mu := unlocked; left := MuLock :: body1 ++ [MuUnlock];
               right := MuLock :: body2 ++ [MuUnlock] |} order p ->
        left p = [] -> right p = [] ->
        order = (MuLock :: body1 ++ [MuUnlock])
                  ++ (MuLock :: body2 ++ [MuUnlock])
        \/ order = (MuLock :: body2 ++ [MuUnlock])
                     ++ (MuLock :: body1 ++ [MuUnlock]))
  /\ (forall acc acc' s,
        reachable s ->
        models.ID acc = models.ID acc' ->
        fst (AddAccount acc s) = None ->
        AddAccount acc' (snd (AddAccount acc s))
        = (None, with_trace (fun t => t ++ [MuLock; MuUnlock])
                   (snd (AddAccount acc s)))
        /\ exists w,
             liveSessions (snd (AddAccount acc' (snd (AddAccount acc s))))
               (models.ID acc) = [w]).
Proof.
  split; [exact AddAccount_registered|].
  split; [intros s id Hr; apply liveSessions_registry, reachable_Inv, Hr|].
  split.
  { intros s id Hr. rewrite (liveSessions_registry s id (reachable_Inv s Hr)).
    destruct (clients (manager s) !! id); simpl; lia. }
  split; [exact AddAccount_shape|].
  split; [exact critical_sections_serialised|].
  intros acc acc' s Hr Hid Hok.
  destruct (AddAccount_success_registers acc s Hok) as (w & Hw).
  assert (Hsecond : AddAccount acc' (snd (AddAccount acc s))
            = (None, with_trace (fun t => t ++ [MuLock; MuUnlock])
                       (snd (AddAccount acc s)))).
  { apply (AddAccount_registered acc' _ w). rewrite <- Hid. exact Hw. }
  split; [exact Hsecond|]. exists w.
  rewrite liveSessions_registry.
  - rewrite Hsecond. simpl. rewrite Hw. reflexivity.
  - apply (Inv_AddAccount acc'), (Inv_AddAccount acc), reachable_Inv, Hr.
Qed.

Lemma AddAccount_idempotent_one_session_witness :
  AddAccount alice (running [])
  = (None, with_trace (fun t => t ++ [MuLock; MuUnlock]) (running []))
  /\ exists w,
       liveSessions (snd (AddAccount alice (running []))) 1 = [w].
Proof.
  apply (proj2 (proj2 (proj2 (proj2 (proj2
           AddAccount_idempotent_one_session))))
           alice alice (boot (serverOf []))).
  - apply reachable_start. reflexivity.
  - reflexivity.
  - reflexivity.
Defined.

(** * Properties of the packages around the connection manager *)

(** ** The client *)

Ltac open_state :=
  unfold with_trace, with_heap, with_conns, with_ctxs, with_spawned,
    with_clock, with_manager, deref in *; simpl in *.

(** A valid pointer designates an object of the heap. *)
Lemma deref_valid s c :
  (c < length (heap s))%nat -> heap s !! c = Some (deref s c).
Proof.
  intros Hc. destruct (lookup_lt_is_Some_2 _ _ Hc) as [cl Hcl].
  unfold deref. rewrite Hcl. reflexivity.
Qed.

Lemma Connect_connected c s :
  connected (deref s c) = true ->
  Connect c s
  = (None, with_trace (fun t => t ++ [ClientLock c; ClientUnlock c]) s).
Proof.
  intros Hup. unfold Connect. unfold_monad. simpl.
  change (deref (with_trace _ s) c) with (deref s c). rewrite Hup.
  simpl. destruct s; tidy_trace; reflexivity.
Qed.

(** [Connect] on a client that is connected returns nil at once: it
    takes and releases the mutex of the client, dials nothing, and
    leaves the heap and the connections as they are. *)
Theorem Connect_on_a_connected_client c s :
  connected (deref s c) = true ->
  fst (Connect c s) = None
  /\ events_of (Connect c) s = [ClientLock c; ClientUnlock c]
  /\ heap (snd (Connect c s)) = heap s
  /\ conns (snd (Connect c s)) = conns s.
Proof.
  intros Hup. rewrite (Connect_connected c s Hup). simpl.
  split; [reflexivity|]. split; [|split; reflexivity].
  eapply events_of_appended; [apply Connect_connected, Hup|reflexivity].
Qed.

Lemma Connect_on_a_connected_client_witness :
  fst (Connect 0 (running [])) = None
  /\ events_of (Connect 0) (running []) = [ClientLock 0; ClientUnlock 0]
  /\ heap (snd (Connect 0 (running []))) = heap (running [])
  /\ conns (snd (Connect 0 (running []))) = conns (running []).
Proof.
  apply (Connect_on_a_connected_client 0 (running [])). reflexivity.
Defined.

Lemma isOpen_closed_last n h cs cx sp tr ck m peer0 conn n' h' cx' sp' tr'
    ck' m' :
  isOpen {| net := n; heap := h;
            conns := cs ++ [{| peer := peer0; open := false |}];
            ctxs := cx; spawned := sp; trace := tr; clock := ck;
            manager := m |} conn = true ->
  isOpen {| net := n'; heap := h'; conns := cs; ctxs := cx'; spawned := sp';
            trace := tr'; clock := ck'; manager := m' |} conn = true.
Proof.
  intros Ho. apply isOpen_snoc in Ho as [(_ & t' & Hl & Ho)|[_ Ho]];
    [|discriminate Ho].
  unfold isOpen; simpl. rewrite Hl. exact Ho.
Qed.

(** [Connect] on a client that is not connected returns nil exactly
    when the dial, the greeting and the login all succeed; the client
    is then connected over a new, open connection.  When it returns an
    error the client stays disconnected with the connection it had, and
    no connection is left open that was not open before: the one that
    was dialled is closed again. *)
Theorem Connect_outcome c s :
  (c < length (heap s))%nat ->
  connected (deref s c) = false ->
  let cfg := config (deref s c) in
  let s' := snd (Connect c s) in
  (fst (Connect c s) = None
   <-> dial (net s) (Server cfg) = None
       /\ greeting (net s) (Server cfg) = None
       /\ login (net s) (Server cfg) (Email cfg) (Password cfg) = None)
  /\ (fst (Connect c s) = None ->
      connected (deref s' c) = true
      /\ client (deref s' c) = Some (length (conns s))
      /\ isOpen s' (length (conns s)) = true)
  /\ (fst (Connect c s) <> None ->
      connected (deref s' c) = false
      /\ client (deref s' c) = client (deref s c)
      /\ forall conn, isOpen s' conn = true -> isOpen s conn = true).
Proof.
  intros Hc Hdown. cbv zeta.
  destruct s as [n h cs cx sp tr ck m].
  unfold Connect. unfold_monad. open_state.
  destruct (h !! c) as [cl|] eqn:Hcl;
    [|apply lookup_ge_None in Hcl; lia].
  simpl in *. rewrite Hdown.
  destruct (dial n _) as [e1|] eqn:Hd; simpl; rewrite ?Hd; simpl.
  { rewrite Hcl. simpl.
    split; [split; [discriminate|intros (? & _); discriminate]|].
    split; [discriminate|]. intros _. auto. }
  destruct (greeting n _) as [e2|] eqn:Hg; simpl; rewrite ?Hg; simpl.
  { rewrite Hcl, alter_snoc. simpl.
    split; [split; [discriminate|intros (_ & ? & _); discriminate]|].
    split; [discriminate|]. intros _. split; [exact Hdown|].
    split; [reflexivity|]. intros conn. apply isOpen_closed_last. }
  destruct (login n _ _ _) as [e3|] eqn:Hl; simpl; rewrite ?Hl; simpl.
  { rewrite Hcl, alter_snoc. simpl.
    split; [split; [discriminate|intros (_ & _ & ?); discriminate]|].
    split; [discriminate|]. intros _. split; [exact Hdown|].
    split; [reflexivity|]. intros conn. apply isOpen_closed_last. }
  rewrite list_lookup_alter_eq, Hcl. simpl.
  split; [split; auto|]. split.
  - intros _. split; [reflexivity|]. split; [reflexivity|].
    unfold isOpen. simpl. rewrite lookup_snoc. reflexivity.
  - intros H. contradiction H. reflexivity.
Qed.

Lemma Connect_outcome_witness :
  connected (deref (snd (Connect 0 (snd (handleDisconnect 0 (running [])))))
               0) = true
  /\ client (deref (snd (Connect 0 (snd (handleDisconnect 0 (running [])))))
               0)
     = Some (length (conns (snd (handleDisconnect 0 (running [])))))
  /\ isOpen (snd (Connect 0 (snd (handleDisconnect 0 (running [])))))
       (length (conns (snd (handleDisconnect 0 (running []))))) = true.
Proof.
  assert (Hc : (0 < length (heap (snd (handleDisconnect 0 (running [])))))%nat)
    by (vm_compute; lia).
  assert (Hdown : connected (deref (snd (handleDisconnect 0 (running []))) 0)
                  = false) by reflexivity.
  apply (proj1 (proj2 (Connect_outcome 0
                         (snd (handleDisconnect 0 (running []))) Hc Hdown))).
  reflexivity.
Defined.

Lemma Client_MarkAsRead_run c uid s :
  Client_MarkAsRead c uid s =
    match usable (deref s c) with
    | None =>
        (Some "not connected"%string,
         with_trace (fun t => t ++ [ClientLock c; ClientUnlock c]) s)
    | Some conn =>
        let set := imap.AddNum [] uid in
        (match uid_store (net s) (Server (config (deref s c)))
                 (Email (config (deref s c))) set "\Seen" with
         | Some err => Go.Errorf "failed to mark as read: " err
         | None => None
         end,
         with_trace (fun t => t ++ [ClientLock c;
                                    NetUidStore conn set "\Seen";
                                    ClientUnlock c]) s)
    end.
Proof.
  unfold Client_MarkAsRead; unfold_monad; simpl.
  change (deref (with_trace _ s) c) with (deref s c).
  destruct (usable (deref s c)) as [conn|]; simpl.
  - destruct (uid_store _ _ _ _ _); simpl; tidy_trace; reflexivity.
  - tidy_trace; reflexivity.
Qed.

Lemma Client_DeleteMessage_run c uid s :
  Client_DeleteMessage c uid s =
    match usable (deref s c) with
    | None =>
        (Some "not connected"%string,
         with_trace (fun t => t ++ [ClientLock c; ClientUnlock c]) s)
    | Some conn =>
        let set := imap.AddNum [] uid in
        let cfg := config (deref s c) in
        match uid_store (net s) (Server cfg) (Email cfg) set "\Deleted" with
        | Some err =>
            (Go.Errorf "failed to mark as deleted: " err,
             with_trace (fun t => t ++ [ClientLock c;
                                        NetUidStore conn set "\Deleted";
                                        ClientUnlock c]) s)
        | None =>
            (match expunge (net s) (Server cfg) (Email cfg) with
             | Some err => Go.Errorf "failed to expunge: " err
             | None => None
             end,
             with_trace (fun t => t ++ [ClientLock c;
                                        NetUidStore conn set "\Deleted";
                                        NetExpunge conn;
                                        ClientUnlock c]) s)
        end
    end.
Proof.
  unfold Client_DeleteMessage; unfold_monad; simpl.
  change (deref (with_trace _ s) c) with (deref s c).
  destruct (usable (deref s c)) as [conn|]; simpl.
  - destruct (uid_store _ _ _ _ _); simpl; [tidy_trace; reflexivity|].
    destruct (expunge _ _ _); simpl; tidy_trace; reflexivity.
  - tidy_trace; reflexivity.
Qed.

(** Without a connection every operation of the client fails with
    ["not connected"], touches neither the network nor the heap, and
    [FetchNewMessages] returns no message. *)
Theorem operations_need_a_connection c s :
  usable (deref s c) = None ->
  let unchanged :=
    with_trace (fun t => t ++ [ClientLock c; ClientUnlock c]) s in
  SelectINBOX c s = (Some "not connected"%string, unchanged)
  /\ (forall sinceUID,
        FetchNewMessages c sinceUID s
        = (([], Some "not connected"%string), unchanged))
  /\ (forall uid,
        Client_MarkAsRead c uid s = (Some "not connected"%string, unchanged))
  /\ (forall uid,
        Client_DeleteMessage c uid s
        = (Some "not connected"%string, unchanged)).
Proof.
  intros Hu. cbv zeta.
  split; [rewrite SelectINBOX_run, Hu; reflexivity|].
  split; [intros k; rewrite FetchNewMessages_run, Hu; reflexivity|].
  split; intros uid.
  - rewrite Client_MarkAsRead_run, Hu. reflexivity.
  - rewrite Client_DeleteMessage_run, Hu. reflexivity.
Qed.

Lemma operations_need_a_connection_witness :
  SelectINBOX 0 (snd (NewClient (clientConfigOf
     (manager (boot (serverOf []))) "alice@example.org" "secret"
     "imap.example.org:993") (boot (serverOf []))))
  = (Some "not connected"%string,
     with_trace (fun t => t ++ [ClientLock 0; ClientUnlock 0])
       (snd (NewClient (clientConfigOf
         (manager (boot (serverOf []))) "alice@example.org" "secret"
         "imap.example.org:993") (boot (serverOf []))))).
Proof.
  apply (operations_need_a_connection 0
           (snd (NewClient (clientConfigOf
              (manager (boot (serverOf []))) "alice@example.org" "secret"
              "imap.example.org:993") (boot (serverOf []))))).
  reflexivity.
Defined.

(** [MarkAsRead] sends one [UID STORE] that adds [\Seen] to the one
    message and nothing else.  [DeleteMessage] sends the [UID STORE] of
    [\Deleted] and then, only if the store succeeded, [EXPUNGE]; it
    returns nil only if both succeeded. *)
Theorem flag_then_expunge c uid s conn :
  usable (deref s c) = Some conn ->
  let cfg := config (deref s c) in
  let one := [{| imap.Start := uid; imap.Stop := uid |}] in
  let seen := uid_store (net s) (Server cfg) (Email cfg) one "\Seen" in
  let deleted := uid_store (net s) (Server cfg) (Email cfg) one "\Deleted" in
  let expunged := expunge (net s) (Server cfg) (Email cfg) in
  events_of (Client_MarkAsRead c uid) s
  = [ClientLock c; NetUidStore conn one "\Seen"; ClientUnlock c]
  /\ (fst (Client_MarkAsRead c uid s) = None <-> seen = None)
  /\ events_of (Client_DeleteMessage c uid) s
     = [ClientLock c; NetUidStore conn one "\Deleted"]
       ++ match deleted with
          | Some _ => []
          | None => [NetExpunge conn]
          end
       ++ [ClientUnlock c]
  /\ (fst (Client_DeleteMessage c uid s) = None
      <-> deleted = None /\ expunged = None).
Proof.
  intros Hu. cbv zeta. unfold events_of.
  rewrite Client_MarkAsRead_run, Client_DeleteMessage_run, Hu. cbv zeta.
  unfold imap.AddNum. simpl.
  split; [apply drop_app_length|].
  split.
  { destruct (uid_store _ _ _ _ "\Seen"); simpl;
      split; intros H; try discriminate; reflexivity. }
  destruct (uid_store _ _ _ _ "\Deleted"); simpl.
  - split; [apply drop_app_length|].
    split; [discriminate|intros [H _]; discriminate].
  - split; [apply drop_app_length|].
    destruct (expunge _ _ _); simpl; split; try discriminate; auto.
    intros [_ H]; discriminate.
Qed.

Lemma flag_then_expunge_witness :
  events_of (Client_DeleteMessage 0 7) (running [])
  = [ClientLock 0;
     NetUidStore 0 [{| imap.Start := 7; imap.Stop := 7 |}] "\Deleted";
     NetExpunge 0; ClientUnlock 0].
Proof.
  apply (flag_then_expunge 0 7 (running []) 0%nat). reflexivity.
Defined.

Lemma Stop_stopped c s :
  stopped (deref s c) = true ->
  Stop c s
  = (tt, with_trace (fun t => t ++ [ClientLock c; ClientUnlock c]) s).
Proof.
  intros Hst. unfold Stop. unfold_monad. simpl.
  change (deref (with_trace _ s) c) with (deref s c). rewrite Hst.
  destruct s; tidy_trace; reflexivity.
Qed.

(** [Stop] may be called again: the second call finds the client
    stopped and only takes and releases its mutex.  A call that finds
    the client running closes the stop channel, once, leaves the client
    without connection and hands the connection it had to a teardown
    goroutine. *)
Theorem Stop_is_idempotent c s :
  (c < length (heap s))%nat ->
  let s1 := snd (Stop c s) in
  stopped (deref s1 c) = true
  /\ Stop c s1
     = (tt, with_trace (fun t => t ++ [ClientLock c; ClientUnlock c]) s1)
  /\ (stopped (deref s c) = false ->
      connected (deref s1 c) = false
      /\ client (deref s1 c) = None
      /\ stopCh (deref s1 c) = true
      /\ events_of (Stop c) s
         = [ClientLock c; ClientUnlock c; CloseStopCh c]
           ++ match client (deref s c) with
              | Some conn => [GoSpawn (teardown_task conn)]
              | None => []
              end).
Proof.
  intros Hc. cbv zeta.
  assert (Hst1 : stopped (deref (snd (Stop c s)) c) = true).
  { apply Stop_effect, Hc. }
  split; [exact Hst1|]. split; [apply Stop_stopped, Hst1|].
  intros Hst. destruct s as [n h cs cx sp tr ck m].
  unfold events_of, Stop. unfold_monad. open_state.
  destruct (h !! c) as [cl|] eqn:Hcl; [|apply lookup_ge_None in Hcl; lia].
  simpl in *. rewrite Hst. simpl.
  destruct (client cl); simpl;
    rewrite !list_lookup_alter_eq, Hcl; simpl;
    rewrite <- ?app_assoc, drop_app_length; auto.
Qed.

Lemma Stop_is_idempotent_witness :
  Stop 0 (snd (Stop 0 (running [])))
  = (tt, with_trace (fun t => t ++ [ClientLock 0; ClientUnlock 0])
           (snd (Stop 0 (running [])))).
Proof.
  apply (Stop_is_idempotent 0 (running [])). vm_compute. lia.
Defined.

(** [handleDisconnect] leaves the client without connection: the one
    it had is logged out of and closed, and the flags of [Stop] are not
    touched. *)
Theorem handleDisconnect_drops_the_connection c s :
  (c < length (heap s))%nat ->
  let s1 := snd (handleDisconnect c s) in
  connected (deref s1 c) = false
  /\ client (deref s1 c) = None
  /\ stopped (deref s1 c) = stopped (deref s c)
  /\ stopCh (deref s1 c) = stopCh (deref s c)
  /\ events_of (handleDisconnect c) s
     = [ClientLock c]
       ++ match client (deref s c) with
          | Some conn => [NetLogout conn]
          | None => []
          end
       ++ [ClientUnlock c]
  /\ (forall conn, client (deref s c) = Some conn -> isOpen s1 conn = false)
  /\ (forall conn, isOpen s1 conn = true -> isOpen s conn = true).
Proof.
  intros Hc. cbv zeta. destruct s as [n h cs cx sp tr ck m].
  unfold events_of, handleDisconnect. unfold_monad. open_state.
  destruct (h !! c) as [cl|] eqn:Hcl; [|apply lookup_ge_None in Hcl; lia].
  simpl in *.
  destruct (client cl) as [conn|] eqn:Hconn; simpl;
    rewrite !list_lookup_alter_eq, Hcl; simpl;
    rewrite <- ?app_assoc, drop_app_length.
  - repeat split; auto.
    + intros conn' Heq. injection Heq as <-. unfold isOpen; simpl.
      rewrite list_lookup_alter_eq. destruct (cs !! conn); reflexivity.
    + intros conn'. unfold isOpen; simpl.
      destruct (decide (conn = conn')) as [->|Hne].
      * rewrite list_lookup_alter_eq. destruct (cs !! conn'); discriminate.
      * rewrite list_lookup_alter_ne by exact Hne. auto.
  - repeat split; auto. intros conn Heq. discriminate Heq.
Qed.

Lemma handleDisconnect_drops_the_connection_witness :
  connected (deref (snd (handleDisconnect 0 (running []))) 0) = false.
Proof.
  apply (handleDisconnect_drops_the_connection 0 (running [])).
  vm_compute. lia.
Defined.

Lemma highestOf_from uids : forall start,
  fold_left (fun highest uid => if highest <? uid then uid else highest)
    uids start
  = fold_left Z.max uids start.
Proof.
  induction uids as [|u us IH]; intros start; simpl; [reflexivity|].
  rewrite IH. f_equal. destruct (start <? u) eqn:H.
  - apply Z.ltb_lt in H. lia.
  - apply Z.ltb_ge in H. lia.
Qed.

Lemma fold_max_ge uids : forall start,
  start <= fold_left Z.max uids start
  /\ Forall (fun u => u <= fold_left Z.max uids start) uids.
Proof.
  induction uids as [|u us IH]; intros start; simpl.
  - split; [lia|constructor].
  - destruct (IH (Z.max start u)) as (Hge & Hall). split; [lia|].
    constructor; [lia|exact Hall].
Qed.

Lemma fold_max_in uids : forall start,
  fold_left Z.max uids start = start
  \/ In (fold_left Z.max uids start) uids.
Proof.
  induction uids as [|u us IH]; intros start; simpl; [auto|].
  destruct (IH (Z.max start u)) as [H|H]; [|auto].
  rewrite H. destruct (Z.max_spec start u) as [[_ ->]|[_ ->]]; auto.
Qed.

(** [GetHighestUID] answers with the largest of the identifiers the
    search returns, and with zero when it returns none; without a
    connection, or when the search fails, it answers zero and an
    error. *)
Theorem GetHighestUID_is_the_maximum search c s :
  let cfg := config (deref s c) in
  let r := fst (GetHighestUID search c s) in
  (usable (deref s c) = None -> r = (0, Some "not connected"%string))
  /\ (forall conn uids,
        usable (deref s c) = Some conn ->
        search (Server cfg) (Email cfg) = (uids, None) ->
        Forall (fun u => 0 <= u) uids ->
        snd r = None
        /\ Forall (fun u => u <= fst r) uids
        /\ (uids = [] -> fst r = 0)
        /\ (uids <> [] -> In (fst r) uids))
  /\ (forall conn uids err,
        usable (deref s c) = Some conn ->
        search (Server cfg) (Email cfg) = (uids, Some err) ->
        r = (0, Some ("failed to search: " +:+ err))).
Proof.
  cbv zeta. unfold GetHighestUID. unfold_monad. cbn [fst snd].
  change (deref (with_trace _ s) c) with (deref s c).
  split; [intros ->; reflexivity|]. split.
  - intros conn uids -> -> Hpos. unfold highestOf.
    destruct uids as [|u us]; [repeat split; auto; contradiction|].
    cbn [length Nat.eqb fst snd]. rewrite highestOf_from.
    destruct (fold_max_ge (u :: us) 0) as (H0 & Hall).
    split; [reflexivity|]. split; [exact Hall|].
    split; [discriminate|]. intros _.
    destruct (fold_max_in (u :: us) 0) as [Hz|Hin]; [|exact Hin].
    rewrite Hz. rewrite Hz in Hall.
    apply Forall_cons in Hpos as (Hu & _).
    apply Forall_cons in Hall as (Hu' & _).
    left. lia.
  - intros conn uids err -> ->. reflexivity.
Qed.

Lemma GetHighestUID_is_the_maximum_witness :
  In (fst (fst (GetHighestUID (fun _ _ => ([3; 9; 4], None)) 0
                  (running []))))
    [3; 9; 4].
Proof.
  destruct (GetHighestUID_is_the_maximum (fun _ _ => ([3; 9; 4], None)) 0
              (running [])) as (_ & H & _).
  apply (H 0%nat [3; 9; 4]);
    [reflexivity|reflexivity|repeat constructor; lia|discriminate].
Defined.

(** ** The manager *)

Lemma GetStatus_run id s :
  GetStatus id s
  = match clients (manager s) !! id with
    | None =>
        ("disconnected"%string,
         with_trace (fun t => t ++ [MuRLock; MuRUnlock]) s)
    | Some w =>
        ((if connected (deref s (wrapper_client w))
          then "connected" else "reconnecting")%string,
         with_trace (fun t => t ++ [MuRLock; ClientLock (wrapper_client w);
                                    ClientUnlock (wrapper_client w);
                                    MuRUnlock]) s)
    end.
Proof.
  unfold GetStatus, IsConnected. unfold_monad. simpl.
  destruct (clients (manager s) !! id) as [w|]; simpl.
  - change (deref (with_trace _ (with_trace _ s)) ?c) with (deref s c).
    destruct (connected _); destruct s; tidy_trace; reflexivity.
  - destruct s; tidy_trace; reflexivity.
Qed.

Lemma lookup_wrapper_run id s :
  lookup_wrapper id s
  = (clients (manager s) !! id,
     with_trace (fun t => t ++ [MuRLock; MuRUnlock]) s).
Proof.
  unfold lookup_wrapper. unfold_monad. simpl.
  destruct s; tidy_trace; reflexivity.
Qed.

(** An account the registry does not hold: [RemoveAccount],
    [MarkAsRead] and [DeleteMessage] return nil and [GetStatus] answers
    ["disconnected"]; each takes and releases the registry lock and
    does nothing else. *)
Theorem unknown_account_is_ignored id s :
  clients (manager s) !! id = None ->
  RemoveAccount id s
  = (None, with_trace (fun t => t ++ [MuLock; MuUnlock]) s)
  /\ GetStatus id s
     = ("disconnected"%string,
        with_trace (fun t => t ++ [MuRLock; MuRUnlock]) s)
  /\ (forall uid,
        MarkAsRead id uid s
        = (None, with_trace (fun t => t ++ [MuRLock; MuRUnlock]) s))
  /\ (forall uid,
        DeleteMessage id uid s
        = (None, with_trace (fun t => t ++ [MuRLock; MuRUnlock]) s)).
Proof.
  intros Hreg. split; [apply RemoveAccount_absent, Hreg|].
  split; [rewrite GetStatus_run, Hreg; reflexivity|].
  split; intros uid.
  - unfold MarkAsRead. unfold bind. rewrite lookup_wrapper_run, Hreg.
    reflexivity.
  - unfold DeleteMessage. unfold bind. rewrite lookup_wrapper_run, Hreg.
    reflexivity.
Qed.

Lemma unknown_account_is_ignored_witness :
  MarkAsRead 2 7 (running [])
  = (None, with_trace (fun t => t ++ [MuRLock; MuRUnlock]) (running [])).
Proof.
  apply (unknown_account_is_ignored 2 (running [])). reflexivity.
Defined.

(** What [AddAccount] returns for an account that has no session: the
    first failure among dial, greeting, login (with the stored password
    as the decryption function returns it) and selection, with the
    prefix of the step that failed; nil when all four succeed.  When it
    returns an error the registry is as before and no session has been
    started. *)
Theorem AddAccount_result acc s :
  clients (manager s) !! models.ID acc = None ->
  let server := models.IMAPServer acc in
  let user := models.Email acc in
  fst (AddAccount acc s)
  = match dial (net s) server with
    | Some e => Some ("failed to connect: " +:+ e)
    | None =>
    match greeting (net s) server with
    | Some e => Some ("failed to create IMAP client: " +:+ e)
    | None =>
    match login (net s) server user (passwordOf (manager s) acc) with
    | Some e => Some ("failed to login: " +:+ e)
    | None =>
    match select_inbox (net s) server user with
    | Some e => Some ("failed to select INBOX: " +:+ e)
    | None => None
    end end end end
  /\ (fst (AddAccount acc s) <> None ->
      manager (snd (AddAccount acc s)) = manager s
      /\ sessions (snd (AddAccount acc s)) = sessions s).
Proof.
  intros Hreg. cbv zeta. split.
  - destruct s as [n h cs cx sp tr ck m]. simpl in Hreg.
    unfold AddAccount, mu_Lock, Connect, SelectINBOX, Stop, passwordOf.
    unfold_monad. open_state. rewrite Hreg. simpl. heap_simpl.
    destruct (dial n _) as [e1|]; simpl; [reflexivity|].
    heap_simpl. destruct (greeting n _) as [e2|]; simpl; [reflexivity|].
    destruct (login n _ _ _) as [e3|]; simpl; [reflexivity|].
    heap_simpl. unfold usable; simpl.
    destruct (select_inbox n _ _) as [e4|]; simpl; heap_simpl; reflexivity.
  - intros Hfail.
    destruct (AddAccount_fresh acc s Hreg) as [[_ Hst]|[Hok _]];
      [|contradiction].
    destruct Hst as (Hm & Hs & _). auto.
Qed.

Lemma AddAccount_result_witness :
  fst (AddAccount bob (running [])) = None.
Proof.
  apply (AddAccount_result bob (running [])). reflexivity.
Defined.

(** The state [AddAccount] leaves when it has started a session, in
    full. *)
Lemma AddAccount_started acc s :
  clients (manager s) !! models.ID acc = None ->
  fst (AddAccount acc s) = None ->
  let c := length (heap s) in
  let conn := length (conns s) in
  let w := {| wrapper_client := c; account := acc;
              ctx := length (ctxs s) |} in
  let cfg := clientConfigOf (manager s) (models.Email acc)
               (passwordOf (manager s) acc) (models.IMAPServer acc) in
  snd (AddAccount acc s)
  = {| net := net s;
       heap := heap s ++ [{| config := cfg; client := Some conn;
                             connected := true; stopCh := false;
                             stopped := false |}];
       conns := conns s ++ [{| peer := models.IMAPServer acc;
                               open := true |}];
       ctxs := ctxs s ++ [false];
       spawned := spawned s ++ [runClient_task w];
       trace := trace s ++ [MuLock; ClientLock c;
                            NetDial (models.IMAPServer acc);
                            NetGreeting conn; NetLogin conn; ClientUnlock c;
                            ClientLock c; NetSelect conn; ClientUnlock c;
                            GoSpawn (runClient_task w); MuUnlock];
       clock := clock s;
       manager := with_clients (insert (models.ID acc) w) (manager s) |}.
Proof.
  intros Hreg. cbv zeta. destruct s as [n h cs cx sp tr ck m].
  simpl in Hreg.
  unfold AddAccount, mu_Lock, Connect, SelectINBOX, Stop, passwordOf.
  unfold_monad. open_state. rewrite Hreg. simpl. heap_simpl.
  destruct (dial n _) as [e1|]; simpl; [discriminate|].
  heap_simpl. destruct (greeting n _) as [e2|]; simpl; [discriminate|].
  destruct (login n _ _ _) as [e3|]; simpl; [discriminate|].
  heap_simpl. unfold usable; simpl.
  destruct (select_inbox n _ _) as [e4|]; simpl; heap_simpl;
    [discriminate|].
  intros _. rewrite <- !app_assoc. reflexivity.
Qed.

(** The status of an account over its life: ["connected"] once
    [AddAccount] has returned nil, ["reconnecting"] when its client has
    lost the connection, ["disconnected"] after [RemoveAccount] and
    after [StopAll]. *)
Theorem status_follows_the_lifecycle acc s :
  clients (manager s) !! models.ID acc = None ->
  fst (AddAccount acc s) = None ->
  let id := models.ID acc in
  let s1 := snd (AddAccount acc s) in
  fst (GetStatus id s1) = "connected"%string
  /\ fst (GetStatus id (snd (handleDisconnect (length (heap s)) s1)))
     = "reconnecting"%string
  /\ fst (GetStatus id (snd (RemoveAccount id s1))) = "disconnected"%string
  /\ fst (GetStatus id (snd (StopAll s1))) = "disconnected"%string.
Proof.
  intros Hreg Hok. cbv zeta.
  pose proof (AddAccount_started acc s Hreg Hok) as Hs1. cbv zeta in Hs1.
  assert (Hw : clients (manager (snd (AddAccount acc s))) !! models.ID acc
               = Some {| wrapper_client := length (heap s); account := acc;
                         ctx := length (ctxs s) |}).
  { rewrite Hs1. simpl. apply lookup_insert_eq. }
  split; [|split; [|split]].
  - rewrite GetStatus_run, Hw. simpl. rewrite Hs1. unfold deref. simpl.
    rewrite lookup_snoc. reflexivity.
  - rewrite GetStatus_run.
    replace (manager (snd (handleDisconnect _ _)))
      with (manager (snd (AddAccount acc s)))
      by (symmetry; apply handleDisconnect_frames).
    rewrite Hw. simpl.
    rewrite Hs1. unfold handleDisconnect. unfold_monad. open_state.
    heap_simpl. reflexivity.
  - rewrite GetStatus_run.
    destruct (RemoveAccount_present _ _ _ Hw) as (Hm & _).
    rewrite Hm. simpl. rewrite lookup_delete_eq. reflexivity.
  - rewrite GetStatus_run, StopAll_run. simpl.
    destruct (stopEach_effect (map_to_list (clients (manager
                (snd (AddAccount acc s)))))
                (with_trace (fun t => t ++ [MuLock])
                   (snd (AddAccount acc s)))) as (_ & _ & Hgone).
    rewrite Hgone; [reflexivity|].
    apply in_map_iff. eexists (_, _). split; [reflexivity|].
    apply list_elem_of_In, elem_of_map_to_list. exact Hw.
Qed.

Lemma status_follows_the_lifecycle_witness :
  fst (GetStatus 2 (snd (AddAccount bob (running [])))) = "connected"%string.
Proof.
  apply (status_follows_the_lifecycle bob (running [])); reflexivity.
Defined.

(** [stopEach] removes keys only: one that the registry does not hold
    is not there afterwards either. *)
Lemma stopEach_keeps_absent entries : forall s k,
  clients (manager s) !! k = None ->
  clients (manager (snd (stopEach entries s))) !! k = None.
Proof.
  induction entries as [|[i x] es IH]; intros s k Hnone; [exact Hnone|].
  rewrite stopEach_cons. apply IH. simpl.
  pose proof (Stop_effect (wrapper_client x)
    (with_ctxs (fun l => <[ctx x := true]> l)
       (with_trace (fun t => t ++ [CtxCancel (ctx x)]) s))) as (Hm & _).
  rewrite Hm. simpl.
  destruct (decide (i = k)) as [->|Hik]; [apply lookup_delete_eq|].
  rewrite lookup_delete_ne by exact Hik. exact Hnone.
Qed.

Lemma StopAll_registry s : clients (manager (snd (StopAll s))) = ∅.
Proof.
  rewrite StopAll_run. simpl. apply map_empty. intros k.
  destruct (stopEach_effect (map_to_list (clients (manager s)))
              (with_trace (fun t => t ++ [MuLock]) s)) as (_ & _ & Hgone).
  destruct (clients (manager s) !! k) as [w|] eqn:Hk.
  - apply Hgone. apply in_map_iff. exists (k, w). split; [reflexivity|].
    apply list_elem_of_In, elem_of_map_to_list. exact Hk.
  - apply stopEach_keeps_absent. exact Hk.
Qed.

(** Cancelling and stopping are not undone by [Stop] or the removal
    from the registry. *)
Lemma Stop_ctxs c s : ctxs (snd (Stop c s)) = ctxs s.
Proof.
  unfold Stop. unfold_monad. simpl.
  destruct (stopped _); [reflexivity|].
  destruct (client _); reflexivity.
Qed.

Lemma stopEach_cancels entries : forall s,
  (forall x, cancelled s x = true ->
     cancelled (snd (stopEach entries s)) x = true)
  /\ (forall id w, In (id, w) entries ->
        (ctx w < length (ctxs s))%nat ->
        cancelled (snd (stopEach entries s)) (ctx w) = true)
  /\ length (ctxs (snd (stopEach entries s))) = length (ctxs s).
Proof.
  induction entries as [|[id w] rest IH]; intros s.
  - simpl. split; [auto|]. split; [intros ? ? []|reflexivity].
  - rewrite stopEach_cons.
    set (s1 := with_manager _ _).
    assert (Hcx : ctxs s1 = <[ctx w := true]> (ctxs s)).
    { subst s1. simpl. rewrite Stop_ctxs. reflexivity. }
    destruct (IH s1) as (Hmono & Hrest & Hlen).
    assert (Hstep : forall x, cancelled s x = true -> cancelled s1 x = true).
    { intros x Hx. unfold cancelled in *. rewrite Hcx.
      destruct (decide (ctx w = x)) as [<-|Hne].
      - destruct (ctxs s !! ctx w) eqn:Hl; [|discriminate Hx].
        rewrite list_lookup_insert_eq by (eapply lookup_lt_Some; eauto).
        reflexivity.
      - rewrite list_lookup_insert_ne by exact Hne. exact Hx. }
    split; [intros x Hx; apply Hmono, Hstep, Hx|]. split.
    + intros id' w' [Heq|Hin] Hv.
      * injection Heq as <- <-. apply Hmono. unfold cancelled.
        rewrite Hcx, list_lookup_insert_eq by exact Hv. reflexivity.
      * apply (Hrest id' w' Hin). rewrite Hcx, length_insert. exact Hv.
    + rewrite Hlen, Hcx, length_insert. reflexivity.
Qed.

Lemma with_clients_same f m :
  f (clients m) = clients m -> with_clients f m = m.
Proof. intros H. destruct m. unfold with_clients. simpl in *. congruence. Qed.

Lemma insert_snoc {A} (l : list A) (x y : A) :
  <[length l := y]> (l ++ [x]) = l ++ [y].
Proof. induction l as [|a l IH]; simpl; [reflexivity|]. f_equal. exact IH. Qed.

(** [Stop], run. *)
Lemma Stop_run c s :
  Stop c s
  = (tt,
     if stopped (deref s c)
     then with_trace (fun t => t ++ [ClientLock c; ClientUnlock c]) s
     else
       let s1 :=
         with_heap (fun h => alter close_stopCh c (alter set_stopped c h))
           s in
       match client (deref s c) with
       | Some conn =>
           with_spawned (fun l => l ++ [teardown_task conn])
             (with_trace (fun t => t ++ [ClientLock c; ClientUnlock c;
                                         CloseStopCh c;
                                         GoSpawn (teardown_task conn)]) s1)
       | None =>
           with_trace (fun t => t ++ [ClientLock c; ClientUnlock c;
                                      CloseStopCh c]) s1
       end).
Proof.
  unfold Stop. unfold_monad. cbn [fst snd].
  change (deref (with_trace _ s) c) with (deref s c).
  destruct (stopped (deref s c)).
  - destruct s; unfold with_trace; cbn [trace]; rewrite <- !app_assoc;
      reflexivity.
  - destruct (client (deref s c)); destruct s;
      unfold with_trace, with_heap, with_spawned;
      cbn [net heap conns ctxs spawned trace clock manager];
      rewrite <- !app_assoc; reflexivity.
Qed.

(** Evaluation of the state transformers on a state given by its
    fields; the result has one copy of each field. *)
Ltac state_eval :=
  lazy [with_trace with_heap with_conns with_ctxs with_spawned with_clock
        with_manager with_net deref
        net heap conns ctxs spawned trace clock manager fst snd
        config client connected stopCh stopped wrapper_client account ctx
        peer open default from_option id clients manager_config onMessage
        onError decryptFunc].

(** [RemoveAccount] after an [AddAccount] that returned nil returns
    nil and puts the registry back as it was.  The client of the
    session is stopped and its context cancelled; its connection is
    handed to a teardown goroutine, so it is still open when
    [RemoveAccount] returns and closed once the teardown has run. *)
Theorem add_then_remove_restores_registry acc s :
  clients (manager s) !! models.ID acc = None ->
  fst (AddAccount acc s) = None ->
  let s2 := snd (RemoveAccount (models.ID acc) (snd (AddAccount acc s))) in
  let c := length (heap s) in
  let conn := length (conns s) in
  fst (RemoveAccount (models.ID acc) (snd (AddAccount acc s))) = None
  /\ manager s2 = manager s
  /\ stopped (deref s2 c) = true
  /\ cancelled s2 (length (ctxs s)) = true
  /\ spawned s2
     = spawned s ++ [runClient_task {| wrapper_client := c; account := acc;
                                       ctx := length (ctxs s) |};
                     teardown_task conn]
  /\ isOpen s2 conn = true
  /\ isOpen (snd (teardown conn s2)) conn = false.
Proof.
  intros Hreg Hok. cbv zeta.
  pose proof (AddAccount_started acc s Hreg Hok) as Hs1. cbv zeta in Hs1.
  set (w := {| wrapper_client := length (heap s); account := acc;
               ctx := length (ctxs s) |}) in *.
  assert (Hw : clients (manager (snd (AddAccount acc s))) !! models.ID acc
               = Some w).
  { rewrite Hs1. apply lookup_insert_eq. }
  rewrite (RemoveAccount_present_run _ _ _ Hw). rewrite Hs1.
  clear Hs1 Hw Hok. subst w.
  rewrite Stop_run. destruct s as [n h cs cx sp tr ck m].
  state_eval. rewrite lookup_snoc. state_eval.
  rewrite !alter_snoc. unfold set_stopped, close_stopCh. state_eval.
  cbn [manager] in Hreg.
  split; [reflexivity|]. split.
  { destruct m as [registry mc om oe df]. unfold with_clients.
    cbn [clients manager_config onMessage onError decryptFunc] in *.
    rewrite delete_insert_id by exact Hreg. reflexivity. }
  rewrite lookup_snoc. state_eval.
  split; [reflexivity|]. split.
  { unfold cancelled. state_eval.
    rewrite insert_snoc, lookup_snoc. reflexivity. }
  split; [rewrite <- !app_assoc; reflexivity|]. split.
  - unfold isOpen. state_eval. rewrite lookup_snoc. reflexivity.
  - unfold teardown. unfold_monad. state_eval.
    destruct (logout_in_time n (length cs)); unfold isOpen; state_eval;
      rewrite alter_snoc, lookup_snoc; reflexivity.
Qed.

Lemma add_then_remove_restores_registry_witness :
  manager (snd (RemoveAccount 2 (snd (AddAccount bob (running [])))))
  = manager (running []).
Proof.
  apply (add_then_remove_restores_registry bob (running [])); reflexivity.
Defined.

(** A turn of the loop of a client whose stop channel is closed, or
    whose context is cancelled, returns at once: nothing is done. *)
Lemma StartIDLE_turn_ends {St} c ctx (f : St -> M St) st d s :
  cancelled s ctx = true \/ stopCh (deref s c) = true ->
  exists err, StartIDLE_turn c ctx f st d s = ((Return err, st), s).
Proof.
  intros H. unfold StartIDLE_turn. unfold_monad.
  fold (cancelled s ctx).
  destruct (cancelled s ctx); [eexists; reflexivity|].
  destruct H as [H|H]; [discriminate H|]. rewrite H. eexists; reflexivity.
Qed.

Lemma StartIDLE_ends {St} c ctx (f : St -> M St) st d rest s :
  cancelled s ctx = true \/ stopCh (deref s c) = true ->
  exists err, StartIDLE c ctx f st (d :: rest) s = ((Return err, st), s).
Proof.
  intros H. destruct (StartIDLE_turn_ends c ctx f st d s H) as (err & Hrun).
  exists err. simpl. unfold bind. rewrite Hrun. reflexivity.
Qed.

(** The stop channel of a client that is closed, or whose client is not
    stopped yet, is in that case after any [Stop]. *)
Lemma Stop_stopCh c' c s :
  stopCh (deref s c) = true \/ stopped (deref s c) = false ->
  stopCh (deref (snd (Stop c' s)) c) = true
  \/ stopped (deref (snd (Stop c' s)) c) = false.
Proof.
  intros H. destruct s as [n h cs cx sp tr ck m].
  unfold Stop. unfold_monad. open_state.
  destruct (stopped (default zeroClient (h !! c'))) eqn:Hst; simpl;
    [exact H|].
  destruct (decide (c' = c)) as [->|Hne].
  - destruct (h !! c) as [cl|] eqn:Hcl; simpl in *.
    + left. destruct (client cl); simpl;
        rewrite !list_lookup_alter_eq, Hcl; reflexivity.
    + destruct (client zeroClient); simpl;
        rewrite !list_lookup_alter_eq, Hcl; simpl; exact H.
  - destruct (client (default zeroClient (h !! c'))); simpl;
      rewrite !list_lookup_alter_ne by exact Hne; exact H.
Qed.

Lemma stopEach_stopCh entries c : forall s,
  stopCh (deref s c) = true \/ stopped (deref s c) = false ->
  stopCh (deref (snd (stopEach entries s)) c) = true
  \/ stopped (deref (snd (stopEach entries s)) c) = false.
Proof.
  induction entries as [|[id w] rest IH]; intros s H; [exact H|].
  rewrite stopEach_cons. apply IH.
  change (deref (with_manager _ ?s0) c) with (deref s0 c).
  apply Stop_stopCh. exact H.
Qed.

(** Once its account is removed, or all accounts are stopped, the loop
    of a session ends at its next turn: [StartIDLE] returns without a
    network operation, a wait or a call of the handler. *)
Theorem removed_account_loop_ends s id w :
  reachable s ->
  clients (manager s) !! id = Some w ->
  forall (onNewMail : Z -> M Z) lastUID d rest,
    (exists err,
       StartIDLE (wrapper_client w) (ctx w) onNewMail lastUID (d :: rest)
         (snd (RemoveAccount id s))
       = ((Return err, lastUID), snd (RemoveAccount id s)))
    /\ (exists err,
          StartIDLE (wrapper_client w) (ctx w) onNewMail lastUID (d :: rest)
            (snd (StopAll s))
          = ((Return err, lastUID), snd (StopAll s))).
Proof.
  intros Hr Hw onNewMail lastUID d rest.
  destruct (reachable_Inv s Hr) as (_ & Hval & Hregd & _).
  destruct (Hregd id w Hw) as (Hin & _ & Hlive).
  specialize (Hval w Hin). unfold live in Hlive.
  apply negb_true_iff in Hlive.
  split; apply StartIDLE_ends; right.
  - destruct (RemoveAccount_present id s w Hw) as (_ & _ & _ & _ & Hst).
    specialize (Hst Hval). revert Hst.
    rewrite (RemoveAccount_present_run _ _ _ Hw). cbn [snd].
    change (deref (with_trace ?f ?s0) ?c) with (deref s0 c).
    change (deref (with_manager ?f ?s0) ?c) with (deref s0 c).
    intros Hst.
    destruct (Stop_stopCh (wrapper_client w) (wrapper_client w)
                (with_ctxs (fun l => <[ctx w := true]> l)
                   (with_trace (fun t => t ++ [MuLock; CtxCancel (ctx w)])
                      s))) as [Hc|Hn]; [right; exact Hlive|exact Hc|].
    rewrite Hn in Hst. discriminate Hst.
  - destruct (stopEach_effect (map_to_list (clients (manager s)))
                (with_trace (fun t => t ++ [MuLock]) s)) as (_ & Hst & _).
    specialize (Hst id w).
    rewrite StopAll_run.
    change (deref (with_trace ?f ?s0) ?c) with (deref s0 c).
    destruct (stopEach_stopCh (map_to_list (clients (manager s)))
                (wrapper_client w)
                (with_trace (fun t => t ++ [MuLock]) s)) as [Hc|Hn];
      [right; exact Hlive|exact Hc|].
    rewrite Hst in Hn; [discriminate Hn| |exact Hval].
    apply list_elem_of_In, elem_of_map_to_list. exact Hw.
Qed.

Lemma running_reachable mb : reachable (running mb).
Proof.
  apply (reachable_step _ (DoAddAccount alice));
    [apply reachable_start; reflexivity|exact I].
Qed.

Lemma removed_account_loop_ends_witness :
  exists err,
    StartIDLE (wrapper_client aliceWrapper) (ctx aliceWrapper)
      (fetchNewMessages aliceWrapper) 0 [undisturbed]
      (snd (RemoveAccount 1 (running [])))
    = ((Return err, 0), snd (RemoveAccount 1 (running []))).
Proof.
  assert (Hreg : clients (manager (running [])) !! 1 = Some aliceWrapper)
    by (vm_compute; reflexivity).
  exact (proj1 (removed_account_loop_ends (running []) 1 aliceWrapper
                  (running_reachable []) Hreg
                  (fetchNewMessages aliceWrapper) 0 undisturbed [])).
Defined.

(** [StopAll] empties the registry and leaves no session live. *)
Theorem StopAll_stops_everything s :
  reachable s ->
  let s' := snd (StopAll s) in
  clients (manager s') = ∅
  /\ (forall id, liveSessions s' id = [])
  /\ (forall id w, clients (manager s) !! id = Some w ->
        stopped (deref s' (wrapper_client w)) = true)
  /\ (forall id, fst (GetStatus id s') = "disconnected"%string)
  /\ sessions s' = sessions s.
Proof.
  intros Hr. cbv zeta. pose proof (reachable_Inv s Hr) as Hinv.
  pose proof (StopAll_registry s) as Hempty.
  split; [exact Hempty|]. split; [|split; [|split]].
  - intros id. rewrite liveSessions_registry by apply Inv_StopAll, Hinv.
    rewrite Hempty, lookup_empty. reflexivity.
  - intros id w Hw. destruct Hinv as (_ & Hval & Hregd & _).
    destruct (Hregd id w Hw) as (Hin & _).
    rewrite StopAll_run.
    change (deref (with_trace _ ?s0) ?c) with (deref s0 c).
    destruct (stopEach_effect (map_to_list (clients (manager s)))
                (with_trace (fun t => t ++ [MuLock]) s)) as (_ & Hst & _).
    apply (Hst id w); [|apply Hval, Hin].
    apply list_elem_of_In, elem_of_map_to_list. exact Hw.
  - intros id. rewrite GetStatus_run, Hempty, lookup_empty. reflexivity.
  - rewrite StopAll_run. simpl.
    destruct (stopEach_effect (map_to_list (clients (manager s)))
                (with_trace (fun t => t ++ [MuLock]) s)) as ((Hs & _) & _).
    exact Hs.
Qed.

Lemma StopAll_stops_everything_witness :
  clients (manager (snd (StopAll (running [])))) = ∅.
Proof.
  exact (proj1 (StopAll_stops_everything (running [])
                  (running_reachable []))).
Defined.

(** ** The fetch cycle and the loop of a session *)

Lemma reported_OnMessage accountID emails :
  reported (map (OnMessage accountID) emails) = [].
Proof. induction emails as [|e rest IH]; [reflexivity|exact IH]. Qed.

Lemma delivered_session_io evs : Forall session_io evs -> delivered evs = [].
Proof.
  induction 1 as [|e evs He _ IH]; [reflexivity|].
  destruct e; try contradiction; exact IH.
Qed.

Lemma reported_session_io evs : Forall session_io evs -> reported evs = [].
Proof.
  induction 1 as [|e evs He _ IH]; [reflexivity|].
  destruct e; try contradiction; exact IH.
Qed.

Lemma reported_app tr1 tr2 :
  reported (tr1 ++ tr2) = reported tr1 ++ reported tr2.
Proof. unfold reported. apply omap_app. Qed.

(** One invocation of [fetchNewMessages], run: the operations on the
    session, then the calls of the handlers. *)
Lemma fetchNewMessages_trace wrapper lastUID s :
  fetchNewMessages wrapper lastUID s
  = (match failure wrapper lastUID s with
     | Some _ => lastUID
     | None => fold_left advance (batch wrapper lastUID s) lastUID
     end,
     with_trace (fun t => t ++ cycle_io wrapper lastUID s ++
       match failure wrapper lastUID s with
       | Some err =>
           if onError (manager s)
           then [OnError (models.ID (account wrapper)) err] else []
       | None =>
           if onMessage (manager s)
           then map (OnMessage (models.ID (account wrapper)))
                  (batch wrapper lastUID s)
           else []
       end) s).
Proof.
  unfold failure, batch, cycle_io, fetchNewMessages.
  unfold bind at 1. rewrite SelectINBOX_run.
  destruct (usable (deref s (wrapper_client wrapper))) as [conn|] eqn:Hu.
  - destruct (select_inbox _ _ _) as [e|] eqn:Hsel.
    + unfold_monad; simpl. destruct (onError (manager s)); simpl;
        destruct s; tidy_trace; reflexivity.
    + unfold bind at 1. rewrite FetchNewMessages_run.
      change (deref (with_trace _ s) ?c) with (deref s c).
      rewrite Hu. cbv zeta.
      change (net (with_trace _ s)) with (net s).
      destruct (uid_fetch _ _ _ _) as [messages [e|]]; simpl.
      * unfold_monad; simpl. destruct (onError (manager s)); simpl;
          destruct s; tidy_trace; reflexivity.
      * rewrite process_run. simpl.
        destruct (onMessage (manager s)); destruct s; tidy_trace;
          reflexivity.
  - unfold_monad; simpl. destruct (onError (manager s)); simpl;
      destruct s; tidy_trace; reflexivity.
Qed.

Lemma cycle_io_session wrapper lastUID s :
  Forall session_io (cycle_io wrapper lastUID s).
Proof.
  unfold cycle_io. destruct (usable _); [|repeat constructor].
  destruct (select_inbox _ _ _); repeat constructor.
Qed.

(** A fetch cycle that fails is reported once to the error handler,
    when there is one, with the cause; no message is handed to the
    message handler, also when the server had sent some before the
    fetch failed, and the tracked identifier keeps its value.  A cycle
    that does not fail reports nothing. *)
Theorem failed_cycle_is_reported_once wrapper lastUID s :
  (forall err,
     failure wrapper lastUID s = Some err ->
     fst (fetchNewMessages wrapper lastUID s) = lastUID
     /\ delivered (events_of (fetchNewMessages wrapper lastUID) s) = []
     /\ reported (events_of (fetchNewMessages wrapper lastUID) s)
        = if onError (manager s)
          then [(models.ID (account wrapper), err)] else [])
  /\ (failure wrapper lastUID s = None ->
      reported (events_of (fetchNewMessages wrapper lastUID) s) = []).
Proof.
  pose proof (cycle_io_session wrapper lastUID s) as Hio.
  unfold events_of. rewrite fetchNewMessages_trace. cbn [fst snd].
  unfold with_trace; cbn [trace]. rewrite drop_app_length.
  rewrite delivered_app, reported_app.
  rewrite (delivered_session_io _ Hio), (reported_session_io _ Hio).
  split.
  - intros err Herr. rewrite Herr.
    destruct (onError (manager s)); auto.
  - intros Hnone. rewrite Hnone.
    destruct (onMessage (manager s)); [|reflexivity].
    apply reported_OnMessage.
Qed.

Lemma failed_cycle_is_reported_once_witness :
  reported (events_of (fetchNewMessages aliceWrapper 0)
              (snd (handleDisconnect 0 (running []))))
  = [(1, "not connected"%string)].
Proof.
  apply (proj1 (failed_cycle_is_reported_once aliceWrapper 0
                  (snd (handleDisconnect 0 (running []))))
           "not connected"%string).
  reflexivity.
Defined.

Lemma waits_app tr1 tr2 : waits (tr1 ++ tr2) = waits tr1 ++ waits tr2.
Proof. unfold waits. apply omap_app. Qed.

Lemma selections_app tr1 tr2 :
  selections (tr1 ++ tr2) = (selections tr1 + selections tr2)%nat.
Proof. unfold selections. rewrite List.filter_app. apply length_app. Qed.

Lemma handler_calls wrapper lastUID s :
  let calls :=
    match failure wrapper lastUID s with
    | Some err =>
        if onError (manager s)
        then [OnError (models.ID (account wrapper)) err] else []
    | None =>
        if onMessage (manager s)
        then map (OnMessage (models.ID (account wrapper)))
               (batch wrapper lastUID s)
        else []
    end in
  waits calls = [] /\ selections calls = 0%nat.
Proof.
  cbv zeta. destruct (failure _ _ _).
  - destruct (onError _); split; reflexivity.
  - destruct (onMessage _); [|split; reflexivity].
    induction (batch wrapper lastUID s) as [|m ms IH]; [split; reflexivity|].
    exact IH.
Qed.

Lemma fetchNewMessages_state wrapper lastUID s :
  exists evs,
    snd (fetchNewMessages wrapper lastUID s)
    = with_trace (fun t => t ++ evs) s
    /\ waits evs = []
    /\ (forall conn,
          usable (deref s (wrapper_client wrapper)) = Some conn ->
          selections evs = 1%nat).
Proof.
  rewrite fetchNewMessages_trace. cbn [snd]. eexists. split; [reflexivity|].
  destruct (handler_calls wrapper lastUID s) as (Hw & Hs).
  rewrite waits_app, selections_app, Hw, Hs. split.
  - rewrite app_nil_r. unfold cycle_io. destruct (usable _); [|reflexivity].
    destruct (select_inbox _ _ _); reflexivity.
  - intros conn Hu. unfold cycle_io. rewrite Hu.
    destruct (select_inbox _ _ _); reflexivity.
Qed.

Lemma deref_with_trace f s c : deref (with_trace f s) c = deref s c.
Proof. reflexivity. Qed.

Lemma usable_client cl conn : usable cl = Some conn -> client cl = Some conn.
Proof. unfold usable. destruct (connected cl); [auto|discriminate]. Qed.

(** A turn of the loop of a waiting session that nothing interrupts:
    the wait of fifteen seconds, then one fetch cycle. *)
Lemma StartIDLE_turn_polls wrapper lastUID s :
  waiting s wrapper ->
  let c := wrapper_client wrapper in
  StartIDLE_turn c (ctx wrapper) (fetchNewMessages wrapper) lastUID
    undisturbed s
  = let r := fetchNewMessages wrapper lastUID
               (with_clock (fun t => t + 15 * Go.Second)
                  (with_trace (fun t => t ++ [ClientLock c; ClientUnlock c;
                                              ClientLock c; ClientUnlock c;
                                              Waited (15 * Go.Second)]) s))
    in ((Next, fst r), snd r).
Proof.
  intros ((conn & Hu) & Hst & Hcx). cbv zeta.
  unfold StartIDLE_turn. unfold_monad. fold (cancelled s (ctx wrapper)).
  rewrite Hcx, Hst, !deref_with_trace, Hu. cbv beta iota.
  rewrite !deref_with_trace, (usable_client _ _ Hu).
  change (awaitIdle _ undisturbed) with (IdleDone None, 15 * Go.Second).
  cbv iota beta.
  match goal with
  | |- (let (_, _) := fetchNewMessages _ _ ?a in _) = 
       (_, snd (fetchNewMessages _ _ ?b)) =>
      replace a with b by (destruct s; tidy_trace; reflexivity)
  end.
  destruct (fetchNewMessages _ _ _) as [k s2]. reflexivity.
Qed.

Lemma waiting_same s s' wrapper :
  heap s' = heap s -> ctxs s' = ctxs s ->
  waiting s wrapper -> waiting s' wrapper.
Proof.
  unfold waiting, cancelled, deref. intros -> ->. auto.
Qed.

(** [n] turns of the loop of a waiting session that nothing
    interrupts. *)
Lemma StartIDLE_polls wrapper n : forall lastUID s,
  waiting s wrapper ->
  exists evs,
    let r := StartIDLE (wrapper_client wrapper) (ctx wrapper)
               (fetchNewMessages wrapper) lastUID
               (replicate n undisturbed) s in
    fst (fst r) = Next
    /\ trace (snd r) = trace s ++ evs
    /\ waits evs = replicate n (15 * Go.Second)
    /\ selections evs = n
    /\ clock (snd r) = clock s + Z.of_nat n * (15 * Go.Second)
    /\ heap (snd r) = heap s /\ ctxs (snd r) = ctxs s.
Proof.
  induction n as [|n IH]; intros lastUID s Hw.
  - exists []. cbn [replicate StartIDLE]. unfold ret. cbn [fst snd].
    rewrite app_nil_r. repeat split; try reflexivity. lia.
  - cbn [replicate StartIDLE]. unfold bind.
    rewrite (StartIDLE_turn_polls wrapper lastUID s Hw). cbv zeta.
    set (s1 := with_clock _ _).
    destruct (fetchNewMessages_state wrapper lastUID s1)
      as (evs1 & Hs2 & Hw1 & Hsel1).
    destruct (fetchNewMessages wrapper lastUID s1) as [k s2].
    cbn [fst snd] in *.
    assert (Hw2 : waiting s2 wrapper).
    { apply (waiting_same s); [rewrite Hs2; reflexivity..|exact Hw]. }
    destruct (IH k s2 Hw2) as (evs & Hnext & Htr & Hwaits & Hsel & Hck
                               & Hh & Hcx).
    cbv zeta in *.
    exists ([ClientLock (wrapper_client wrapper);
             ClientUnlock (wrapper_client wrapper);
             ClientLock (wrapper_client wrapper);
             ClientUnlock (wrapper_client wrapper);
             Waited (15 * Go.Second)] ++ evs1 ++ evs).
    split; [exact Hnext|].
    split; [rewrite Htr, Hs2; subst s1; unfold with_trace, with_clock;
            cbn [trace]; rewrite <- !app_assoc; reflexivity|].
    split.
    { rewrite !waits_app, Hw1, Hwaits. reflexivity. }
    split.
    { destruct Hw as ((conn & Hu) & _).
      rewrite !selections_app, (Hsel1 conn Hu), Hsel. reflexivity. }
    split.
    { rewrite Hck, Hs2. subst s1. unfold with_trace, with_clock.
      cbn [clock]. lia. }
    split; [rewrite Hh, Hs2; reflexivity|rewrite Hcx, Hs2; reflexivity].
Qed.

(** The task of a connected account that nothing interrupts does one
    fetch cycle at its start and one after each wait, and each wait
    lasts fifteen seconds, whatever [IMAP_IDLE_TIMEOUT] is. *)
Theorem session_polls_every_fifteen_seconds wrapper n s :
  waiting s wrapper ->
  let run := runClient wrapper (replicate n undisturbed) in
  fst (fst (run s)) = Next
  /\ waits (events_of run s) = replicate n (15 * Go.Second)
  /\ selections (events_of run s) = S n
  /\ clock (snd (run s)) = clock s + Z.of_nat n * (15 * Go.Second).
Proof.
  intros Hw. cbv zeta. unfold events_of, runClient. unfold bind.
  destruct (fetchNewMessages_state wrapper
              (models.LastUID (account wrapper)) s)
    as (evs0 & Hs1 & Hw0 & Hsel0).
  destruct (fetchNewMessages wrapper _ s) as [k s1]. cbn [fst snd] in *.
  assert (Hw1 : waiting s1 wrapper).
  { apply (waiting_same s); [rewrite Hs1; reflexivity..|exact Hw]. }
  destruct (StartIDLE_polls wrapper n k s1 Hw1)
    as (evs & Hnext & Htr & Hwaits & Hsel & Hck & _).
  cbv zeta in *. split; [exact Hnext|].
  destruct Hw as ((conn & Hu) & _).
  assert (Hev : drop (length (trace s))
                  (trace (snd (StartIDLE (wrapper_client wrapper)
                                 (ctx wrapper) (fetchNewMessages wrapper) k
                                 (replicate n undisturbed) s1)))
                = evs0 ++ evs).
  { rewrite Htr, Hs1. unfold with_trace; cbn [trace].
    rewrite <- app_assoc. apply drop_app_length. }
  rewrite Hev, waits_app, selections_app, Hw0, Hwaits, Hsel, (Hsel0 conn Hu).
  split; [reflexivity|]. split; [reflexivity|].
  rewrite Hck, Hs1. reflexivity.
Qed.

Lemma session_polls_every_fifteen_seconds_witness :
  waits (events_of (runClient aliceWrapper (replicate 3 undisturbed))
           (running []))
  = replicate 3 (15 * Go.Second).
Proof.
  apply (session_polls_every_fifteen_seconds aliceWrapper 3 (running [])).
  split; [exists 0%nat; reflexivity|split; reflexivity].
Defined.

(** A turn of the loop that finds the client without connection calls
    [Connect].  When that fails, or the selection after it, the turn
    sleeps ten seconds and the loop goes on.  When both succeed the
    turn reaches the second [c.mu.Unlock()] with every [Lock] of the
    client's mutex already matched by an [Unlock]: the process stops
    with the run-time error of unlocking an unlocked mutex, and the
    handler is not called. *)
Theorem reconnect_unlocks_twice c ctx (onNewMail : Z -> M Z) lastUID d s :
  (c < length (heap s))%nat ->
  cancelled s ctx = false ->
  stopCh (deref s c) = false ->
  connected (deref s c) = false ->
  let cfg := config (deref s c) in
  let turn := StartIDLE_turn c ctx onNewMail lastUID d in
  let conn := length (conns s) in
  let connects :=
    dial (net s) (Server cfg) = None
    /\ greeting (net s) (Server cfg) = None
    /\ login (net s) (Server cfg) (Email cfg) (Password cfg) = None in
  (connects -> select_inbox (net s) (Server cfg) (Email cfg) = None ->
   fst (turn s) = (Fatal "sync: unlock of unlocked mutex", lastUID)
   /\ events_of turn s
      = [ClientLock c; ClientUnlock c;
         ClientLock c; NetDial (Server cfg); NetGreeting conn;
         NetLogin conn; ClientUnlock c;
         ClientLock c; NetSelect conn; ClientUnlock c])
  /\ (~ connects \/ select_inbox (net s) (Server cfg) (Email cfg) <> None ->
      fst (turn s) = (Next, lastUID)
      /\ clock (snd (turn s)) = clock s + 10 * Go.Second).
Proof.
  intros Hc Hcx Hst Hdown. cbv zeta.
  destruct s as [n h cs cx sp tr ck m].
  unfold events_of, StartIDLE_turn, Connect, SelectINBOX.
  unfold cancelled in Hcx.
  unfold_monad. open_state. rewrite Hcx.
  destruct (h !! c) as [cl|] eqn:Hcl; [|apply lookup_ge_None in Hcl; lia].
  simpl in *.
  assert (Hu : usable cl = None) by (unfold usable; rewrite Hdown; auto).
  rewrite Hst. cbn [heap]. rewrite !Hcl. simpl.
  rewrite !Hu. simpl. rewrite ?Hcl. simpl. rewrite ?Hdown.
  destruct (dial n _) as [e1|] eqn:Hd; simpl; rewrite ?Hd; simpl.
  { split; [intros (H & _); discriminate H|]. intros _. auto. }
  destruct (greeting n _) as [e2|] eqn:Hg; simpl; rewrite ?Hg; simpl.
  { split; [intros (_ & H & _); discriminate H|]. intros _. auto. }
  destruct (login n _ _ _) as [e3|] eqn:Hl; simpl; rewrite ?Hl; simpl.
  { split; [intros (_ & _ & H); discriminate H|]. intros _. auto. }
  rewrite list_lookup_alter_eq, Hcl. simpl. unfold usable. simpl.
  destruct (select_inbox n _ _) as [e4|] eqn:Hs; simpl; rewrite ?Hs; simpl.
  { split; [intros _ H; discriminate H|]. intros _. auto. }
  split.
  - intros _ _. split; [reflexivity|].
    rewrite <- !app_assoc. apply drop_app_length.
  - intros [H|H]; [contradiction H; auto|contradiction H; reflexivity].
Qed.

Lemma reconnect_unlocks_twice_witness :
  fst (StartIDLE_turn 0 0 (fetchNewMessages aliceWrapper) 0 undisturbed
         (snd (handleDisconnect 0 (running []))))
  = (Fatal "sync: unlock of unlocked mutex", 0).
Proof.
  apply (reconnect_unlocks_twice 0 0 (fetchNewMessages aliceWrapper) 0
           undisturbed (snd (handleDisconnect 0 (running []))));
    try reflexivity.
  - vm_compute. lia.
  - repeat split.
Defined.

(** ** Strings *)
Lemma length_append (x y : string) :
  String.length (x +:+ y) = (String.length x + String.length y)%nat.
Proof.
  induction x as [|c x IH]; simpl; [reflexivity|]. rewrite IH. reflexivity.
Qed.

Lemma substring_all (y : string) : substring 0 (String.length y) y = y.
Proof. induction y as [|c y IH]; simpl; [reflexivity|]. rewrite IH. reflexivity. Qed.

Lemma substring_append_l (x y : string) :
  substring 0 (String.length x) (x +:+ y) = x.
Proof.
  induction x as [|c x IH]; simpl; [destruct y; reflexivity|].
  rewrite IH. reflexivity.
Qed.

Lemma substring_append_r (x y : string) n :
  substring (String.length x) n (x +:+ y) = substring 0 n y.
Proof. induction x as [|c x IH]; simpl; [reflexivity|exact IH]. Qed.

Lemma TrimSuffix_append (x suffix : string) :
  Go.TrimSuffix (x +:+ suffix) suffix = x.
Proof.
  unfold Go.TrimSuffix, Go.HasSuffix. rewrite length_append.
  replace (String.length x + String.length suffix - String.length suffix)%nat
    with (String.length x) by lia.
  rewrite substring_append_r, substring_all, String.eqb_refl.
  replace (String.length suffix <=? String.length x + String.length suffix)%nat
    with true by (symmetry; apply Nat.leb_le; lia).
  simpl. apply substring_append_l.
Qed.

Lemma Split_without s sep :
  occurrences sep s = 0%nat -> Go.Split s sep = [s].
Proof.
  unfold occurrences. induction s as [|c s IH]; simpl; [reflexivity|].
  rewrite (Ascii.eqb_sym sep c). destruct (Ascii.eqb c sep); simpl;
    [discriminate|].
  intros H. rewrite (IH H). reflexivity.
Qed.

Lemma Split_at (l d : string) sep :
  occurrences sep l = 0%nat ->
  Go.Split (l +:+ String sep d) sep = l :: Go.Split d sep.
Proof.
  unfold occurrences. induction l as [|c l IH]; simpl.
  - intros _. rewrite Ascii.eqb_refl. reflexivity.
  - rewrite (Ascii.eqb_sym sep c). destruct (Ascii.eqb c sep) eqn:Hc; simpl;
      [discriminate|].
    intros H. rewrite (IH H). reflexivity.
Qed.

Lemma Split_address (l d : string) :
  occurrences "@" l = 0%nat -> occurrences "@" d = 0%nat ->
  Go.Split (l +:+ "@" +:+ d) "@" = [l; d].
Proof.
  intros Hl Hd. change (l +:+ "@" +:+ d) with (l +:+ String "@" d).
  rewrite (Split_at _ _ _ Hl), (Split_without _ _ Hd). reflexivity.
Qed.

Lemma Split_two s sep :
  length (Go.Split s sep) = 2%nat <-> occurrences sep s = 1%nat.
Proof. rewrite Split_length. unfold occurrences. lia. Qed.

(** ** The resolver *)
(** An address is accepted when it has exactly one [@]; any other is
    answered with the error ["invalid email format"] without a probe,
    and [GetDomainFromEmail] gives the empty string for it.  An
    accepted address is never answered with an error, whatever the
    network does. *)
Theorem resolver_accepts_one_at_sign ToLower network email :
  let answer := resolver.ResolveIMAPServer ToLower network email in
  (snd (fst answer) = None <-> occurrences "@" email = 1%nat)
  /\ (occurrences "@" email <> 1%nat ->
      answer = ((EmptyString, Some "invalid email format"%string), [])
      /\ resolver.GetDomainFromEmail ToLower email = EmptyString).
Proof.
  cbv zeta. rewrite <- Split_two.
  unfold resolver.ResolveIMAPServer, resolver.GetDomainFromEmail.
  destruct (Go.Split email "@") as [|a [|b [|c rest]]]; cbn [length fst snd];
    try (split; [split; [discriminate|intros H; discriminate H]
                |intros _; split; reflexivity]).
  split; [|intros H; contradiction H; reflexivity].
  split; [reflexivity|]. intros _.
  destruct (resolver.knownIMAPServers !! ToLower b); [reflexivity|].
  destruct (resolver.tryPatterns _ _) as [[p|] log]; [reflexivity|].
  destruct (resolver.resolveViaMX _ _) as [[srv [e|]] more];
    [reflexivity|].
  destruct (String.eqb srv EmptyString); reflexivity.
Qed.

Lemma resolver_accepts_one_at_sign_witness :
  resolver.ResolveIMAPServer Go.ToLowerASCII resolver.exampleOrg "nobody"
  = ((EmptyString, Some "invalid email format"%string), [])
  /\ resolver.GetDomainFromEmail Go.ToLowerASCII "nobody" = EmptyString.
Proof.
  apply (proj2 (resolver_accepts_one_at_sign Go.ToLowerASCII
                  resolver.exampleOrg "nobody")).
  discriminate.
Defined.

(** The answer depends on the domain only: two addresses with the same
    domain get the same answer after the same probes, and
    [GetDomainFromEmail] gives the lower-cased domain. *)
Theorem resolver_ignores_the_local_part ToLower network l1 l2 d :
  occurrences "@" l1 = 0%nat -> occurrences "@" l2 = 0%nat ->
  occurrences "@" d = 0%nat ->
  resolver.ResolveIMAPServer ToLower network (l1 +:+ "@" +:+ d)
  = resolver.ResolveIMAPServer ToLower network (l2 +:+ "@" +:+ d)
  /\ resolver.GetDomainFromEmail ToLower (l1 +:+ "@" +:+ d) = ToLower d.
Proof.
  intros H1 H2 Hd.
  unfold resolver.ResolveIMAPServer, resolver.GetDomainFromEmail.
  rewrite (Split_address l1 d H1 Hd), (Split_address l2 d H2 Hd).
  split; reflexivity.
Qed.

Lemma resolver_ignores_the_local_part_witness :
  resolver.ResolveIMAPServer Go.ToLowerASCII resolver.exampleOrg
    ("alice" +:+ "@" +:+ "unknown-domain.test")
  = resolver.ResolveIMAPServer Go.ToLowerASCII resolver.exampleOrg
      ("bob" +:+ "@" +:+ "unknown-domain.test").
Proof.
  apply (resolver_ignores_the_local_part Go.ToLowerASCII resolver.exampleOrg
           "alice" "bob" "unknown-domain.test"); reflexivity.
Defined.

Lemma hostPort_993 host : resolver.hostPort host 993 = host +:+ ":993".
Proof. reflexivity. Qed.

Lemma checkIMAPServer_pattern network host :
  resolver.checkIMAPServer network
    (Go.TrimSuffix (host +:+ ":993") ":993") 993
  = (resolver.reachable network (host +:+ ":993"),
     [resolver.DialTCP (host +:+ ":993")]).
Proof.
  rewrite TrimSuffix_append. unfold resolver.checkIMAPServer.
  rewrite hostPort_993. reflexivity.
Qed.

(** For a domain that is not in the table the conventional names are
    tried in the order [imap.], [mail.], bare domain, and the first
    that accepts a connection is the answer: nothing is asked after it.
    The MX records are looked up only when none of the three answers;
    when that gives nothing either, the answer is [imap.] followed by
    the domain, without an error. *)
Theorem resolver_tries_conventional_names ToLower network email l raw :
  Go.Split email "@" = [l; raw] ->
  resolver.knownIMAPServers !! ToLower raw = None ->
  let d := ToLower raw in
  let imapName := "imap." +:+ d +:+ ":993" in
  let mailName := "mail." +:+ d +:+ ":993" in
  let bareName := d +:+ ":993" in
  let up := resolver.reachable network in
  let answer := resolver.ResolveIMAPServer ToLower network email in
  (up imapName = true ->
   answer = ((imapName, None), [resolver.DialTCP imapName]))
  /\ (up imapName = false -> up mailName = true ->
      answer = ((mailName, None),
                [resolver.DialTCP imapName; resolver.DialTCP mailName]))
  /\ (up imapName = false -> up mailName = false -> up bareName = true ->
      answer = ((bareName, None),
                [resolver.DialTCP imapName; resolver.DialTCP mailName;
                 resolver.DialTCP bareName]))
  /\ (up imapName = false -> up mailName = false -> up bareName = false ->
      snd answer
      = [resolver.DialTCP imapName; resolver.DialTCP mailName;
         resolver.DialTCP bareName]
        ++ snd (resolver.resolveViaMX network d)
      /\ (snd (fst (resolver.resolveViaMX network d)) <> None ->
          fst answer = (imapName, None)))
  /\ (resolver.mx network d = None \/ resolver.mx network d = Some [] ->
      snd (resolver.resolveViaMX network d) = [resolver.LookupMX d]
      /\ snd (fst (resolver.resolveViaMX network d)) <> None).
Proof.
  intros Hsplit Hknown. cbv zeta.
  unfold resolver.ResolveIMAPServer. rewrite Hsplit, Hknown.
  cbn [resolver.tryPatterns].
  change ("imap." +:+ ToLower raw +:+ ":993")
    with (("imap." +:+ ToLower raw) +:+ ":993").
  change ("mail." +:+ ToLower raw +:+ ":993")
    with (("mail." +:+ ToLower raw) +:+ ":993").
  rewrite !checkIMAPServer_pattern.
  split; [intros ->; reflexivity|].
  split; [intros -> ->; reflexivity|].
  split; [intros -> -> ->; reflexivity|].
  split.
  - intros -> -> ->. cbv iota beta.
    destruct (resolver.resolveViaMX network (ToLower raw))
      as [[srv [e|]] more]; cbn [fst snd].
    + split; [reflexivity|]. intros _. reflexivity.
    + destruct (String.eqb srv EmptyString); cbn [fst snd];
        (split; [reflexivity|intros H; contradiction H; reflexivity]).
  - unfold resolver.resolveViaMX. intros [-> | ->]; cbn [fst snd];
      (split; [reflexivity|discriminate]).
Qed.

Lemma resolver_tries_conventional_names_witness :
  snd (resolver.ResolveIMAPServer Go.ToLowerASCII resolver.offline
         "user@unknown-domain.test")
  = [resolver.DialTCP "imap.unknown-domain.test:993";
     resolver.DialTCP "mail.unknown-domain.test:993";
     resolver.DialTCP "unknown-domain.test:993"]
    ++ snd (resolver.resolveViaMX resolver.offline "unknown-domain.test").
Proof.
  assert (Hunknown : resolver.knownIMAPServers
                       !! Go.ToLowerASCII "unknown-domain.test" = None)
    by (vm_compute; reflexivity).
  destruct (resolver_tries_conventional_names Go.ToLowerASCII
              resolver.offline "user@unknown-domain.test" "user"
              "unknown-domain.test" eq_refl Hunknown)
    as (_ & _ & _ & H & _).
  apply H; reflexivity.
Defined.

(** ** Strings, UTF-8 and the formatter *)

Example runes_cyrillic : utf8.runes "От" = [1054; 1090].
Proof. vm_compute. reflexivity. Qed.

Example runes_invalid :
  utf8.runes (String (ascii_of_nat 255) "a") = [65533; 97].
Proof. vm_compute. reflexivity. Qed.

Example encode_cyrillic : utf8.encode [1054; 1090] = "От"%string.
Proof. vm_compute. reflexivity. Qed.

Example runes_euro : utf8.runes "€" = [8364].
Proof. vm_compute. reflexivity. Qed.

Example encode_euro : utf8.encode [8364] = "€"%string.
Proof. vm_compute. reflexivity. Qed.

Example runes_emoji : utf8.runes "😀" = [128512].
Proof. vm_compute. reflexivity. Qed.

Example encode_emoji : utf8.encode [128512] = "😀"%string.
Proof. vm_compute. reflexivity. Qed.

Example replace_all :
  strings.ReplaceAll "a<b<<c" "<" "&lt;" = "a&lt;b&lt;&lt;c"%string.
Proof. vm_compute. reflexivity. Qed.

Example replace_all_long :
  strings.ReplaceAll "aaaa" "aa" "b" = "bb"%string.
Proof. vm_compute. reflexivity. Qed.

Example replace_all_overlap :
  strings.ReplaceAll "aaa" "aa" "b" = "ba"%string.
Proof. vm_compute. reflexivity. Qed.

Example escapeHTML_example :
  formatter.escapeHTML "a<b> & c" = "a&lt;b&gt; &amp; c"%string.
Proof. vm_compute. reflexivity. Qed.

Example cutNote_length : String.length formatter.cutNote = 50%nat.
Proof. vm_compute. reflexivity. Qed.

Example truncate_short : formatter.truncate "привет" 6 = "привет"%string.
Proof. vm_compute. reflexivity. Qed.

Example truncate_cuts_runes :
  formatter.truncate "привет" 3 = ("при" +:+ formatter.cutNote)%string.
Proof. vm_compute. reflexivity. Qed.

Lemma append_cons c (x y : string) : String c x +:+ y = String c (x +:+ y).
Proof. reflexivity. Qed.

Lemma append_assoc (x y z : string) : (x +:+ y) +:+ z = x +:+ (y +:+ z).
Proof.
  induction x as [|c x IH]; [reflexivity|].
  rewrite !append_cons, IH. reflexivity.
Qed.

Lemma append_nil_r (x : string) : x +:+ EmptyString = x.
Proof.
  induction x as [|c x IH]; [reflexivity|]. rewrite append_cons, IH.
  reflexivity.
Qed.

Lemma occurrences_append c (x y : string) :
  occurrences c (x +:+ y) = (occurrences c x + occurrences c y)%nat.
Proof.
  unfold occurrences. induction x as [|a x IH]; [reflexivity|].
  rewrite append_cons. cbn [list_ascii_of_string List.filter].
  destruct (Ascii.eqb c a); cbn [length]; rewrite IH; reflexivity.
Qed.

(** Replacement of the occurrences of one byte. *)
Lemma ReplaceAll_byte a new c rest :
  strings.ReplaceAll (String c rest) (String a EmptyString) new
  = (if Ascii.eqb c a then new else String c EmptyString)
    +:+ strings.ReplaceAll rest (String a EmptyString) new.
Proof.
  unfold strings.ReplaceAll. cbn [strings.replaceFrom].
  unfold Go.HasPrefix. cbn [String.prefix String.length Nat.sub].
  destruct (ascii_dec a c) as [->|Hne].
  - rewrite Ascii.eqb_refl. destruct rest; reflexivity.
  - destruct (Ascii.eqb c a) eqn:Heq; [|reflexivity].
    apply Ascii.eqb_eq in Heq. congruence.
Qed.

Lemma ReplaceAll_byte_append a new (x y : string) :
  strings.ReplaceAll (x +:+ y) (String a EmptyString) new
  = strings.ReplaceAll x (String a EmptyString) new
    +:+ strings.ReplaceAll y (String a EmptyString) new.
Proof.
  induction x as [|c x IH]; [reflexivity|].
  change (String c x +:+ y) with (String c (x +:+ y)).
  rewrite !ReplaceAll_byte, IH. symmetry. apply append_assoc.
Qed.

Lemma escapeHTML_append (x y : string) :
  formatter.escapeHTML (x +:+ y)
  = formatter.escapeHTML x +:+ formatter.escapeHTML y.
Proof.
  unfold formatter.escapeHTML. cbv zeta.
  rewrite !ReplaceAll_byte_append. reflexivity.
Qed.

Lemma escapeByte_cases c :
  (c = "&"%char /\ escapeByte c = "&amp;"%string)
  \/ (c = "<"%char /\ escapeByte c = "&lt;"%string)
  \/ (c = ">"%char /\ escapeByte c = "&gt;"%string)
  \/ (c <> "&"%char /\ c <> "<"%char /\ c <> ">"%char
      /\ escapeByte c = String c EmptyString).
Proof.
  unfold escapeByte.
  destruct (Ascii.eqb c "&") eqn:Ha; [apply Ascii.eqb_eq in Ha; auto|].
  destruct (Ascii.eqb c "<") eqn:Hl; [apply Ascii.eqb_eq in Hl; auto|].
  destruct (Ascii.eqb c ">") eqn:Hg; [apply Ascii.eqb_eq in Hg; auto 6|].
  apply Ascii.eqb_neq in Ha, Hl, Hg. auto 10.
Qed.

Lemma ReplaceAll_other a new c :
  c <> a ->
  strings.ReplaceAll (String c EmptyString) (String a EmptyString) new
  = String c EmptyString.
Proof.
  intros Hne. rewrite ReplaceAll_byte.
  destruct (Ascii.eqb c a) eqn:E; [|reflexivity].
  apply Ascii.eqb_eq in E. contradiction.
Qed.

Lemma escapeHTML_cons c s :
  formatter.escapeHTML (String c s) = escapeByte c +:+ formatter.escapeHTML s.
Proof.
  change (String c s) with (String c EmptyString +:+ s).
  rewrite escapeHTML_append. f_equal.
  destruct (escapeByte_cases c)
    as [(-> & ->)|[(-> & ->)|[(-> & ->)|(Ha & Hl & Hg & ->)]]];
    try reflexivity.
  unfold formatter.escapeHTML. cbv zeta.
  rewrite (ReplaceAll_other _ _ _ Ha), (ReplaceAll_other _ _ _ Hl),
    (ReplaceAll_other _ _ _ Hg).
  reflexivity.
Qed.

Lemma escapeByte_injective c1 c2 (r1 r2 : string) :
  escapeByte c1 +:+ r1 = escapeByte c2 +:+ r2 -> c1 = c2 /\ r1 = r2.
Proof.
  destruct (escapeByte_cases c1)
    as [(-> & ->)|[(-> & ->)|[(-> & ->)|(Ha1 & Hl1 & Hg1 & ->)]]];
  destruct (escapeByte_cases c2)
    as [(-> & ->)|[(-> & ->)|[(-> & ->)|(Ha2 & Hl2 & Hg2 & ->)]]];
  cbv [String.append]; intros H; try discriminate H;
    injection H; intros; subst; try congruence; auto.
Qed.

Lemma escapeHTML_no_angle s :
  occurrences "<" (formatter.escapeHTML s) = 0%nat
  /\ occurrences ">" (formatter.escapeHTML s) = 0%nat.
Proof.
  induction s as [|c s (IHl & IHg)]; [split; reflexivity|].
  rewrite escapeHTML_cons, !occurrences_append, IHl, IHg.
  destruct (escapeByte_cases c)
    as [(-> & ->)|[(-> & ->)|[(-> & ->)|(Ha & Hl & Hg & ->)]]];
    try (split; reflexivity).
  unfold occurrences. cbn [list_ascii_of_string List.filter].
  destruct (Ascii.eqb "<" c) eqn:E1;
    [apply Ascii.eqb_eq in E1; congruence|].
  destruct (Ascii.eqb ">" c) eqn:E2;
    [apply Ascii.eqb_eq in E2; congruence|].
  split; reflexivity.
Qed.

Lemma escapeHTML_plain s :
  occurrences "&" s = 0%nat -> occurrences "<" s = 0%nat ->
  occurrences ">" s = 0%nat -> formatter.escapeHTML s = s.
Proof.
  induction s as [|c s IH]; [reflexivity|].
  unfold occurrences in *. cbn [list_ascii_of_string List.filter].
  intros Ha Hl Hg. rewrite escapeHTML_cons.
  destruct (Ascii.eqb "&" c) eqn:E0; [discriminate Ha|].
  destruct (Ascii.eqb "<" c) eqn:E1; [discriminate Hl|].
  destruct (Ascii.eqb ">" c) eqn:E2; [discriminate Hg|].
  rewrite (IH Ha Hl Hg). unfold escapeByte.
  rewrite (Ascii.eqb_sym c "&"), E0, (Ascii.eqb_sym c "<"), E1,
    (Ascii.eqb_sym c ">"), E2.
  reflexivity.
Qed.

Lemma escapeHTML_injective : forall a b,
  formatter.escapeHTML a = formatter.escapeHTML b -> a = b.
Proof.
  induction a as [|c a IH]; intros [|d b] H.
  - reflexivity.
  - rewrite escapeHTML_cons in H.
    destruct (escapeByte_cases d)
      as [(_ & E)|[(_ & E)|[(_ & E)|(_ & _ & _ & E)]]];
      rewrite E in H; discriminate H.
  - rewrite escapeHTML_cons in H.
    destruct (escapeByte_cases c)
      as [(_ & E)|[(_ & E)|[(_ & E)|(_ & _ & _ & E)]]];
      rewrite E in H; discriminate H.
  - rewrite !escapeHTML_cons in H.
    apply escapeByte_injective in H as (-> & H).
    rewrite (IH b H). reflexivity.
Qed.

Lemma escapeHTML_length s :
  (String.length s <= String.length (formatter.escapeHTML s)
   <= 5 * String.length s)%nat.
Proof.
  induction s as [|c s IH]; [simpl; lia|].
  rewrite escapeHTML_cons, length_append. cbn [String.length].
  destruct (escapeByte_cases c)
    as [(_ & E)|[(_ & E)|[(_ & E)|(_ & _ & _ & E)]]];
    rewrite E; cbn [String.length]; lia.
Qed.

(** The text [escapeHTML] returns has no [<] and no [>]; a text
    without [&], [<] and [>] is returned as it is; two different texts
    are never turned into the same; and a text grows at most five
    times. *)
Theorem escapeHTML_is_safe_and_faithful :
  (forall s,
     occurrences "<" (formatter.escapeHTML s) = 0%nat
     /\ occurrences ">" (formatter.escapeHTML s) = 0%nat)
  /\ (forall s,
        occurrences "&" s = 0%nat -> occurrences "<" s = 0%nat ->
        occurrences ">" s = 0%nat -> formatter.escapeHTML s = s)
  /\ (forall a b, formatter.escapeHTML a = formatter.escapeHTML b -> a = b)
  /\ (forall s,
        (String.length s <= String.length (formatter.escapeHTML s)
         <= 5 * String.length s)%nat).
Proof.
  split; [exact escapeHTML_no_angle|]. split; [exact escapeHTML_plain|].
  split; [exact escapeHTML_injective|exact escapeHTML_length].
Qed.

Lemma escapeHTML_is_safe_and_faithful_witness :
  formatter.escapeHTML "hello" = "hello"%string.
Proof.
  apply (proj1 (proj2 escapeHTML_is_safe_and_faithful)); reflexivity.
Defined.

Lemma byte_char c : utf8.char (utf8.byte c) = c.
Proof.
  unfold utf8.char, utf8.byte. rewrite Nat2Z.id. apply ascii_nat_embedding.
Qed.

Lemma runes_ascii s :
  ascii_only s ->
  utf8.runes s = map utf8.byte (list_ascii_of_string s).
Proof.
  unfold ascii_only, utf8.runes.
  induction s as [|c s IH]; [reflexivity|].
  cbn [list_ascii_of_string map]. intros H.
  apply Forall_cons in H as (Hc & Hs).
  cbn [utf8.runesFrom utf8.DecodeRune].
  apply Z.ltb_lt in Hc. rewrite Hc. cbn [Nat.sub]. rewrite (IH Hs).
  reflexivity.
Qed.

Lemma encode_ascii l :
  Forall (fun c => utf8.byte c < 128) l ->
  utf8.encode (map utf8.byte l) = string_of_list_ascii l.
Proof.
  induction 1 as [|c l Hc _ IH]; [reflexivity|].
  cbn [map utf8.encode string_of_list_ascii]. rewrite IH.
  unfold utf8.EncodeRune.
  assert (H0 : 0 <= utf8.byte c) by (unfold utf8.byte; lia).
  replace ((0 <=? utf8.byte c) && (utf8.byte c <=? 127)) with true
    by (symmetry; apply andb_true_iff; split;
        [apply Z.leb_le|apply Z.leb_le]; lia).
  rewrite byte_char. reflexivity.
Qed.

Lemma length_string_of_list l :
  String.length (string_of_list_ascii l) = length l.
Proof. induction l as [|c l IH]; [reflexivity|]. simpl. rewrite IH. reflexivity. Qed.

Lemma length_list_of_string s :
  length (list_ascii_of_string s) = String.length s.
Proof. induction s as [|c s IH]; [reflexivity|]. simpl. rewrite IH. reflexivity. Qed.

Lemma occurrences_take c n s :
  occurrences c s = 0%nat ->
  occurrences c (string_of_list_ascii (take n (list_ascii_of_string s)))
  = 0%nat.
Proof.
  unfold occurrences. rewrite list_ascii_of_string_of_list_ascii.
  revert n. induction s as [|a s IH]; intros [|n]; try reflexivity.
  cbn [list_ascii_of_string take List.filter].
  destruct (Ascii.eqb c a); [discriminate|]. apply IH.
Qed.

(** What [FormatEmail] returns.  A body of at most as many runes as the
    budget allows follows the header, escaped.  A longer one is cut and
    the note is appended before the escaping is done, so the markup of
    the note is escaped with the body: the reader is shown the tags.
    For a body of ASCII bytes without [&], [<] and [>] and a budget
    that is positive, the text has then exactly twelve bytes more than
    [maxLength]. *)
Theorem cut_note_is_escaped time_Format f msg codes :
  let sb := formatter.header time_Format msg codes in
  let body := message.BodyText msg in
  let budget := formatter.maxLength f - Z.of_nat (String.length sb) - 50 in
  let limit := if budget <=? 0 then 100 else budget in
  let text := formatter.FormatEmail time_Format f msg codes in
  (Z.of_nat (length (utf8.runes body)) <= limit ->
   text = sb +:+ formatter.escapeHTML body)
  /\ (limit < Z.of_nat (length (utf8.runes body)) ->
      text = sb
             +:+ formatter.escapeHTML
                   (utf8.encode (take (Z.to_nat limit) (utf8.runes body)))
             +:+ strings.LF +:+ strings.LF
             +:+ "&lt;i&gt;... (сообщение обрезано)&lt;/i&gt;")
  /\ (ascii_only body -> markup_free body ->
      0 < budget -> budget < Z.of_nat (String.length body) ->
      Z.of_nat (String.length text) = formatter.maxLength f + 12).
Proof.
  cbv zeta. unfold formatter.FormatEmail, formatter.truncate. cbv zeta.
  set (sb := formatter.header time_Format msg codes).
  set (budget := formatter.maxLength f - Z.of_nat (String.length sb) - 50).
  set (limit := if budget <=? 0 then 100 else budget).
  split; [|split].
  - intros Hfit. apply Z.leb_le in Hfit. rewrite Hfit. reflexivity.
  - intros Hcut. apply Z.leb_gt in Hcut. rewrite Hcut.
    rewrite escapeHTML_append. reflexivity.
  - intros Hascii (Ha & Hl & Hg) Hpos Hlong.
    assert (Hlim : limit = budget).
    { subst limit. destruct (budget <=? 0) eqn:E; [|reflexivity].
      apply Z.leb_le in E. lia. }
    rewrite (runes_ascii _ Hascii), length_map, length_list_of_string.
    rewrite Hlim.
    replace (Z.of_nat (String.length (message.BodyText msg)) <=? budget)
      with false by (symmetry; apply Z.leb_gt; lia).
    rewrite firstn_map, encode_ascii
      by (apply Forall_take; exact Hascii).
    rewrite length_append, escapeHTML_append, length_append.
    rewrite escapeHTML_plain by (apply occurrences_take; assumption).
    rewrite length_string_of_list, length_take, length_list_of_string.
    change (String.length (formatter.escapeHTML formatter.cutNote))
      with 62%nat.
    lia.
Qed.

Lemma cut_note_is_escaped_witness :
  Z.of_nat (String.length
              (formatter.FormatEmail sampleTime
                 {| formatter.maxLength := 200 |} sampleMessage []))
  = 200 + 12.
Proof.
  apply (proj2 (proj2 (cut_note_is_escaped sampleTime
                         {| formatter.maxLength := 200 |} sampleMessage []))).
  - unfold ascii_only. simpl.
    repeat (constructor; [vm_compute; reflexivity|]). constructor.
  - repeat split; reflexivity.
  - vm_compute. reflexivity.
  - vm_compute. reflexivity.
Defined.

(** ** The keyboard and the Mailcow client *)

Lemma codeButtons_imap json msgID codes : forall i,
  keyboard.codeButtons json msgID (Z.of_nat i) codes
  = imap (fun k code => codeButton json msgID (i + k) code) codes.
Proof.
  induction codes as [|code rest IH]; intros i; [reflexivity|].
  cbn [keyboard.codeButtons imap]. f_equal.
  - unfold codeButton, keyboard.EncodeCallback. rewrite Nat.add_0_r.
    reflexivity.
  - replace (Z.of_nat i + 1) with (Z.of_nat (S i)) by lia.
    rewrite IH. apply imap_ext. intros k x _. simpl.
    f_equal. lia.
Qed.

Lemma rowsOfTwo_pair buttons :
  (concat (keyboard.rowsOfTwo buttons) = buttons
   /\ Forall (fun row => length row = 2%nat)
        (removelast (keyboard.rowsOfTwo buttons))
   /\ Forall (fun row => (1 <= length row <= 2)%nat)
        (keyboard.rowsOfTwo buttons)
   /\ length (keyboard.rowsOfTwo buttons)
      = Nat.div2 (S (length buttons)))
  /\ (forall a,
        concat (keyboard.rowsOfTwo (a :: buttons)) = a :: buttons
        /\ Forall (fun row => length row = 2%nat)
             (removelast (keyboard.rowsOfTwo (a :: buttons)))
        /\ Forall (fun row => (1 <= length row <= 2)%nat)
             (keyboard.rowsOfTwo (a :: buttons))
        /\ length (keyboard.rowsOfTwo (a :: buttons))
           = Nat.div2 (S (S (length buttons)))).
Proof.
  induction buttons as [|b rest ((IHc & IHf & IHr & IHl) & IHa)].
  - split; [repeat split; constructor|].
    intros a. repeat split; repeat constructor; simpl; lia.
  - split; [apply IHa|]. intros a.
    change (keyboard.rowsOfTwo (a :: b :: rest))
      with ([a; b] :: keyboard.rowsOfTwo rest).
    split; [simpl; rewrite IHc; reflexivity|]. split; [|split].
    + destruct (keyboard.rowsOfTwo rest) as [|row rows] eqn:E;
        [constructor|].
      change (removelast ([a; b] :: row :: rows))
        with ([a; b] :: removelast (row :: rows)).
      constructor; [reflexivity|exact IHf].
    + constructor; [simpl; lia|exact IHr].
    + cbn [length]. rewrite IHl. reflexivity.
Qed.

Lemma BuildEmailKeyboard_rows json msgID codes isRead :
  exists actionRow,
    keyboard.BuildEmailKeyboard json msgID codes isRead
    = keyboard.rowsOfTwo (keyboard.codeButtons json msgID 0 codes)
      ++ [actionRow]
    /\ map keyboard.Text actionRow
       = (if isRead then ["Удалить"] else ["Прочитано"; "Удалить"])%string
    /\ map keyboard.CallbackData actionRow
       = map json
           ((if isRead then []
             else [{| callback.Action := callback.CallbackMarkRead;
                      callback.MessageID := msgID;
                      callback.CodeIndex := 0 |}])
            ++ [{| callback.Action := callback.CallbackDelete;
                   callback.MessageID := msgID;
                   callback.CodeIndex := 0 |}]).
Proof.
  unfold keyboard.BuildEmailKeyboard. cbv zeta. eexists. split.
  - destruct codes; reflexivity.
  - destruct isRead; split; reflexivity.
Qed.

(** The keyboard of a message: the buttons of the codes in rows of two,
    in the order of the codes and each with the index of its code, then
    one row with the actions.  Only the last row of codes can have a
    single button.  The action row offers the deletion, and before it
    the marking as read unless the message is read already. *)
Theorem keyboard_has_rows_of_two json msgID codes isRead :
  let rows := keyboard.BuildEmailKeyboard json msgID codes isRead in
  let codeRows := removelast rows in
  concat codeRows = imap (codeButton json msgID) codes
  /\ (forall i code,
        codes !! i = Some code ->
        concat codeRows !! i = Some (codeButton json msgID i code))
  /\ Forall (fun row => (1 <= length row <= 2)%nat) codeRows
  /\ Forall (fun row => length row = 2%nat) (removelast codeRows)
  /\ length rows = S (Nat.div2 (S (length codes)))
  /\ exists actionRow,
       last rows = Some actionRow
       /\ map keyboard.Text actionRow
          = (if isRead then ["Удалить"]
             else ["Прочитано"; "Удалить"])%string
       /\ map keyboard.CallbackData actionRow
          = map json
              ((if isRead then []
                else [{| callback.Action := callback.CallbackMarkRead;
                         callback.MessageID := msgID;
                         callback.CodeIndex := 0 |}])
               ++ [{| callback.Action := callback.CallbackDelete;
                      callback.MessageID := msgID;
                      callback.CodeIndex := 0 |}]).
Proof.
  cbv zeta.
  destruct (BuildEmailKeyboard_rows json msgID codes isRead)
    as (actionRow & -> & Htext & Hdata).
  rewrite removelast_last.
  destruct (rowsOfTwo_pair (keyboard.codeButtons json msgID 0 codes))
    as ((Hc & Hf & Hr & Hl) & _).
  assert (Hbuttons : keyboard.codeButtons json msgID 0 codes
                     = imap (codeButton json msgID) codes).
  { apply (codeButtons_imap json msgID codes 0%nat). }
  split; [rewrite Hc; exact Hbuttons|].
  split.
  { intros i code Hi. rewrite Hc, Hbuttons, list_lookup_imap, Hi.
    reflexivity. }
  split; [exact Hr|]. split; [exact Hf|]. split.
  { rewrite length_app, Hl, Hbuttons, length_imap. simpl. lia. }
  exists actionRow. split; [apply last_snoc|]. split; assumption.
Qed.

Lemma keyboard_has_rows_of_two_witness :
  concat (removelast (keyboard.BuildEmailKeyboard sampleMarshal 9
                        sampleCodes false)) !! 2%nat
  = Some (codeButton sampleMarshal 9 2
            {| message.Type_ := "token"; message.Value := "abcd1234" |}).
Proof.
  apply (proj1 (proj2 (keyboard_has_rows_of_two sampleMarshal 9
                         sampleCodes false))).
  reflexivity.
Defined.

Example GetIMAPServer_https :
  mailcow.GetIMAPServer
    {| mailcow.baseURL := "https://mail.example.com";
       mailcow.apiKey := "k"; mailcow.domain := "example.com" |}
  = Some "mail.example.com:993"%string.
Proof. reflexivity. Qed.

Example GetIMAPServer_http_slash :
  mailcow.GetIMAPServer
    {| mailcow.baseURL := "http://mail.example.com/";
       mailcow.apiKey := "k"; mailcow.domain := "example.com" |}
  = Some "mail.example.com:993"%string.
Proof. reflexivity. Qed.

Example GetIMAPServer_scheme_only :
  mailcow.GetIMAPServer
    {| mailcow.baseURL := "https://";
       mailcow.apiKey := "k"; mailcow.domain := "example.com" |}
  = Some "https:/:993"%string.
Proof. reflexivity. Qed.

Lemma substring_length s : forall a b,
  (a + b <= String.length s)%nat -> String.length (substring a b s) = b.
Proof.
  induction s as [|c s IH]; intros [|a] [|b] H; simpl in *;
    try reflexivity; try lia.
  - rewrite IH by lia. reflexivity.
  - apply IH. lia.
  - apply IH. lia.
Qed.

Lemma get_append_last (x : string) c :
  String.get (String.length x) (x +:+ String c EmptyString) = Some c.
Proof. induction x as [|a x IH]; [reflexivity|exact IH]. Qed.

Lemma GetIMAPServer_run c :
  mailcow.GetIMAPServer c
  = let url := mailcow.baseURL c in
    let n := String.length url in
    let host :=
      if (8 <? n)%nat && String.eqb (substring 0 8 url) "https://"
      then substring 8 (n - 8) url
      else if (7 <? n)%nat && String.eqb (substring 0 7 url) "http://"
      then substring 7 (n - 7) url
      else url in
    match String.length host with
    | O => None
    | S k =>
        Some (match String.get k host with
              | Some "/"%char => substring 0 k host
              | _ => host
              end +:+ ":993")
    end.
Proof. reflexivity. Qed.

Lemma HasSuffix_append (x suffix : string) :
  Go.HasSuffix (x +:+ suffix) suffix = true.
Proof.
  unfold Go.HasSuffix. rewrite length_append.
  replace (String.length x + String.length suffix - String.length suffix)%nat
    with (String.length x) by lia.
  rewrite substring_append_r, substring_all, String.eqb_refl.
  apply andb_true_iff. split; [apply Nat.leb_le; lia|reflexivity].
Qed.

Lemma not_https y :
  String.eqb (substring 0 8 ("http://" +:+ y)) "https://" = false.
Proof. reflexivity. Qed.

(** A base URL that is a scheme and something after it. *)
Lemma GetIMAPServer_host key dom scheme y :
  (scheme = "https://" \/ scheme = "http://")%string ->
  y <> EmptyString ->
  mailcow.GetIMAPServer
    {| mailcow.baseURL := scheme +:+ y; mailcow.apiKey := key;
       mailcow.domain := dom |}
  = match String.length y with
    | O => None
    | S k =>
        Some (match String.get k y with
              | Some "/"%char => substring 0 k y
              | _ => y
              end +:+ ":993")
    end.
Proof.
  intros Hscheme Hne. rewrite GetIMAPServer_run. cbn [mailcow.baseURL].
  cbv zeta.
  assert (Hpos : (0 < String.length y)%nat).
  { destruct y; [contradiction|simpl; lia]. }
  assert (Hs8 : substring 0 8 ("https://" +:+ y) = "https://"%string)
    by apply (substring_append_l "https://" y).
  assert (Hs7 : substring 0 7 ("http://" +:+ y) = "http://"%string)
    by apply (substring_append_l "http://" y).
  assert (Hr8 : forall n, substring 8 n ("https://" +:+ y) = substring 0 n y)
    by apply (substring_append_r "https://" y).
  assert (Hr7 : forall n, substring 7 n ("http://" +:+ y) = substring 0 n y)
    by apply (substring_append_r "http://" y).
  destruct Hscheme as [-> | ->]; rewrite length_append.
  - replace (8 <? String.length "https://" + String.length y)%nat with true
      by (symmetry; apply Nat.ltb_lt; simpl; lia).
    rewrite Hs8, String.eqb_refl, Hr8. cbn [andb].
    replace (String.length "https://" + String.length y - 8)%nat
      with (String.length y) by (simpl; lia).
    rewrite substring_all. reflexivity.
  - rewrite not_https, andb_false_r.
    replace (7 <? String.length "http://" + String.length y)%nat with true
      by (symmetry; apply Nat.ltb_lt; simpl; lia).
    rewrite Hs7, String.eqb_refl, Hr7. cbn [andb].
    replace (String.length "http://" + String.length y - 7)%nat
      with (String.length y) by (simpl; lia).
    rewrite substring_all. reflexivity.
Qed.

(** [GetIMAPServer] panics exactly when the base URL is empty, so never
    on a client that is configured, as the one [main] makes is.
    Its answer ends with [:993].  From a base URL that is a scheme and a
    host it keeps the host, with or without a slash at the end. *)
Theorem GetIMAPServer_needs_a_base_URL :
  (forall c,
     mailcow.GetIMAPServer c = None <-> mailcow.baseURL c = EmptyString)
  /\ (forall cfg c,
        mailcow.clientOf cfg = Some c ->
        mailcow.IsConfigured c = true
        /\ exists server,
             mailcow.GetIMAPServer c = Some server
             /\ Go.HasSuffix server ":993" = true)
  /\ (forall key dom scheme h,
        (scheme = "https://" \/ scheme = "http://")%string ->
        h <> EmptyString ->
        String.get (String.length h - 1) h <> Some "/"%char ->
        mailcow.GetIMAPServer
          {| mailcow.baseURL := scheme +:+ h; mailcow.apiKey := key;
             mailcow.domain := dom |}
        = Some (h +:+ ":993")
        /\ mailcow.GetIMAPServer
             {| mailcow.baseURL := scheme +:+ h +:+ "/";
                mailcow.apiKey := key; mailcow.domain := dom |}
           = Some (h +:+ ":993")).
Proof.
  assert (Hpanic : forall c,
            mailcow.GetIMAPServer c = None
            <-> mailcow.baseURL c = EmptyString).
  { intros c. rewrite GetIMAPServer_run. cbv zeta.
    set (url := mailcow.baseURL c).
    destruct ((8 <? String.length url)%nat
              && String.eqb (substring 0 8 url) "https://") eqn:E1.
    { apply andb_true_iff in E1 as (Hn & _). apply Nat.ltb_lt in Hn.
      rewrite substring_length by lia.
      destruct (String.length url - 8)%nat eqn:E; [lia|].
      split; [discriminate|]. intros Hu. rewrite Hu in Hn.
      simpl in Hn. lia. }
    destruct ((7 <? String.length url)%nat
              && String.eqb (substring 0 7 url) "http://") eqn:E2.
    { apply andb_true_iff in E2 as (Hn & _). apply Nat.ltb_lt in Hn.
      rewrite substring_length by lia.
      destruct (String.length url - 7)%nat eqn:E; [lia|].
      split; [discriminate|]. intros Hu. rewrite Hu in Hn.
      simpl in Hn. lia. }
    destruct url; simpl; split; try discriminate; reflexivity. }
  split; [exact Hpanic|]. split.
  - intros cfg c. unfold mailcow.clientOf.
    destruct (mailcow.MailcowEnabled cfg) eqn:He; [|discriminate].
    intros Hc. injection Hc as <-. split; [exact He|].
    destruct (mailcow.GetIMAPServer _) as [server|] eqn:Hs.
    + exists server. split; [reflexivity|].
      rewrite GetIMAPServer_run in Hs. cbv zeta in Hs.
      destruct (String.length _) in Hs; [discriminate|].
      injection Hs as <-. apply HasSuffix_append.
    + apply Hpanic in Hs. unfold mailcow.MailcowEnabled in He.
      cbn [mailcow.NewClient mailcow.baseURL mailcow.BaseURL] in Hs.
      rewrite Hs in He. discriminate He.
  - intros key dom scheme h Hscheme Hne Hlast. split.
    + rewrite (GetIMAPServer_host key dom scheme h Hscheme Hne).
      destruct (String.length h) as [|k] eqn:Hlen;
        [destruct h; [contradiction|discriminate]|].
      cbn [Nat.sub] in Hlast. rewrite Nat.sub_0_r in Hlast.
      destruct (String.get k h) as [[[] [] [] [] [] [] [] []]|];
        try reflexivity.
      contradiction Hlast. reflexivity.
    + rewrite (GetIMAPServer_host key dom scheme (h +:+ "/") Hscheme)
        by (destruct h; discriminate).
      rewrite length_append. cbn [String.length].
      rewrite Nat.add_1_r, get_append_last, substring_append_l.
      reflexivity.
Qed.

Lemma GetIMAPServer_needs_a_base_URL_witness :
  mailcow.GetIMAPServer
    {| mailcow.baseURL := "https://" +:+ "mail.example.com" +:+ "/";
       mailcow.apiKey := "key"; mailcow.domain := "example.com" |}
  = Some ("mail.example.com" +:+ ":993").
Proof.
  apply (proj2 (proj2 GetIMAPServer_needs_a_base_URL) "key"%string
           "example.com"%string "https://"%string "mail.example.com"%string).
  - left. reflexivity.
  - discriminate.
  - vm_compute. discriminate.
Defined.

(** ** The database and the handler of a new message *)

Lemma recorded_map f a u rows :
  (forall m, database.same_message a u (f m) = database.same_message a u m) ->
  existsb (database.same_message a u) (map f rows)
  = existsb (database.same_message a u) rows.
Proof.
  intros Hf. induction rows as [|m rows IH]; [reflexivity|].
  cbn [map existsb]. rewrite Hf, IH. reflexivity.
Qed.

Lemma recorded_set_TelegramMsgID a u id t rows :
  existsb (database.same_message a u)
    (map (fun m => if message.ID m =? id
                   then database.set_TelegramMsgID t m else m) rows)
  = existsb (database.same_message a u) rows.
Proof.
  apply recorded_map. intros m. destruct (message.ID m =? id); reflexivity.
Qed.

Lemma recorded_snoc a u rows row :
  existsb (database.same_message a u) (rows ++ [row])
  = existsb (database.same_message a u) rows
    || database.same_message a u row.
Proof.
  rewrite existsb_app. cbn [existsb]. rewrite orb_false_r. reflexivity.
Qed.

Lemma same_message_refl a u : forall m,
  message.AccountID m = a -> message.UID m = u ->
  database.same_message a u m = true.
Proof.
  intros m <- <-. unfold database.same_message.
  rewrite !Z.eqb_refl. reflexivity.
Qed.

Section HandlerProperties.

Variable time_Format : Z -> string.

Variable json_Marshal : callback.CallbackData -> string.

Variable json_codes : list message.DetectedCode -> string.

Variable Parse : string -> string * Go.error.

Variable DetectCodes : string -> list message.DetectedCode.

Abbreviation onNewEmail :=
  (telegram.onNewEmail time_Format json_Marshal json_codes Parse DetectCodes).

Abbreviation handle :=
  (telegram.handle time_Format json_Marshal json_codes Parse DetectCodes).

Abbreviation requested :=
  (telegram.requested time_Format json_Marshal json_codes Parse DetectCodes).

(** What one invocation of the handler does to the tables and to the
    requests: nothing, or one row and one request for a message that was
    not recorded. *)
Lemma onNewEmail_cases accountID rawEmail b b' :
  onNewEmail accountID rawEmail b = telegram.Returned b' ->
  telegram.reply b' = telegram.reply b
  /\ telegram.formatter_ b' = telegram.formatter_ b
  /\ (forall a u, recorded (telegram.db b) a u = true ->
        recorded (telegram.db b') a u = true)
  /\ ((telegram.requests b' = telegram.requests b
       /\ database.email_messages (telegram.db b')
          = database.email_messages (telegram.db b)
       /\ database.email_accounts (telegram.db b')
          = database.email_accounts (telegram.db b))
      \/ (recorded (telegram.db b) accountID (UID rawEmail) = false
          /\ recorded (telegram.db b') accountID (UID rawEmail) = true
          /\ (exists p,
                telegram.requests b' = telegram.requests b ++ [p])
          /\ (forall err,
                telegram.reply b (length (telegram.requests b)) = inr err ->
                database.email_accounts (telegram.db b')
                = database.email_accounts (telegram.db b)))).
Proof.
  unfold telegram.onNewEmail.
  destruct (From rawEmail) as [from|]; [|discriminate].
  destruct b as [d f rep reqs]. destruct d as [accs msgs aseq mseq flt n now].
  unfold database.GetAccountByID, database.statement, recorded.
  cbn [telegram.db telegram.with_db database.fault database.statements
       database.email_accounts database.email_messages telegram.reply
       telegram.formatter_ telegram.requests].
  destruct (flt n) as [e|].
  { intros [= <-]. cbn. repeat split; auto. }
  destruct (List.find _ accs) as [account|].
  2:{ intros [= <-]. cbn. repeat split; auto. }
  unfold database.CreateMessage, database.statement.
  cbn [telegram.db telegram.with_db database.fault database.statements
       database.email_accounts database.email_messages telegram.reply
       telegram.formatter_ telegram.requests message.AccountID message.UID
       database.messages_seq database.now database.accounts_seq].
  destruct (flt (S n)) as [e|].
  { intros [= <-]. cbn. repeat split; auto. }
  destruct (existsb (database.same_message accountID (UID rawEmail)) msgs)
    eqn:Hrec.
  { intros [= <-]. cbn. repeat split; auto. }
  destruct (negb (existsb _ accs)).
  { intros [= <-]. cbn. repeat split; auto. }
  set (row := database.inserted _ _ _).
  assert (Hrow : database.same_message accountID (UID rawEmail) row = true)
    by (apply same_message_refl; reflexivity).
  assert (Hid : message.ID row = mseq + 1) by reflexivity.
  clearbody row.
  unfold telegram.sendMessageWithKeyboard, telegram.SendMessage.
  set (text := formatter.FormatEmail _ _ _ _).
  set (kb := keyboard.BuildEmailKeyboard _ _ _ _).
  clearbody text kb.
  cbn [telegram.db telegram.with_db database.fault database.statements
       database.email_accounts database.email_messages telegram.reply
       telegram.formatter_ telegram.requests].
  destruct (rep (length reqs)) as [t|err] eqn:Hrep.
  - unfold database.UpdateMessageTelegramMsgID, database.UpdateAccountLastUID,
      database.statement, database.with_messages, database.with_accounts.
    cbn [telegram.db telegram.with_db database.fault database.statements
         database.email_accounts database.email_messages telegram.reply
         telegram.formatter_ telegram.requests database.messages_seq
         database.now database.accounts_seq].
    destruct (flt (S (S n))) as [e2|];
      cbn [telegram.db telegram.with_db database.fault database.statements
           database.email_accounts database.email_messages telegram.reply
           telegram.formatter_ telegram.requests database.messages_seq
           database.now database.accounts_seq];
      destruct (flt (S (S (S n)))) as [e3|];
      intros [= <-];
      cbn [telegram.db telegram.with_db database.fault database.statements
           database.email_accounts database.email_messages telegram.reply
           telegram.formatter_ telegram.requests];
      (split; [reflexivity|]); (split; [reflexivity|]);
      (split;
       [intros a u H; rewrite ?recorded_set_TelegramMsgID, recorded_snoc, H;
        reflexivity|]);
      right; (split; [reflexivity|]);
      (split;
       [rewrite ?recorded_set_TelegramMsgID, recorded_snoc, Hrow;
        apply orb_true_r|]);
      (split; [eexists; reflexivity|]);
      intros err Herr; discriminate.
  - intros [= <-].
    cbn [telegram.db telegram.with_db database.fault database.statements
         database.email_accounts database.email_messages telegram.reply
         telegram.formatter_ telegram.requests].
    split; [reflexivity|]. split; [reflexivity|]. split.
    { intros a u H. rewrite recorded_snoc, H. reflexivity. }
    right. split; [reflexivity|]. split.
    { rewrite recorded_snoc, Hrow. apply orb_true_r. }
    split; [eexists; reflexivity|]. intros; reflexivity.
Qed.

(** Whether an invocation made a request. *)
Lemma onNewEmail_request accountID rawEmail b b' :
  onNewEmail accountID rawEmail b = telegram.Returned b' ->
  if (length (telegram.requests b) <? length (telegram.requests b'))%nat
  then recorded (telegram.db b) accountID (UID rawEmail) = false
       /\ recorded (telegram.db b') accountID (UID rawEmail) = true
       /\ length (telegram.requests b') = S (length (telegram.requests b))
  else telegram.requests b' = telegram.requests b.
Proof.
  intros H. apply onNewEmail_cases in H.
  destruct H as (_ & _ & _ & [(Hr & _)|(Hb & Ha & (p & Hp) & _)]).
  - rewrite Hr, Nat.ltb_irrefl. reflexivity.
  - rewrite Hp, length_app. cbn [length].
    replace (_ <? _)%nat with true by (symmetry; apply Nat.ltb_lt; lia).
    repeat split; auto. lia.
Qed.

Lemma handle_keeps calls : forall b b',
  handle calls b = telegram.Returned b' ->
  telegram.reply b' = telegram.reply b
  /\ telegram.formatter_ b' = telegram.formatter_ b
  /\ (forall a u, recorded (telegram.db b) a u = true ->
        recorded (telegram.db b') a u = true)
  /\ length (telegram.requests b')
     = (length (telegram.requests b) + length (requested calls b))%nat.
Proof.
  induction calls as [|[accountID rawEmail] rest IH]; intros b b'.
  - intros [= <-]. cbn. repeat split; auto.
  - cbn [telegram.handle telegram.requested].
    destruct (onNewEmail accountID rawEmail b) as [|b1] eqn:H1;
      [discriminate|].
    intros Hrest. destruct (IH _ _ Hrest) as (Hrep & Hf & Hrec & Hlen).
    pose proof (onNewEmail_request _ _ _ _ H1) as Hreq.
    destruct (onNewEmail_cases _ _ _ _ H1) as (Hrep1 & Hf1 & Hrec1 & _).
    split; [congruence|]. split; [congruence|]. split; [auto|].
    rewrite Hlen, length_app.
    destruct (_ <? _)%nat.
    + destruct Hreq as (_ & _ & ->). cbn [length]. lia.
    + rewrite Hreq. cbn [length]. lia.
Qed.

Lemma requested_fresh calls : forall b,
  Forall (fun p => recorded (telegram.db b) p.1 p.2 = false)
    (requested calls b).
Proof.
  induction calls as [|[accountID rawEmail] rest IH]; intros b;
    [constructor|].
  cbn [telegram.requested].
  destruct (onNewEmail accountID rawEmail b) as [|b1] eqn:H1;
    [constructor|].
  pose proof (onNewEmail_request _ _ _ _ H1) as Hreq.
  destruct (onNewEmail_cases _ _ _ _ H1) as (_ & _ & Hrec1 & _).
  apply Forall_app. split.
  - destruct (_ <? _)%nat; [|constructor].
    constructor; [apply Hreq|constructor].
  - eapply Forall_impl; [apply IH|]. intros [a u] Hp. cbn [fst snd] in *.
    destruct (recorded (telegram.db b) a u) eqn:E; [|reflexivity].
    rewrite (Hrec1 _ _ E) in Hp. discriminate.
Qed.

Lemma requested_NoDup calls : forall b, NoDup (requested calls b).
Proof.
  induction calls as [|[accountID rawEmail] rest IH]; intros b;
    [constructor|].
  cbn [telegram.requested].
  destruct (onNewEmail accountID rawEmail b) as [|b1] eqn:H1;
    [constructor|].
  pose proof (onNewEmail_request _ _ _ _ H1) as Hreq.
  destruct (_ <? _)%nat; [|apply IH].
  cbn [app]. constructor; [|apply IH].
  intros Hin. pose proof (requested_fresh rest b1) as Hf.
  rewrite Forall_forall in Hf. apply Hf in Hin. cbn [fst snd] in Hin.
  destruct Hreq as (_ & Hr & _). congruence.
Qed.

(** In any sequence of invocations of the message handler, no two of
    the invocations that make a request to Telegram are for the same
    account and message identifier, and none is for a message already
    recorded at the start.  When the sequence returns, the requests
    made are those of these invocations, each of their messages is
    recorded, and every message recorded before still is. *)
Theorem a_message_is_requested_once calls b :
  NoDup (requested calls b)
  /\ Forall (fun p => recorded (telegram.db b) p.1 p.2 = false)
       (requested calls b)
  /\ forall b', handle calls b = telegram.Returned b' ->
       length (telegram.requests b')
       = (length (telegram.requests b) + length (requested calls b))%nat
       /\ Forall (fun p => recorded (telegram.db b') p.1 p.2 = true)
            (requested calls b)
       /\ forall a u, recorded (telegram.db b) a u = true ->
            recorded (telegram.db b') a u = true.
Proof.
  split; [apply requested_NoDup|]. split; [apply requested_fresh|].
  intros b' H. destruct (handle_keeps _ _ _ H) as (_ & _ & Hrec & Hlen).
  split; [exact Hlen|]. split; [|exact Hrec].
  clear Hlen Hrec. revert b b' H.
  induction calls as [|[accountID rawEmail] rest IH]; intros b b';
    [constructor|].
  cbn [telegram.handle telegram.requested].
  destruct (onNewEmail accountID rawEmail b) as [|b1] eqn:H1;
    [discriminate|].
  intros Hrest. apply Forall_app. split; [|eapply IH; exact Hrest].
  pose proof (onNewEmail_request _ _ _ _ H1) as Hreq.
  destruct (_ <? _)%nat; [|constructor].
  constructor; [|constructor]. cbn [fst snd].
  destruct (handle_keeps _ _ _ Hrest) as (_ & _ & Hrec & _).
  apply Hrec, Hreq.
Qed.

(** When Telegram answers the request for a message with an error, the
    message stays recorded and the account keeps its last identifier;
    no later invocation of the handler makes a request for that
    message again. *)
Theorem failed_send_is_not_retried accountID rawEmail b b1 err :
  onNewEmail accountID rawEmail b = telegram.Returned b1 ->
  length (telegram.requests b1) = S (length (telegram.requests b)) ->
  telegram.reply b (length (telegram.requests b)) = inr err ->
  recorded (telegram.db b1) accountID (UID rawEmail) = true
  /\ database.email_accounts (telegram.db b1)
     = database.email_accounts (telegram.db b)
  /\ forall calls, ~ In (accountID, UID rawEmail) (requested calls b1).
Proof.
  intros H Hlen Herr.
  destruct (onNewEmail_cases _ _ _ _ H)
    as (_ & _ & _ & [(Hr & _)|(_ & Hrec & _ & Hacc)]).
  { rewrite Hr in Hlen. lia. }
  split; [exact Hrec|]. split; [eauto|].
  intros calls Hin. pose proof (requested_fresh calls b1) as Hf.
  rewrite Forall_forall in Hf. apply list_elem_of_In, Hf in Hin.
  cbn [fst snd] in Hin.
  congruence.
Qed.

Lemma handle_total calls : forall b,
  Forall (fun call => From call.2 <> None) calls ->
  exists b', handle calls b = telegram.Returned b'.
Proof.
  induction calls as [|[accountID rawEmail] rest IH]; intros b Hall.
  - eexists; reflexivity.
  - apply Forall_cons in Hall. destruct Hall as (Hfrom & Hrest).
    cbn [telegram.handle snd] in *.
    destruct (onNewEmail accountID rawEmail b) as [|b1] eqn:H1;
      [|apply IH; exact Hrest].
    exfalso. revert H1. unfold telegram.onNewEmail.
    destruct (From rawEmail) as [from|]; [|congruence].
    destruct (database.GetAccountByID _ _) as [[e|account] d]; [discriminate|].
    destruct (database.CreateMessage _ _) as [[e|emailMsg] d1];
      [discriminate|].
    destruct (telegram.sendMessageWithKeyboard _ _ _ _ _) as [[t|e] b2];
      [|discriminate].
    destruct (database.UpdateMessageTelegramMsgID _ _ _) as [r1 d2].
    destruct (database.UpdateAccountLastUID _ _ _) as [r2 d3]. discriminate.
Qed.

Lemma delivered_From wrapper lastUID s :
  Forall (fun call => From call.2 <> None)
    (delivered (events_of (fetchNewMessages wrapper lastUID) s)).
Proof.
  unfold events_of. rewrite fetchNewMessages_trace. cbn [fst snd].
  unfold with_trace; cbn [trace]. rewrite drop_app_length, delivered_app.
  rewrite (delivered_session_io _ (cycle_io_session wrapper lastUID s)).
  cbn [app].
  destruct (failure wrapper lastUID s) as [err|].
  - destruct (onError (manager s)); constructor.
  - destruct (onMessage (manager s)); [|constructor].
    unfold batch. destruct (usable _); [|constructor].
    destruct (select_inbox _ _ _); [constructor|].
    destruct (uid_fetch _ _ _ _) as [messages [e|]]; [constructor|].
    rewrite collect_parseMessage.
    induction messages as [|m rest IH]; [constructor|].
    cbn [map delivered omap]. constructor; [|exact IH].
    cbn [snd]. rewrite parseMessage_From.
    destruct (imap.Envelope_ m) as [env|]; [|discriminate].
    destruct (imap.From env); discriminate.
Qed.

(** The handler dereferences the sender of the message before anything
    else and panics when there is none; for the messages a fetch cycle
    of a session hands to it, in any state of the process and of the
    bot, it returns. *)
Theorem handler_returns_on_what_a_session_delivers :
  (forall accountID rawEmail b,
     From rawEmail = None ->
     onNewEmail accountID rawEmail b = telegram.Panic)
  /\ (forall wrapper lastUID s b,
        exists b',
          handle (delivered (events_of (fetchNewMessages wrapper lastUID) s))
            b = telegram.Returned b').
Proof.
  split.
  - intros accountID rawEmail b H. unfold telegram.onNewEmail. rewrite H.
    reflexivity.
  - intros wrapper lastUID s b. apply handle_total, delivered_From.
Qed.

Lemma find_filter_out {A} (p : A -> bool) (l : list A) :
  List.find p (List.filter (fun x => negb (p x)) l) = None.
Proof.
  induction l as [|x l IH]; [reflexivity|]. cbn [List.filter].
  destruct (p x) eqn:E; cbn [negb]; [exact IH|].
  cbn [List.find]. rewrite E. exact IH.
Qed.

(** A deletion of an account that the storage carries out removes the
    messages recorded for the account and leaves those of the other
    accounts; the handler, invoked afterwards for a message of the
    deleted account, makes no request and records nothing. *)
Theorem deleted_account_takes_its_messages id d :
  database.fault d (database.statements d) = None ->
  fst (database.DeleteAccount id d) = None
  /\ (forall u, recorded (snd (database.DeleteAccount id d)) id u = false)
  /\ (forall a u, a <> id ->
        recorded (snd (database.DeleteAccount id d)) a u = recorded d a u)
  /\ (forall rawEmail b b',
        telegram.db b = snd (database.DeleteAccount id d) ->
        onNewEmail id rawEmail b = telegram.Returned b' ->
        telegram.requests b' = telegram.requests b
        /\ database.email_messages (telegram.db b')
           = database.email_messages (telegram.db b)).
Proof.
  destruct d as [accs msgs aseq mseq flt n now].
  cbn [database.fault database.statements]. intros Hf.
  unfold database.DeleteAccount, database.statement.
  cbn [database.fault database.statements]. rewrite Hf. clear Hf.
  unfold recorded, database.with_messages, database.with_accounts.
  cbn [fst snd database.email_messages database.email_accounts].
  split; [reflexivity|]. split; [|split].
  - intros u. induction msgs as [|m msgs IH]; [reflexivity|].
    cbn [List.filter]. destruct (message.AccountID m =? id) eqn:E;
      cbn [negb]; [exact IH|].
    cbn [existsb]. rewrite IH. unfold database.same_message.
    rewrite E. reflexivity.
  - intros a u Ha. induction msgs as [|m msgs IH]; [reflexivity|].
    cbn [List.filter existsb]. destruct (message.AccountID m =? id) eqn:E;
      cbn [negb]; [|cbn [existsb]; rewrite IH; reflexivity].
    rewrite IH. unfold database.same_message.
    apply Z.eqb_eq in E.
    replace (message.AccountID m =? a) with false
      by (symmetry; apply Z.eqb_neq; lia).
    reflexivity.
  - intros rawEmail b b' Hdb. unfold telegram.onNewEmail.
    destruct (From rawEmail) as [from|]; [|discriminate].
    unfold database.GetAccountByID, database.statement.
    rewrite Hdb.
    cbn [database.fault database.statements database.email_accounts].
    rewrite find_filter_out.
    destruct (flt (S n)); intros [= <-]; destruct b; cbn in *;
      subst; split; reflexivity.
Qed.

Lemma update_new_row id t rows row :
  Forall (fun m => message.ID m < id) rows ->
  message.ID row = id ->
  map (fun m => if message.ID m =? id
                then database.set_TelegramMsgID t m else m) (rows ++ [row])
  = rows ++ [database.set_TelegramMsgID t row].
Proof.
  intros Hall Hid. rewrite map_app. cbn [map]. rewrite Hid, Z.eqb_refl.
  f_equal. induction Hall as [|m rows Hm _ IH]; [reflexivity|].
  cbn [map]. rewrite IH.
  replace (message.ID m =? id) with false
    by (symmetry; apply Z.eqb_neq; lia).
  reflexivity.
Qed.

(** For a message of an account in the table that is not recorded yet,
    when the storage carries out its four statements and Telegram
    accepts the request, the handler makes one request, to the chat and
    the topic of the account, with the formatted text and the keyboard
    of the new row; it appends that row, with the next identifier and
    the identifier of the Telegram message, leaves the other rows as
    they are, and sets the last identifier of the account to that of
    the message, also when that is smaller than the one stored. *)
Theorem handled_message_is_recorded accountID rawEmail from account b t :
  From rawEmail = Some from ->
  (forall k, (k < 4)%nat ->
     database.fault (telegram.db b)
       (database.statements (telegram.db b) + k)%nat = None) ->
  List.find (fun a => models.ID a =? accountID)
    (database.email_accounts (telegram.db b)) = Some account ->
  recorded (telegram.db b) accountID (UID rawEmail) = false ->
  Forall (fun m => message.ID m <= database.messages_seq (telegram.db b))
    (database.email_messages (telegram.db b)) ->
  telegram.reply b (length (telegram.requests b)) = inl t ->
  exists b' row,
    onNewEmail accountID rawEmail b = telegram.Returned b'
    /\ telegram.requests b'
       = telegram.requests b
         ++ [{| telegram.ChatID := models.ChatID account;
                telegram.MessageThreadID := models.TopicID account;
                telegram.Text :=
                  formatter.FormatEmail time_Format (telegram.formatter_ b)
                    row (DetectCodes (telegram.bodyOf Parse rawEmail));
                telegram.ParseMode := "HTML";
                telegram.ReplyMarkup :=
                  Some (keyboard.BuildEmailKeyboard json_Marshal
                          (message.ID row)
                          (DetectCodes (telegram.bodyOf Parse rawEmail))
                          false) |}]
    /\ database.email_messages (telegram.db b')
       = database.email_messages (telegram.db b) ++ [row]
    /\ message.ID row = database.messages_seq (telegram.db b) + 1
    /\ message.AccountID row = accountID
    /\ message.UID row = UID rawEmail
    /\ message.FromAddr row = Address_ from
    /\ message.BodyText row = telegram.bodyOf Parse rawEmail
    /\ message.DetectedCodes row
       = json_codes (DetectCodes (telegram.bodyOf Parse rawEmail))
    /\ message.TelegramMsgID row = t
    /\ database.email_accounts (telegram.db b')
       = map (fun a => if models.ID a =? accountID
                       then database.set_LastUID (UID rawEmail)
                              (database.now (telegram.db b)) a
                       else a)
           (database.email_accounts (telegram.db b)).
Proof.
  destruct b as [d f rep reqs]. destruct d as [accs msgs aseq mseq flt n now].
  unfold recorded.
  cbn [telegram.db telegram.reply telegram.requests telegram.formatter_
       database.fault database.statements database.email_accounts
       database.email_messages database.messages_seq database.now].
  intros Hfrom Hflt Hfind Hrec Hseq Hrep.
  assert (H0 : flt n = None)
    by (rewrite <- (Nat.add_0_r n); apply Hflt; lia).
  assert (H1 : flt (S n) = None)
    by (replace (S n) with (n + 1)%nat by lia; apply Hflt; lia).
  assert (H2 : flt (S (S n)) = None)
    by (replace (S (S n)) with (n + 2)%nat by lia; apply Hflt; lia).
  assert (H3 : flt (S (S (S n))) = None)
    by (replace (S (S (S n))) with (n + 3)%nat by lia; apply Hflt; lia).
  assert (Hacc : existsb (fun a => models.ID a =? accountID) accs = true).
  { apply existsb_exists. apply find_some in Hfind. eauto. }
  assert (Hbody :
    (if negb (String.eqb (BodyHTML rawEmail) EmptyString)
     then match Parse (BodyHTML rawEmail) with
          | (_, Some _) => BodyText rawEmail
          | (parsed, None) => parsed
          end
     else BodyText rawEmail) = telegram.bodyOf Parse rawEmail).
  { unfold telegram.bodyOf. destruct (String.eqb _ _); reflexivity. }
  unfold telegram.onNewEmail. rewrite Hfrom.
  unfold database.GetAccountByID, database.statement.
  cbn [telegram.db telegram.with_db database.fault database.statements
       database.email_accounts database.email_messages telegram.reply
       telegram.formatter_ telegram.requests].
  rewrite H0, Hfind, Hbody.
  unfold database.CreateMessage, database.statement.
  cbn [telegram.db telegram.with_db database.fault database.statements
       database.email_accounts database.email_messages telegram.reply
       telegram.formatter_ telegram.requests message.AccountID message.UID
       database.messages_seq database.now database.accounts_seq].
  rewrite H1, Hrec, Hacc. cbn [negb].
  unfold telegram.sendMessageWithKeyboard, telegram.SendMessage.
  cbn [telegram.db telegram.with_db database.fault database.statements
       database.email_accounts database.email_messages telegram.reply
       telegram.formatter_ telegram.requests].
  rewrite Hrep.
  unfold database.UpdateMessageTelegramMsgID, database.UpdateAccountLastUID,
    database.statement, database.with_messages, database.with_accounts.
  cbn [telegram.db telegram.with_db database.fault database.statements
       database.email_accounts database.email_messages telegram.reply
       telegram.formatter_ telegram.requests database.messages_seq
       database.now database.accounts_seq].
  rewrite H2.
  cbn [telegram.db telegram.with_db database.fault database.statements
       database.email_accounts database.email_messages telegram.reply
       telegram.formatter_ telegram.requests database.messages_seq
       database.now database.accounts_seq].
  rewrite H3.
  cbn [telegram.db telegram.with_db database.fault database.statements
       database.email_accounts database.email_messages telegram.reply
       telegram.formatter_ telegram.requests database.messages_seq
       database.now database.accounts_seq].
  set (row := database.inserted _ _ _).
  rewrite (update_new_row (message.ID row) t msgs row);
    [|eapply Forall_impl; [exact Hseq|]; intros m Hm; cbn in *; lia
     |reflexivity].
  eexists. exists (database.set_TelegramMsgID t row).
  split; [reflexivity|].
  cbn [telegram.db telegram.requests database.email_messages
       database.email_accounts telegram.with_db].
  split.
  { f_equal. f_equal. destruct (models.TopicID account =? 0) eqn:E;
      cbn [negb telegram.ChatID telegram.Text telegram.ParseMode
           telegram.ReplyMarkup]; [|reflexivity].
    apply Z.eqb_eq in E. rewrite E. reflexivity. }
  split; [reflexivity|].
  repeat (split; [reflexivity|]). reflexivity.
Qed.

End HandlerProperties.

Lemma failed_send_is_not_retried_witness :
  recorded (telegram.db afterRefusal) 1 (UID sampleRaw) = true
  /\ database.email_accounts (telegram.db afterRefusal)
     = database.email_accounts (telegram.db (sampleBot refused))
  /\ forall calls,
       ~ In (1, UID sampleRaw)
           (telegram.requested sampleTime sampleMarshal sampleJSON
              sampleParse sampleDetect calls afterRefusal).
Proof.
  apply (failed_send_is_not_retried sampleTime sampleMarshal sampleJSON
           sampleParse sampleDetect 1 sampleRaw (sampleBot refused)
           afterRefusal "Bad Request"%string).
  - vm_compute. reflexivity.
  - vm_compute. reflexivity.
  - reflexivity.
Defined.

Lemma deleted_account_takes_its_messages_witness :
  fst (database.DeleteAccount 1 (telegram.db afterRefusal)) = None
  /\ recorded (snd (database.DeleteAccount 1 (telegram.db afterRefusal)))
       1 (UID sampleRaw) = false.
Proof.
  destruct (deleted_account_takes_its_messages sampleTime sampleMarshal
              sampleJSON sampleParse sampleDetect 1
              (telegram.db afterRefusal)) as (Hok & Hgone & _).
  - vm_compute. reflexivity.
  - split; [exact Hok|apply Hgone].
Defined.

Lemma handled_message_is_recorded_witness :
  exists b' row,
    telegram.onNewEmail sampleTime sampleMarshal sampleJSON sampleParse
      sampleDetect 1 sampleRaw (sampleBot accepted) = telegram.Returned b'
    /\ telegram.requests b'
       = [{| telegram.ChatID := 10; telegram.MessageThreadID := 2;
             telegram.Text :=
               formatter.FormatEmail sampleTime formatter.NewTelegramFormatter
                 row [];
             telegram.ParseMode := "HTML";
             telegram.ReplyMarkup :=
               Some (keyboard.BuildEmailKeyboard sampleMarshal 1 [] false) |}]
    /\ database.email_messages (telegram.db b') = [row]
    /\ message.UID row = 5
    /\ message.TelegramMsgID row = 900.
Proof.
  destruct (handled_message_is_recorded sampleTime sampleMarshal sampleJSON
              sampleParse sampleDetect 1 sampleRaw
              {| Name := "Bob"; Address_ := "bob@example.net" |}
              alice (sampleBot accepted) 900)
    as (b' & row & Hrun & Hreq & Hrows & Hid & _ & Huid & _ & _ & _ & Ht & _).
  - vm_compute. reflexivity.
  - intros k _. reflexivity.
  - reflexivity.
  - reflexivity.
  - constructor.
  - reflexivity.
  - exists b', row. split; [exact Hrun|]. split.
    + rewrite Hreq, Hid. reflexivity.
    + split; [exact Hrows|]. split; [exact Huid|exact Ht].
Defined.

(** ** The password of a new mailbox *)

Lemma fill_run rand_Int : in_range rand_Int -> forall n i,
  match first_error rand_Int i n with
  | Some err => password.fill rand_Int i n = Some (inr err)
  | None =>
      exists bytes,
        password.fill rand_Int i n = Some (inl bytes)
        /\ length bytes = n
        /\ forall k, (k < n)%nat ->
             exists num, rand_Int (i + k)%nat 70 = inl num
               /\ bytes !! k = String.get (Z.to_nat num) password.charset
               /\ bytes !! k <> None
  end.
Proof.
  intros Hr. induction n as [|n IH]; intros i.
  - cbn. exists []. split; [reflexivity|]. split; [reflexivity|].
    intros k Hk. lia.
  - cbn [first_error password.fill].
    change (Z.of_nat (String.length password.charset)) with 70.
    destruct (rand_Int i 70) as [num|err] eqn:Hd; [|reflexivity].
    pose proof (Hr i 70 num ltac:(lia) Hd) as Hnum.
    replace (num <? 0) with false by (symmetry; apply Z.ltb_ge; lia).
    cbv beta iota.
    assert (Hget : exists ch,
              String.get (Z.to_nat num) password.charset = Some ch).
    { assert (Hn : (Z.to_nat num < 70)%nat) by lia.
      revert Hn. generalize (Z.to_nat num). intros m Hm.
      do 70 (destruct m as [|m]; [eexists; reflexivity|]). lia. }
    destruct Hget as (ch & Hch). rewrite Hch.
    specialize (IH (S i)).
    destruct (first_error rand_Int (S i) n) as [err|].
    + rewrite IH. reflexivity.
    + destruct IH as (bytes & -> & Hlen & Hall).
      exists (ch :: bytes). split; [reflexivity|].
      split; [cbn [length]; lia|].
      intros [|k] Hk.
      * exists num. rewrite Nat.add_0_r. split; [exact Hd|].
        change ((ch :: bytes) !! 0%nat) with (Some ch).
        rewrite Hch. split; [reflexivity|discriminate].
      * destruct (Hall k ltac:(lia)) as (num' & Hd' & Hb & Hne).
        exists num'. replace (i + S k)%nat with (S i + k)%nat by lia.
        split; [exact Hd'|]. split; [exact Hb|exact Hne].
Qed.

Lemma get_string_of_list bytes : forall k,
  String.get k (string_of_list_ascii bytes) = bytes !! k.
Proof.
  induction bytes as [|b bytes IH]; intros [|k]; try reflexivity.
  cbn. apply IH.
Qed.

(** With draws in the range asked for, [GenerateSecurePassword] does
    not panic on a length that is not negative: it returns the empty
    password with the error of the first draw that fails or, when none
    does, a password of the length asked for whose every byte is the
    byte of the character set at the number drawn for it.  On a
    negative length it panics. *)
Theorem password_comes_from_the_character_set rand_Int len :
  in_range rand_Int ->
  (len < 0 -> password.GenerateSecurePassword rand_Int len = password.Panic)
  /\ (0 <= len ->
      match first_error rand_Int 0 (Z.to_nat len) with
      | Some err =>
          password.GenerateSecurePassword rand_Int len
          = password.Return EmptyString (Some err)
      | None =>
          exists pw,
            password.GenerateSecurePassword rand_Int len
            = password.Return pw None
            /\ Z.of_nat (String.length pw) = len
            /\ forall k, (k < Z.to_nat len)%nat ->
                 exists num ch,
                   rand_Int k 70 = inl num
                   /\ String.get k pw = Some ch
                   /\ String.get (Z.to_nat num) password.charset = Some ch
      end).
Proof.
  intros Hr. unfold password.GenerateSecurePassword. split.
  - intros Hneg. replace (len <? 0) with true
      by (symmetry; apply Z.ltb_lt; lia). reflexivity.
  - intros Hpos. replace (len <? 0) with false
      by (symmetry; apply Z.ltb_ge; lia).
    pose proof (fill_run rand_Int Hr (Z.to_nat len) 0%nat) as H.
    destruct (first_error rand_Int 0 (Z.to_nat len)) as [err|].
    + rewrite H. reflexivity.
    + destruct H as (bytes & -> & Hlen & Hall).
      exists (string_of_list_ascii bytes). split; [reflexivity|].
      split.
      * rewrite length_string_of_list. lia.
      * intros k Hk. destruct (Hall k Hk) as (num & Hd & Hb & Hne).
        cbn [Nat.add] in Hd.
        destruct (bytes !! k) as [ch|] eqn:E; [|congruence].
        exists num, ch. split; [exact Hd|].
        rewrite get_string_of_list. split; [exact E|]. symmetry; exact Hb.
Qed.

Lemma counting_in_range : in_range counting.
Proof.
  intros k max n Hmax [= <-]. apply Z.mod_pos_bound. exact Hmax.
Qed.

Lemma password_comes_from_the_character_set_witness :
  exists pw,
    password.GenerateSecurePassword counting 16 = password.Return pw None
    /\ Z.of_nat (String.length pw) = 16
    /\ forall k, (k < Z.to_nat 16)%nat ->
         exists num ch,
           counting k 70 = inl num
           /\ String.get k pw = Some ch
           /\ String.get (Z.to_nat num) password.charset = Some ch.
Proof.
  apply (proj2 (password_comes_from_the_character_set counting 16
                  counting_in_range)).
  lia.
Defined.
